(** * Token relevance evaluation: a shallow embedding

    This development embeds [src/evaluation/token_relevance_evaluation.py]
    (class [Token_Relevance_Evaluation]) and proves properties of its
    nearest-neighbour vote, its agreement statistics, its loss evaluation
    loop and its csv result store.

    Conventions of the embedding.
    - Python [int] is [Z]; Python [float] is IEEE binary64, given by the
      Standard Library's [spec_float] with [prec = 53] and [emax = 1024].
    - A model identifier ("label") is a Python [int] or [str]: the class is
      annotated with [List[int]], its [main] passes the strings it gets from
      [str.split].
    - A raised exception is a value of [exn]; methods run in a state and
      exception monad over the evaluator object, the file store and the
      trace of calls to the collaborators.
    - A csv file is the list of rows (lists of text cells) that [csv.reader]
      returns for it; the character-level quoting of the [csv] module and
      the line endings are not modelled. The methods are stated for a
      directory that exists and can be written; [save_results_os] adds
      the case that [open] is refused.
    - The collaborators that are not part of the class ([prompt_token_drop_out],
      [validate_prompt], the embedding providers, numpy's [mean], the text
      conversions [str(float)] and [float(str)], and the accumulation scheme
      of the builtin [sum] on floats) are parameters; a collaborator is a
      function of its arguments that returns or raises, and every call is
      recorded in the trace. *)

From Stdlib Require Import ZArith List SpecFloat Ascii String Sorted.
From stdpp Require Import gmap strings list pretty.

Local Open Scope Z_scope.

(** ** Binary64 arithmetic as Python exposes it *)

Inductive exn : Set :=
  | ZeroDivisionError
  | OverflowError
  | IndexError
  | TypeError
  | ValueError
  | AttributeError
  | FileNotFoundError
  | OtherError (tag : nat).

Global Instance exn_eq_dec : EqDecision exn.
Proof. solve_decision. Defined.

Inductive result (A : Type) : Type :=
  | Ok (a : A)
  | Raise (e : exn).
Arguments Ok {A} a.
Arguments Raise {A} e.

Module F64.

Definition prec : Z := 53.
Definition emax : Z := 1024.

Definition float : Set := spec_float.

Definition add : float -> float -> float := SFadd prec emax.
Definition mul : float -> float -> float := SFmul prec emax.
Definition div : float -> float -> float := SFdiv prec emax.
Definition leb : float -> float -> bool := SFleb.
Definition eqb : float -> float -> bool := SFeqb.

Definition zero : float := S754_zero false.
Definition one : float := S754_finite false 4503599627370496 (-52).

Definition is_zero (x : float) : bool :=
  match x with S754_zero _ => true | _ => false end.

Definition is_infinite (x : float) : bool :=
  match x with S754_infinity _ => true | _ => false end.

(** The integer [z] as an unrounded dyadic number. *)
Definition exact (z : Z) : float :=
  match z with
  | Z0 => S754_zero false
  | Zpos p => S754_finite false p 0
  | Zneg p => S754_finite true p 0
  end.

(** [float(z)]: the nearest binary64 number, or [OverflowError]. *)
Definition of_int (z : Z) : result float :=
  let x := binary_normalize prec emax z 0 false in
  if is_infinite x then Raise OverflowError else Ok x.

(** [bool * float]: the bool is converted to [0.0] or [1.0]. *)
Definition of_bool (b : bool) : float := if b then one else zero.

(** [x.is_integer()] *)
Definition is_integer (x : float) : bool :=
  match x with
  | S754_zero _ => true
  | S754_finite _ m e =>
      if 0 <=? e then true
      else Z.eqb (Z.land (Zpos m) (Z.ones (- e))) 0
  | _ => false
  end.

End F64.

Abbreviation float := F64.float.

(** [a / b] on two ints: the correctly rounded quotient. *)
Definition int_truediv (a b : Z) : result float :=
  if b =? 0 then Raise ZeroDivisionError
  else
    let q := F64.div (F64.exact a) (F64.exact b) in
    if F64.is_infinite q then Raise OverflowError else Ok q.

(** [x / y] on two floats. *)
Definition float_truediv (x y : float) : result float :=
  if F64.is_zero y then Raise ZeroDivisionError else Ok (F64.div x y).

(** The value of a builtin [sum]: the int [0] it starts from, or a float. *)
Inductive pynum : Set :=
  | NInt (z : Z)
  | NFloat (x : float).

Definition py_truediv (x y : pynum) : result float :=
  match x, y with
  | NInt a, NInt b => int_truediv a b
  | NFloat a, NFloat b => float_truediv a b
  | NInt a, NFloat b =>
      match F64.of_int a with
      | Ok a' => float_truediv a' b
      | Raise e => Raise e
      end
  | NFloat a, NInt b =>
      match F64.of_int b with
      | Ok b' => float_truediv a b'
      | Raise e => Raise e
      end
  end.

(** ** The rounding that the division performs

    The definitions below state what [SFdiv] computes on two positive
    integers [n <= k] (lemma [div_spec]): the quotient of [n * 2 ^ (- e)] by
    [k], rounded to the nearest integer with ties to even, at the exponent
    [e] that leaves 53 digits, or at the least exponent. *)

(** [N / D] rounded to the nearest integer, ties to even. *)
Definition rne (N D : Z) : Z :=
  let q := N / D in
  match 2 * (N mod D) ?= D with
  | Lt => q
  | Gt => q + 1
  | Eq => if Z.even q then q else q + 1
  end.

(** The float with mantissa [m <= 2 ^ 53] at exponent [e]. *)
Definition norm (m e : Z) : float :=
  if m =? 0 then S754_zero false
  else if m =? 2 ^ 53 then S754_finite false (Z.to_pos (2 ^ 52)) (e + 1)
  else S754_finite false (Z.to_pos m) e.

(** The position of a remainder [r] of a division by [k]. *)
Definition loc_of_remainder (k r : Z) : location :=
  if r =? 0 then loc_Exact else loc_Inexact (2 * r ?= k).

(** The position after one more shift to the right of the quotient [q]. *)
Definition loc_half (q : Z) (l : location) : location :=
  match Z.odd q, l with
  | false, loc_Exact => loc_Exact
  | false, loc_Inexact _ => loc_Inexact Lt
  | true, loc_Exact => loc_Inexact Eq
  | true, loc_Inexact _ => loc_Inexact Gt
  end.

(** [m] at exponent [e] is the rounded mantissa of [n / k]. *)
Definition rounded (n k e m : Z) : Prop :=
  -1074 <= e <= -52
  /\ m = rne (n * 2 ^ (- e)) k
  /\ n * 2 ^ (- e) / k < 2 ^ 53
  /\ (e = -1074 \/ 2 ^ 52 <= n * 2 ^ (- e) / k).

(** ** Model identifiers *)

Inductive label : Set :=
  | LInt (z : Z)
  | LStr (s : string).

Global Instance label_eq_dec : EqDecision label.
Proof. solve_decision. Defined.

(** Python's [==] on two identifiers; an int never equals a str. *)
Definition label_eqb (a b : label) : bool := bool_decide (a = b).

(** [str(x)] *)
Definition str_of_int (z : Z) : string := pretty z.

Definition str_of_label (l : label) : string :=
  match l with
  | LInt z => str_of_int z
  | LStr s => s
  end.

(** ** [collections.Counter] and [most_common] *)

Definition counter := list (label * nat).

Fixpoint counter_incr (l : label) (c : counter) : counter :=
  match c with
  | [] => [(l, 1%nat)]
  | (l', n) :: c' =>
      if label_eqb l' l then (l', S n) :: c'
      else (l', n) :: counter_incr l c'
  end.

(** [Counter(ls)]: one item per distinct label, in order of first
    occurrence. *)
Definition Counter (ls : list label) : counter :=
  fold_left (fun c l => counter_incr l c) ls [].

(** [sorted(items, key=itemgetter(1), reverse=True)]: a stable sort, so
    items with equal counts keep their order. *)
Fixpoint insert_desc (x : label * nat) (c : counter) : counter :=
  match c with
  | [] => [x]
  | y :: c' =>
      if (snd x <? snd y)%nat then y :: insert_desc x c'
      else x :: y :: c'
  end.

Definition most_common (c : counter) : counter :=
  foldr insert_desc [] c.

(** The number of occurrences of a label in a list of labels. *)
Definition occurrences (l : label) (ls : list label) : nat :=
  length (filter (fun x => x = l) ls).

(** The count a counter holds for a label. *)
Fixpoint tally (c : counter) (l : label) : nat :=
  match c with
  | [] => 0
  | (l', n) :: c' => ((if label_eqb l' l then n else 0) + tally c' l)%nat
  end.

(** The invariant of the counting loop over the labels seen so far. *)
Definition counts (c : counter) (seen : list label) : Prop :=
  NoDup (map fst c)
  /\ Forall (fun e => (0 < e.2)%nat) c
  /\ forall l, tally c l = occurrences l seen.

(** ** The nearest-neighbour vote of one token

    [neighbor_labels = [labels[neighbor] for neighbor in token_neighbors]],
    [most_common = Counter(neighbor_labels).most_common()[0]], and the
    vote [(most_common[0], most_common[1] / self.k)]. *)

Fixpoint lookup_all (labels : list label) (token_neighbors : list nat)
  : result (list label) :=
  match token_neighbors with
  | [] => Ok []
  | n :: ns =>
      match labels !! n with
      | None => Raise IndexError
      | Some l =>
          match lookup_all labels ns with
          | Ok ls => Ok (l :: ls)
          | Raise e => Raise e
          end
      end
  end.

Definition token_vote (k : Z) (labels : list label) (token_neighbors : list nat)
  : result (label * float) :=
  match lookup_all labels token_neighbors with
  | Raise e => Raise e
  | Ok neighbor_labels =>
      match most_common (Counter neighbor_labels) with
      | [] => Raise IndexError
      | (l, n) :: _ =>
          match int_truediv (Z.of_nat n) k with
          | Ok c => Ok (l, c)
          | Raise e => Raise e
          end
      end
  end.

Fixpoint votes_of (k : Z) (labels : list label) (nearest_neighbors : list (list nat))
  : result (list (label * float)) :=
  match nearest_neighbors with
  | [] => Ok []
  | tn :: rest =>
      match token_vote k labels tn with
      | Raise e => Raise e
      | Ok v =>
          match votes_of k labels rest with
          | Ok vs => Ok (v :: vs)
          | Raise e => Raise e
          end
      end
  end.

(** ** The evaluator object

    The attributes that [__init__] sets are never assigned again; they form
    [settings]. The attributes that the methods assign form [report]; an
    attribute that was never assigned is [None] and reading it raises
    [AttributeError]. A field's type lists the shapes the class's own
    methods store in that attribute: [save_results] finds numbers and
    (label, certainty) pairs there, [read_from_csv] stores raw text cells in
    the vote attributes and, between two statements, in the loss
    attributes. *)

Inductive numlist : Set :=
  | Nums (xs : list float)
  | NumCells (cells : list string).

Inductive votes : Set :=
  | Votes (vs : list (label * float))
  | VoteCells (cells : list string).

Record settings : Set := {
  soft_prompt_name : string;
  model_numbers : list label;
  model_names : list string;
  config : string;
  accelerator : string;
  prompt_length : Z;
  embedding_size : Z;
  k : Z;
  batch_size : Z;
  use_test_set : bool
}.

Record report : Set := {
  model_per_token : option (list label);
  model_loss_per_token : option numlist;
  individual_model_loss : option numlist;
  masked_loss : option numlist;
  compressed_loss : option numlist;
  euc_nn_votes : option votes;
  cos_nn_votes : option votes;
  euc_accuracy : option float;
  cos_accuracy : option float;
  euc_waccuracy : option float;
  cos_waccuracy : option float;
  euc_to_cos_accuracy : option float
}.

Definition unset : report :=
  {| model_per_token := None;
     model_loss_per_token := None;
     individual_model_loss := None;
     masked_loss := None;
     compressed_loss := None;
     euc_nn_votes := None;
     cos_nn_votes := None;
     euc_accuracy := None;
     cos_accuracy := None;
     euc_waccuracy := None;
     cos_waccuracy := None;
     euc_to_cos_accuracy := None |}.

Definition set_model_per_token (v : (list label)) (r : report) : report :=
  {| model_per_token := Some v;
     model_loss_per_token := model_loss_per_token r;
     individual_model_loss := individual_model_loss r;
     masked_loss := masked_loss r;
     compressed_loss := compressed_loss r;
     euc_nn_votes := euc_nn_votes r;
     cos_nn_votes := cos_nn_votes r;
     euc_accuracy := euc_accuracy r;
     cos_accuracy := cos_accuracy r;
     euc_waccuracy := euc_waccuracy r;
     cos_waccuracy := cos_waccuracy r;
     euc_to_cos_accuracy := euc_to_cos_accuracy r |}.

Definition set_model_loss_per_token (v : numlist) (r : report) : report :=
  {| model_per_token := model_per_token r;
     model_loss_per_token := Some v;
     individual_model_loss := individual_model_loss r;
     masked_loss := masked_loss r;
     compressed_loss := compressed_loss r;
     euc_nn_votes := euc_nn_votes r;
     cos_nn_votes := cos_nn_votes r;
     euc_accuracy := euc_accuracy r;
     cos_accuracy := cos_accuracy r;
     euc_waccuracy := euc_waccuracy r;
     cos_waccuracy := cos_waccuracy r;
     euc_to_cos_accuracy := euc_to_cos_accuracy r |}.

Definition set_individual_model_loss (v : numlist) (r : report) : report :=
  {| model_per_token := model_per_token r;
     model_loss_per_token := model_loss_per_token r;
     individual_model_loss := Some v;
     masked_loss := masked_loss r;
     compressed_loss := compressed_loss r;
     euc_nn_votes := euc_nn_votes r;
     cos_nn_votes := cos_nn_votes r;
     euc_accuracy := euc_accuracy r;
     cos_accuracy := cos_accuracy r;
     euc_waccuracy := euc_waccuracy r;
     cos_waccuracy := cos_waccuracy r;
     euc_to_cos_accuracy := euc_to_cos_accuracy r |}.

Definition set_masked_loss (v : numlist) (r : report) : report :=
  {| model_per_token := model_per_token r;
     model_loss_per_token := model_loss_per_token r;
     individual_model_loss := individual_model_loss r;
     masked_loss := Some v;
     compressed_loss := compressed_loss r;
     euc_nn_votes := euc_nn_votes r;
     cos_nn_votes := cos_nn_votes r;
     euc_accuracy := euc_accuracy r;
     cos_accuracy := cos_accuracy r;
     euc_waccuracy := euc_waccuracy r;
     cos_waccuracy := cos_waccuracy r;
     euc_to_cos_accuracy := euc_to_cos_accuracy r |}.

Definition set_compressed_loss (v : numlist) (r : report) : report :=
  {| model_per_token := model_per_token r;
     model_loss_per_token := model_loss_per_token r;
     individual_model_loss := individual_model_loss r;
     masked_loss := masked_loss r;
     compressed_loss := Some v;
     euc_nn_votes := euc_nn_votes r;
     cos_nn_votes := cos_nn_votes r;
     euc_accuracy := euc_accuracy r;
     cos_accuracy := cos_accuracy r;
     euc_waccuracy := euc_waccuracy r;
     cos_waccuracy := cos_waccuracy r;
     euc_to_cos_accuracy := euc_to_cos_accuracy r |}.

Definition set_euc_nn_votes (v : votes) (r : report) : report :=
  {| model_per_token := model_per_token r;
     model_loss_per_token := model_loss_per_token r;
     individual_model_loss := individual_model_loss r;
     masked_loss := masked_loss r;
     compressed_loss := compressed_loss r;
     euc_nn_votes := Some v;
     cos_nn_votes := cos_nn_votes r;
     euc_accuracy := euc_accuracy r;
     cos_accuracy := cos_accuracy r;
     euc_waccuracy := euc_waccuracy r;
     cos_waccuracy := cos_waccuracy r;
     euc_to_cos_accuracy := euc_to_cos_accuracy r |}.

Definition set_cos_nn_votes (v : votes) (r : report) : report :=
  {| model_per_token := model_per_token r;
     model_loss_per_token := model_loss_per_token r;
     individual_model_loss := individual_model_loss r;
     masked_loss := masked_loss r;
     compressed_loss := compressed_loss r;
     euc_nn_votes := euc_nn_votes r;
     cos_nn_votes := Some v;
     euc_accuracy := euc_accuracy r;
     cos_accuracy := cos_accuracy r;
     euc_waccuracy := euc_waccuracy r;
     cos_waccuracy := cos_waccuracy r;
     euc_to_cos_accuracy := euc_to_cos_accuracy r |}.

Definition set_euc_accuracy (v : float) (r : report) : report :=
  {| model_per_token := model_per_token r;
     model_loss_per_token := model_loss_per_token r;
     individual_model_loss := individual_model_loss r;
     masked_loss := masked_loss r;
     compressed_loss := compressed_loss r;
     euc_nn_votes := euc_nn_votes r;
     cos_nn_votes := cos_nn_votes r;
     euc_accuracy := Some v;
     cos_accuracy := cos_accuracy r;
     euc_waccuracy := euc_waccuracy r;
     cos_waccuracy := cos_waccuracy r;
     euc_to_cos_accuracy := euc_to_cos_accuracy r |}.

Definition set_cos_accuracy (v : float) (r : report) : report :=
  {| model_per_token := model_per_token r;
     model_loss_per_token := model_loss_per_token r;
     individual_model_loss := individual_model_loss r;
     masked_loss := masked_loss r;
     compressed_loss := compressed_loss r;
     euc_nn_votes := euc_nn_votes r;
     cos_nn_votes := cos_nn_votes r;
     euc_accuracy := euc_accuracy r;
     cos_accuracy := Some v;
     euc_waccuracy := euc_waccuracy r;
     cos_waccuracy := cos_waccuracy r;
     euc_to_cos_accuracy := euc_to_cos_accuracy r |}.

Definition set_euc_waccuracy (v : float) (r : report) : report :=
  {| model_per_token := model_per_token r;
     model_loss_per_token := model_loss_per_token r;
     individual_model_loss := individual_model_loss r;
     masked_loss := masked_loss r;
     compressed_loss := compressed_loss r;
     euc_nn_votes := euc_nn_votes r;
     cos_nn_votes := cos_nn_votes r;
     euc_accuracy := euc_accuracy r;
     cos_accuracy := cos_accuracy r;
     euc_waccuracy := Some v;
     cos_waccuracy := cos_waccuracy r;
     euc_to_cos_accuracy := euc_to_cos_accuracy r |}.

Definition set_cos_waccuracy (v : float) (r : report) : report :=
  {| model_per_token := model_per_token r;
     model_loss_per_token := model_loss_per_token r;
     individual_model_loss := individual_model_loss r;
     masked_loss := masked_loss r;
     compressed_loss := compressed_loss r;
     euc_nn_votes := euc_nn_votes r;
     cos_nn_votes := cos_nn_votes r;
     euc_accuracy := euc_accuracy r;
     cos_accuracy := cos_accuracy r;
     euc_waccuracy := euc_waccuracy r;
     cos_waccuracy := Some v;
     euc_to_cos_accuracy := euc_to_cos_accuracy r |}.

Definition set_euc_to_cos_accuracy (v : float) (r : report) : report :=
  {| model_per_token := model_per_token r;
     model_loss_per_token := model_loss_per_token r;
     individual_model_loss := individual_model_loss r;
     masked_loss := masked_loss r;
     compressed_loss := compressed_loss r;
     euc_nn_votes := euc_nn_votes r;
     cos_nn_votes := cos_nn_votes r;
     euc_accuracy := euc_accuracy r;
     cos_accuracy := cos_accuracy r;
     euc_waccuracy := euc_waccuracy r;
     cos_waccuracy := cos_waccuracy r;
     euc_to_cos_accuracy := Some v |}.

(** ** Collaborator calls, the file store and the method monad *)

Inductive metric : Set := Euclidean | Cosine.

(** The keyword arguments of [validate_prompt], as the dict
    [prompt_shorten_args] holds them. *)
Module ShortenArgs.
Record t : Set := {
  model_number : label;
  config : string;
  soft_prompt_name : string;
  accelerator : string;
  prompt_length : Z;
  embedding_size : Z;
  dropped_out_tokens : list nat;
  inverse : bool;
  shorten : bool;
  batch_size : Z;
  use_test_set : bool
}.

(** [prompt_shorten_args["shorten"] = b] *)
Definition set_shorten (b : bool) (a : t) : t :=
  {| model_number := model_number a;
     config := config a;
     soft_prompt_name := soft_prompt_name a;
     accelerator := accelerator a;
     prompt_length := prompt_length a;
     embedding_size := embedding_size a;
     dropped_out_tokens := dropped_out_tokens a;
     inverse := inverse a;
     shorten := b;
     batch_size := batch_size a;
     use_test_set := use_test_set a |}.
End ShortenArgs.

Inductive call : Set :=
  | Call_prompt_token_drop_out
  | Call_validate_soft_prompt_on_multiple_models
  | Call_validate_prompt (args : ShortenArgs.t)
  | Call_get_model_embedding_spaces
  | Call_load_soft_prompt_weight
  | Call_get_k_nearest_neighbors_for_all_tokens (m : metric).

Record world : Type := {
  self : report;
  files : gmap string (list (list string));
  trace : list call
}.

Definition with_self (f : report -> report) (w : world) : world :=
  {| self := f (self w); files := files w; trace := trace w |}.

Definition with_files
  (f : gmap string (list (list string)) -> gmap string (list (list string)))
  (w : world) : world :=
  {| self := self w; files := f (files w); trace := trace w |}.

Definition with_trace (f : list call -> list call) (w : world) : world :=
  {| self := self w; files := files w; trace := f (trace w) |}.

Definition M (A : Type) : Type := world -> result A * world.

Definition ret {A} (a : A) : M A := fun w => (Ok a, w).

Definition bind {A B} (m : M A) (f : A -> M B) : M B :=
  fun w =>
    match m w with
    | (Ok a, w') => f a w'
    | (Raise e, w') => (Raise e, w')
    end.

Definition lift {A} (r : result A) : M A := fun w => (r, w).

Definition raise {A} (e : exn) : M A := lift (Raise e).

(** [try: m except e: h]; an exception raised by the handler is not
    caught again. *)
Definition try_except {A} (m : M A) (e : exn) (h : M A) : M A :=
  fun w =>
    match m w with
    | (Raise e', w') => if decide (e' = e) then h w' else (Raise e', w')
    | r => r
    end.

Global Instance M_ret : MRet M := @ret.
Global Instance M_bind : MBind M := fun A B f m => bind m f.

(** [self.attr] *)
Definition get_attr {A} (attr : report -> option A) : M A :=
  fun w =>
    match attr (self w) with
    | Some a => (Ok a, w)
    | None => (Raise AttributeError, w)
    end.

(** [self.attr = v] *)
Definition assign (set : report -> report) : M unit :=
  fun w => (Ok tt, with_self set w).

(** An expression over an attribute that may be unset; the expression
    decides whether and when the attribute is read. *)
Definition with_attr {A B} (attr : report -> option A)
  (f : option A -> result B) : M B :=
  fun w => (f (attr (self w)), w).

(** A call to a collaborator: it is recorded, then it returns or raises. *)
Definition invoke {A} (c : call) (r : result A) : M A :=
  fun w => (r, with_trace (fun t => t ++ [c]) w).

Fixpoint for_each {A} (xs : list A) (body : A -> M unit) : M unit :=
  match xs with
  | [] => ret tt
  | x :: xs' => bind (body x) (fun _ => for_each xs' body)
  end.

(** [m] leaves a part of the world as it finds it. *)
Definition keeps {A S} (part : world -> S) (m : M A) : Prop :=
  forall w, part (m w).2 = part w.

(** The same monad without state, for expressions. *)
Definition rbind {A B} (r : result A) (f : A -> result B) : result B :=
  match r with
  | Ok a => f a
  | Raise e => Raise e
  end.

Global Instance result_ret : MRet result := @Ok.
Global Instance result_bind : MBind result := fun A B f r => rbind r f.

Fixpoint result_map {A B} (f : A -> result B) (xs : list A) : result (list B) :=
  match xs with
  | [] => Ok []
  | x :: xs' =>
      y ← f x;
      ys ← result_map f xs';
      Ok (y :: ys)
  end.

(** [xs[i]] for [0 <= i]. *)
Definition index {A} (xs : list A) (i : nat) : result A :=
  match xs !! i with
  | Some x => Ok x
  | None => Raise IndexError
  end.

(** [s[i]] on a str: the one-character string at position [i]. *)
Definition str_index (s : string) (i : nat) : result string :=
  match String.get i s with
  | Some a => Ok (String a EmptyString)
  | None => Raise IndexError
  end.

(** ** The agreement statistics of [nn_evaluation]

    [float_sum] is the float that the builtin [sum] returns for a non-empty
    sequence of floats; on an empty sequence [sum] returns the int [0]. *)

Section Aggregation.

Variable float_sum : list float -> float.

Definition py_sum (terms : list float) : pynum :=
  match terms with
  | [] => NInt 0
  | _ :: _ => NFloat (float_sum terms)
  end.

(** [self.model_per_token[i]] *)
Definition token_label (mpt : option (list label)) (i : nat) : result label :=
  match mpt with
  | None => Raise AttributeError
  | Some m => index m i
  end.

(** [nn_votes[i][0] == self.model_per_token[i]] *)
Definition vote_matches (nn_votes : list (label * float))
  (mpt : option (list label)) (i : nat) : result bool :=
  v ← index nn_votes i;
  x ← token_label mpt i;
  Ok (label_eqb v.1 x).

Definition count_true (bs : list bool) : Z :=
  Z.of_nat (length (filter (fun b => b = true) bs)).

(** [sum(nn_votes[i][0] == self.model_per_token[i]
        for i in range(len(nn_votes))) / len(nn_votes)] *)
Definition accuracy (nn_votes : list (label * float))
  (mpt : option (list label)) : result float :=
  bs ← result_map (vote_matches nn_votes mpt) (seq 0 (length nn_votes));
  int_truediv (count_true bs) (Z.of_nat (length nn_votes)).

(** [sum((nn_votes[i][0] == self.model_per_token[i]) * nn_votes[i][1]
        for i in range(len(nn_votes)))
     / sum(nn_votes[i][1] for i in range(len(nn_votes)))] *)
Definition weighted_accuracy (nn_votes : list (label * float))
  (mpt : option (list label)) : result float :=
  num ← result_map
          (fun i => b ← vote_matches nn_votes mpt i;
                    v ← index nn_votes i;
                    Ok (F64.mul (F64.of_bool b) v.2))
          (seq 0 (length nn_votes));
  den ← result_map (fun i => v ← index nn_votes i; Ok v.2)
          (seq 0 (length nn_votes));
  py_truediv (py_sum num) (py_sum den).

(** [sum(euc[i][0] == cos[i][0] for i in range(len(euc))) / len(euc)] *)
Definition agreement (euc cos : list (label * float)) : result float :=
  bs ← result_map
         (fun i => a ← index euc i; b ← index cos i; Ok (label_eqb a.1 b.1))
         (seq 0 (length euc));
  int_truediv (count_true bs) (Z.of_nat (length euc)).

End Aggregation.

(** The accumulation of [sum] up to CPython 3.11: additions from left to
    right, starting from the int [0]. *)
Definition float_sum_left (terms : list float) : float :=
  fold_left F64.add terms F64.zero.

(** ** The collaborators of the class

    The functions the module imports from the rest of the repository and
    from its libraries. A collaborator that can fail returns a [result]. *)

Class Collaborators : Type := {
  (** [str(x)] of a float as [csv.writer] writes it *)
  float_str : float -> string;
  (** [float(s)]; [None] stands for [ValueError] *)
  float_parse : string -> option float;
  (** the float that the builtin [sum] returns on a non-empty sequence *)
  float_sum : list float -> float;
  (** [np.mean] of a list of floats *)
  np_mean : list float -> float;
  (** embedding matrices *)
  tensor : Type;
  prompt_token_drop_out :
    string -> list label -> string -> string -> Z -> Z -> Z -> bool ->
    result (list label * list float);
  validate_soft_prompt_on_multiple_models :
    list label -> string -> string -> Z -> Z -> bool -> string ->
    result (list float);
  validate_prompt : ShortenArgs.t -> result float;
  get_model_embedding_spaces : list string -> result (tensor * list label);
  load_soft_prompt_weight : string -> result tensor;
  get_k_nearest_neighbors_for_all_tokens :
    metric -> tensor -> tensor -> Z -> result (list (list nat))
}.

(** ** The methods of [Token_Relevance_Evaluation] *)

Section Evaluation.

Context `{Collaborators}.

Variable cfg : settings.

Definition save_path : string :=
  let stem :=
    "logs/explainable-soft-prompts/" +:+ soft_prompt_name cfg
    +:+ "/checkpoints/"
    +:+ String.concat "_" (map str_of_label (model_numbers cfg))
    +:+ "_evaluation_with_k_" +:+ str_of_int (k cfg) in
  stem +:+ (if use_test_set cfg then "_test.csv" else ".csv").

(** [[j for j, x in enumerate(model_per_token) if x == model_number]] *)
Definition tokens_to_keep (mpt : list label) (model_number : label) : list nat :=
  map fst (filter (fun jx => label_eqb jx.2 model_number = true)
             (zip (seq 0 (length mpt)) mpt)).

Definition prompt_shorten_args (model_number : label) (kept : list nat)
  : ShortenArgs.t :=
  {| ShortenArgs.model_number := model_number;
     ShortenArgs.config := config cfg;
     ShortenArgs.soft_prompt_name := soft_prompt_name cfg;
     ShortenArgs.accelerator := accelerator cfg;
     ShortenArgs.prompt_length := prompt_length cfg;
     ShortenArgs.embedding_size := embedding_size cfg;
     ShortenArgs.dropped_out_tokens := kept;
     ShortenArgs.inverse := true;
     ShortenArgs.shorten := false;
     ShortenArgs.batch_size := batch_size cfg;
     ShortenArgs.use_test_set := use_test_set cfg |}.

(** The arguments of the two calls for one model. *)
Definition masked_args (mpt : list label) (m : label) : ShortenArgs.t :=
  prompt_shorten_args m (tokens_to_keep mpt m).

Definition compressed_args (mpt : list label) (m : label) : ShortenArgs.t :=
  ShortenArgs.set_shorten true (masked_args mpt m).

(** [self.attr.append(x)] on a loss list. [loss_evaluation] assigns [[]]
    to the attribute before its loop, so the list holds numbers
    whenever the loop body runs (lemma [loss_loop_spec]). *)
Definition append_loss (attr : report -> option numlist)
  (set : numlist -> report -> report) (x : float) : M unit :=
  l ← get_attr attr;
  match l with
  | Nums xs => assign (set (Nums (xs ++ [x])))
  | NumCells _ => raise TypeError
  end.

(** The body of [for model_number in self.model_numbers]; its [print] is
    not modelled. The dict of keyword arguments is built once and its
    "shorten" entry is overwritten between the two calls. *)
Definition loss_evaluation_step (model_number : label) : M unit :=
  mpt ← get_attr model_per_token;
  let args := prompt_shorten_args model_number (tokens_to_keep mpt model_number) in
  masked ← invoke (Call_validate_prompt args) (validate_prompt args);
  append_loss masked_loss set_masked_loss masked;;
  let args := ShortenArgs.set_shorten true args in
  compressed ← invoke (Call_validate_prompt args) (validate_prompt args);
  append_loss compressed_loss set_compressed_loss compressed.

Definition loss_evaluation : M unit :=
  '(mpt, mlpt) ← invoke Call_prompt_token_drop_out
      (prompt_token_drop_out (soft_prompt_name cfg) (model_numbers cfg)
         (config cfg) (accelerator cfg) (prompt_length cfg)
         (embedding_size cfg) (batch_size cfg) (use_test_set cfg));
  assign (set_model_per_token mpt);;
  assign (set_model_loss_per_token (Nums mlpt));;
  iml ← invoke Call_validate_soft_prompt_on_multiple_models
      (validate_soft_prompt_on_multiple_models (model_numbers cfg)
         (config cfg) (accelerator cfg) (prompt_length cfg)
         (batch_size cfg) (use_test_set cfg) (soft_prompt_name cfg));
  assign (set_individual_model_loss (Nums iml));;
  assign (set_masked_loss (Nums []));;
  assign (set_compressed_loss (Nums []));;
  for_each (model_numbers cfg) loss_evaluation_step.

Definition nearest_neighbor_vote (distance_metric : metric)
  (soft_prompt_weight model_embedding_spaces : tensor) (labels : list label)
  : M (list (label * float)) :=
  nearest_neighbors ←
    invoke (Call_get_k_nearest_neighbors_for_all_tokens distance_metric)
      (get_k_nearest_neighbors_for_all_tokens distance_metric
         soft_prompt_weight model_embedding_spaces (k cfg));
  lift (votes_of (k cfg) labels nearest_neighbors).

Definition nn_evaluation : M unit :=
  '(model_embedding_spaces, labels) ←
    invoke Call_get_model_embedding_spaces
      (get_model_embedding_spaces (model_names cfg));
  soft_prompt_weight ←
    invoke Call_load_soft_prompt_weight
      (load_soft_prompt_weight (soft_prompt_name cfg));
  euc ← nearest_neighbor_vote Euclidean soft_prompt_weight
           model_embedding_spaces labels;
  assign (set_euc_nn_votes (Votes euc));;
  cos ← nearest_neighbor_vote Cosine soft_prompt_weight
           model_embedding_spaces labels;
  assign (set_cos_nn_votes (Votes cos));;
  x ← with_attr model_per_token (accuracy euc);
  assign (set_euc_accuracy x);;
  x ← with_attr model_per_token (accuracy cos);
  assign (set_cos_accuracy x);;
  x ← with_attr model_per_token (weighted_accuracy float_sum euc);
  assign (set_euc_waccuracy x);;
  x ← with_attr model_per_token (weighted_accuracy float_sum cos);
  assign (set_cos_waccuracy x);;
  x ← lift (agreement euc cos);
  assign (set_euc_to_cos_accuracy x).

(** *** The result store *)

(** [open(path, "w+")] in a directory that exists and can be written:
    the file is created or truncated. What the methods do when the
    operating system refuses the call is the subject of
    [save_results_os]. *)
Definition open_w (path : string) : M unit :=
  fun w => (Ok tt, with_files (insert path []) w).

(** [writer.writerow(row)] on the file opened at [path]. *)
Definition writerow (path : string) (row : list string) : M unit :=
  fun w => (Ok tt, with_files (alter (fun rows => rows ++ [row]) path) w).

(** [range(n)] as text cells. *)
Definition range_cells (n : Z) : list string :=
  map (fun i => str_of_int (Z.of_nat i)) (seq 0 (Z.to_nat n)).

(** [[nn_votes[i][0] for i in range(len(nn_votes))]] as text cells. *)
Definition assignment_cells (v : votes) : result (list string) :=
  match v with
  | Votes vs => Ok (map (fun v => str_of_label v.1) vs)
  | VoteCells cells => result_map (fun s => str_index s 0) cells
  end.

(** [[nn_votes[i][1] for i in range(len(nn_votes))]] as text cells. *)
Definition certainty_cells (v : votes) : result (list string) :=
  match v with
  | Votes vs => Ok (map (fun v => float_str v.2) vs)
  | VoteCells cells => result_map (fun s => str_index s 1) cells
  end.

Definition num_cells (l : numlist) : list string :=
  match l with
  | Nums xs => map float_str xs
  | NumCells cells => cells
  end.

(** [np.mean(l)]; numpy refuses to reduce an array of strings. *)
Definition mean_cell (l : numlist) : result string :=
  match l with
  | Nums xs => Ok (float_str (np_mean xs))
  | NumCells _ => Raise TypeError
  end.

(** [writer.writerow([name] + self.attr)] for a scalar attribute. *)
Definition write_scalar (path name : string) (attr : report -> option float)
  : M unit :=
  x ← get_attr attr;
  writerow path [name; float_str x].

(** [writer.writerow([name] + self.attr + [np.mean(self.attr)])] *)
Definition write_losses (path name : string) (attr : report -> option numlist)
  : M unit :=
  l ← get_attr attr;
  m ← lift (mean_cell l);
  writerow path (name :: num_cells l ++ [m]).

Definition save_results (path : string) : M unit :=
  open_w path;;
  writerow path ("token id" :: range_cells (prompt_length cfg));;
  mpt ← get_attr model_per_token;
  writerow path ("Loss assignment" :: map str_of_label mpt);;
  euc ← get_attr euc_nn_votes;
  cells ← lift (assignment_cells euc);
  writerow path ("Euclidean assignment" :: cells);;
  cos ← get_attr cos_nn_votes;
  cells ← lift (assignment_cells cos);
  writerow path ("Cosine assignment" :: cells);;
  mlpt ← get_attr model_loss_per_token;
  writerow path ("Loss" :: num_cells mlpt);;
  euc ← get_attr euc_nn_votes;
  cells ← lift (certainty_cells euc);
  writerow path ("Euclidean certanty" :: cells);;
  cos ← get_attr cos_nn_votes;
  cells ← lift (certainty_cells cos);
  writerow path ("Cosine certanty" :: cells);;
  writerow path [""];;
  write_scalar path "Euclidean accuracy" euc_accuracy;;
  write_scalar path "Cosine accuracy" cos_accuracy;;
  write_scalar path "Euclidean weighted accuracy" euc_waccuracy;;
  write_scalar path "Cosine weighted accuracy" cos_waccuracy;;
  write_scalar path "Euclidean to cosine accuracy" euc_to_cos_accuracy;;
  writerow path [""];;
  writerow path ("Prompt compression" :: model_names cfg ++ ["average"]);;
  write_losses path "Normal prompt length" masked_loss;;
  write_losses path "Shortened prompt length" compressed_loss;;
  write_losses path "One model loss" individual_model_loss.

(** [float(s)] *)
Definition to_float (s : string) : result float :=
  match float_parse s with
  | Some x => Ok x
  | None => Raise ValueError
  end.

(** [self.attr = rows[i][1:]] followed by
    [self.attr = [float(loss) for loss in self.attr]]. *)
Definition read_losses (rows : list (list string)) (i : nat)
  (set : numlist -> report -> report) : M unit :=
  row ← lift (index rows i);
  assign (set (NumCells (drop 1 row)));;
  xs ← lift (result_map to_float (drop 1 row));
  assign (set (Nums xs)).

(** [self.attr = float(rows[i][1])] *)
Definition read_scalar (rows : list (list string)) (i : nat)
  (set : float -> report -> report) : M unit :=
  row ← lift (index rows i);
  cell ← lift (index row 1);
  x ← lift (to_float cell);
  assign (set x).

(** [open(path, "r")] and [rows = [row for row in reader]] *)
Definition read_rows (path : string) : M (list (list string)) :=
  fun w =>
    (match files w !! path with
     | Some rows => Ok rows
     | None => Raise FileNotFoundError
     end, w).

Definition read_from_csv (path : string) : M unit :=
  rows ← read_rows path;
  row ← lift (index rows 1);
  assign (set_model_per_token (map LStr (drop 1 row)));;
  row ← lift (index rows 2);
  assign (set_euc_nn_votes (VoteCells (drop 1 row)));;
  row ← lift (index rows 3);
  assign (set_cos_nn_votes (VoteCells (drop 1 row)));;
  read_losses rows 4 set_model_loss_per_token;;
  read_scalar rows 8 set_euc_accuracy;;
  read_scalar rows 9 set_cos_accuracy;;
  read_scalar rows 10 set_euc_waccuracy;;
  read_scalar rows 11 set_cos_waccuracy;;
  read_scalar rows 12 set_euc_to_cos_accuracy;;
  read_losses rows 15 set_masked_loss;;
  read_losses rows 16 set_compressed_loss;;
  read_losses rows 17 set_individual_model_loss.

Definition token_relevance_evaluation : M unit :=
  try_except (read_from_csv save_path) FileNotFoundError
    (loss_evaluation;; nn_evaluation;; save_results save_path).

End Evaluation.

(** The collaborator calls of [nn_evaluation], in order. *)
Definition nn_calls : list call :=
  [ Call_get_model_embedding_spaces;
    Call_load_soft_prompt_weight;
    Call_get_k_nearest_neighbors_for_all_tokens Euclidean;
    Call_get_k_nearest_neighbors_for_all_tokens Cosine ].

(** ** Reports and their persisted layout

    What a completed computation leaves in the attributes: the
    EvaluationReport of the specification. *)

Record EvaluationReport : Set := {
  r_model_per_token : list label;
  r_model_loss_per_token : list float;
  r_individual_model_loss : list float;
  r_masked_loss : list float;
  r_compressed_loss : list float;
  r_euc_nn_votes : list (label * float);
  r_cos_nn_votes : list (label * float);
  r_euc_accuracy : float;
  r_cos_accuracy : float;
  r_euc_waccuracy : float;
  r_cos_waccuracy : float;
  r_euc_to_cos_accuracy : float
}.

Definition attributes_of (r : EvaluationReport) : report :=
  {| model_per_token := Some (r_model_per_token r);
     model_loss_per_token := Some (Nums (r_model_loss_per_token r));
     individual_model_loss := Some (Nums (r_individual_model_loss r));
     masked_loss := Some (Nums (r_masked_loss r));
     compressed_loss := Some (Nums (r_compressed_loss r));
     euc_nn_votes := Some (Votes (r_euc_nn_votes r));
     cos_nn_votes := Some (Votes (r_cos_nn_votes r));
     euc_accuracy := Some (r_euc_accuracy r);
     cos_accuracy := Some (r_cos_accuracy r);
     euc_waccuracy := Some (r_euc_waccuracy r);
     cos_waccuracy := Some (r_cos_waccuracy r);
     euc_to_cos_accuracy := Some (r_euc_to_cos_accuracy r) |}.

Section Layout.

Context `{Collaborators}.
Variable cfg : settings.
Variable r : EvaluationReport.

Definition loss_row (name : string) (xs : list float) : list string :=
  name :: map float_str xs ++ [float_str (np_mean xs)].

Definition per_token_rows : list (list string) :=
  [ "token id" :: range_cells (prompt_length cfg);
    "Loss assignment" :: map str_of_label (r_model_per_token r);
    "Euclidean assignment" :: map (fun v => str_of_label v.1) (r_euc_nn_votes r);
    "Cosine assignment" :: map (fun v => str_of_label v.1) (r_cos_nn_votes r);
    "Loss" :: map float_str (r_model_loss_per_token r);
    "Euclidean certanty" :: map (fun v => float_str v.2) (r_euc_nn_votes r);
    "Cosine certanty" :: map (fun v => float_str v.2) (r_cos_nn_votes r) ].

Definition scalar_rows : list (list string) :=
  [ ["Euclidean accuracy"; float_str (r_euc_accuracy r)];
    ["Cosine accuracy"; float_str (r_cos_accuracy r)];
    ["Euclidean weighted accuracy"; float_str (r_euc_waccuracy r)];
    ["Cosine weighted accuracy"; float_str (r_cos_waccuracy r)];
    ["Euclidean to cosine accuracy"; float_str (r_euc_to_cos_accuracy r)] ].

Definition loss_rows : list (list string) :=
  [ loss_row "Normal prompt length" (r_masked_loss r);
    loss_row "Shortened prompt length" (r_compressed_loss r);
    loss_row "One model loss" (r_individual_model_loss r) ].

(** The rows [save_results] writes (theorem [save_results_rows]): a row
    of model names stands between the second blank row and the loss
    rows. *)
Definition report_rows : list (list string) :=
  per_token_rows ++ [[""]] ++ scalar_rows ++ [[""]]
  ++ [ "Prompt compression" :: model_names cfg ++ ["average"] ]
  ++ loss_rows.

(** The layout in the words of the specification (section 6): the header,
    the six per-token rows, a blank row, the five scalar rows, a blank
    row, the three loss rows, and nothing else. *)
Definition specified_rows : list (list string) :=
  per_token_rows ++ [[""]] ++ scalar_rows ++ [[""]] ++ loss_rows.

(** The attributes after [read_from_csv] has read [report_rows] (lemma
    [read_saved_report]): labels come back as the text of their cells,
    the certainty rows are not read, and every loss list ends with the
    mean cell of its row. *)
Definition loaded_attributes : report :=
  {| model_per_token :=
       Some (map LStr (map str_of_label (r_model_per_token r)));
     model_loss_per_token := Some (Nums (r_model_loss_per_token r));
     individual_model_loss :=
       Some (Nums (r_individual_model_loss r ++ [np_mean (r_individual_model_loss r)]));
     masked_loss :=
       Some (Nums (r_masked_loss r ++ [np_mean (r_masked_loss r)]));
     compressed_loss :=
       Some (Nums (r_compressed_loss r ++ [np_mean (r_compressed_loss r)]));
     euc_nn_votes :=
       Some (VoteCells (map (fun v => str_of_label v.1) (r_euc_nn_votes r)));
     cos_nn_votes :=
       Some (VoteCells (map (fun v => str_of_label v.1) (r_cos_nn_votes r)));
     euc_accuracy := Some (r_euc_accuracy r);
     cos_accuracy := Some (r_cos_accuracy r);
     euc_waccuracy := Some (r_euc_waccuracy r);
     cos_waccuracy := Some (r_cos_waccuracy r);
     euc_to_cos_accuracy := Some (r_euc_to_cos_accuracy r) |}.

End Layout.

(** A file conforms to the schema when it is the file of some report. *)
Definition conforms `{Collaborators} (rows : list (list string)) : Prop :=
  exists cfg r, rows = report_rows cfg r.

(** The round trip in the words of the specification: the loaded
    attributes are those of the saved report. *)
Definition same_report (saved loaded : report) : Prop :=
  model_per_token loaded = model_per_token saved
  /\ euc_nn_votes loaded = euc_nn_votes saved
  /\ cos_nn_votes loaded = cos_nn_votes saved
  /\ model_loss_per_token loaded = model_loss_per_token saved
  /\ euc_accuracy loaded = euc_accuracy saved
  /\ cos_accuracy loaded = cos_accuracy saved
  /\ euc_waccuracy loaded = euc_waccuracy saved
  /\ cos_waccuracy loaded = cos_waccuracy saved
  /\ euc_to_cos_accuracy loaded = euc_to_cos_accuracy saved
  /\ masked_loss loaded = masked_loss saved
  /\ compressed_loss loaded = compressed_loss saved
  /\ individual_model_loss loaded = individual_model_loss saved.

(** Weighted accuracy in the words of the specification: the sum over the
    tokens of indicator(match) times certainty, divided by the sum over
    the tokens of certainty. *)
Definition weighted_accuracy_spec (float_sum : list float -> float)
  (ablation : list label) (nn_votes : list (label * float)) : float :=
  F64.div
    (float_sum (zip_with (fun v x => F64.mul (F64.of_bool (label_eqb v.1 x)) v.2)
                  nn_votes ablation))
    (float_sum (map snd nn_votes)).

(** The calls to [validate_prompt] that the specification prescribes for
    one model: the masked variant, then the compressed variant, on the
    same kept-token set. *)
Definition prescribed_calls (cfg : settings) (mpt : list label)
  (model_number : label) : list call :=
  [ Call_validate_prompt (masked_args cfg mpt model_number);
    Call_validate_prompt (compressed_args cfg mpt model_number) ].

(** ** What [read_from_csv] needs from a file

    The rows it addresses must exist, the scalar rows must have a second
    cell, and the cells it passes to [float] must parse. *)

Section Loadable.

Context `{Collaborators}.

Definition parses (cell : string) : bool :=
  match float_parse cell with
  | Some _ => true
  | None => false
  end.

Definition present (rows : list (list string)) (i : nat) : bool :=
  match rows !! i with
  | Some _ => true
  | None => false
  end.

Definition numbers_row (rows : list (list string)) (i : nat) : bool :=
  match rows !! i with
  | Some row => forallb parses (drop 1 row)
  | None => false
  end.

Definition scalar_row (rows : list (list string)) (i : nat) : bool :=
  match rows !! i with
  | Some row =>
      match row !! 1%nat with
      | Some cell => parses cell
      | None => false
      end
  | None => false
  end.

Definition loadable (rows : list (list string)) : bool :=
  present rows 1 && (present rows 2 && (present rows 3 &&
  (numbers_row rows 4 &&
  (scalar_row rows 8 && (scalar_row rows 9 && (scalar_row rows 10 &&
  (scalar_row rows 11 && (scalar_row rows 12 &&
  (numbers_row rows 15 && (numbers_row rows 16 && numbers_row rows 17)))))))))).

Definition loud (e : exn) : Prop := e = IndexError \/ e = ValueError.

(** [m] completes when [b] holds and raises [IndexError] or [ValueError]
    otherwise, whatever the world. *)
Definition decided (m : M unit) (b : bool) : Prop :=
  forall w,
    if b then exists w', m w = (Ok tt, w')
    else exists e w', m w = (Raise e, w') /\ loud e.

End Loadable.

(** [rows] with the rows at positions 8 and 9 exchanged. *)
Definition swap_8_9 (rows : list (list string)) : list (list string) :=
  match rows !! 8%nat, rows !! 9%nat with
  | Some r8, Some r9 => take 8 rows ++ [r9; r8] ++ drop 10 rows
  | _, _ => rows
  end.


(** ** A concrete environment

    A text format for floats that reads back, left-to-right summation, the
    mean as sum over length, and collaborators that return fixed data for
    a pool of two models and a prompt of four tokens. *)

Module Demo.

Fixpoint bits (p : positive) : string :=
  match p with
  | xH => "."
  | xO p' => String "0"%char (bits p')
  | xI p' => String "1"%char (bits p')
  end.

Fixpoint read_bits (s : string) : option (positive * string) :=
  match s with
  | EmptyString => None
  | String c s' =>
      if Ascii.eqb c "."%char then Some (xH, s')
      else if Ascii.eqb c "0"%char then
        match read_bits s' with
        | Some (p, rest) => Some (xO p, rest)
        | None => None
        end
      else if Ascii.eqb c "1"%char then
        match read_bits s' with
        | Some (p, rest) => Some (xI p, rest)
        | None => None
        end
      else None
  end.

Definition int_text (z : Z) : string :=
  match z with
  | Z0 => "="
  | Zpos p => String "+"%char (bits p)
  | Zneg p => String "-"%char (bits p)
  end.

Definition read_int (s : string) : option Z :=
  match s with
  | String c s' =>
      if Ascii.eqb c "="%char then (if String.eqb s' "" then Some 0 else None)
      else
        match read_bits s' with
        | Some (p, EmptyString) =>
            if Ascii.eqb c "+"%char then Some (Zpos p)
            else if Ascii.eqb c "-"%char then Some (Zneg p)
            else None
        | _ => None
        end
  | EmptyString => None
  end.

Definition float_text (x : float) : string :=
  match x with
  | S754_zero s => if s then "-0" else "+0"
  | S754_infinity s => if s then "-inf" else "+inf"
  | S754_nan => "nan"
  | S754_finite s m e =>
      String (if s then "-"%char else "+"%char) (String "b"%char (bits m +:+ int_text e))
  end.

Definition read_float (s : string) : option float :=
  if String.eqb s "+0" then Some (S754_zero false)
  else if String.eqb s "-0" then Some (S754_zero true)
  else if String.eqb s "+inf" then Some (S754_infinity false)
  else if String.eqb s "-inf" then Some (S754_infinity true)
  else if String.eqb s "nan" then Some S754_nan
  else
    match s with
    | String c (String b s') =>
        if Ascii.eqb b "b"%char then
          match read_bits s' with
          | Some (m, rest) =>
              match read_int rest with
              | Some e =>
                  if Ascii.eqb c "+"%char then Some (S754_finite false m e)
                  else if Ascii.eqb c "-"%char then Some (S754_finite true m e)
                  else None
              | None => None
              end
          | None => None
          end
        else None
    | _ => None
    end.

Definition mean (xs : list float) : float :=
  F64.div (float_sum_left xs) (F64.exact (Z.of_nat (length xs))).

Definition half : float := S754_finite false 4503599627370496 (-53).

Definition A : label := LInt 1.
Definition B : label := LInt 2.

(** The rows of the embedding matrix: three of model [A], three of [B]. *)
Definition row_labels : list label := [A; A; A; B; B; B].

Definition neighbors (m : metric) : list (list nat) :=
  match m with
  | Euclidean => [[0; 1; 2]; [3; 4; 5]; [3; 4; 5]; [5; 4; 3]]
  | Cosine => [[0; 1; 3]; [0; 1; 2]; [3; 4; 5]; [3; 0; 4]]
  end%nat.

Definition cfg : settings :=
  {| soft_prompt_name := "sp";
     model_numbers := [A; B];
     model_names := ["model-1"; "model-2"];
     config := "cfg.yml";
     accelerator := "cpu";
     prompt_length := 4;
     embedding_size := 8;
     k := 3;
     batch_size := 16;
     use_test_set := false |}.

(** Every collaborator succeeds. *)
Definition env : Collaborators :=
  {| float_str := float_text;
     float_parse := read_float;
     float_sum := float_sum_left;
     np_mean := mean;
     tensor := unit;
     prompt_token_drop_out := fun _ _ _ _ _ _ _ _ =>
       Ok ([A; A; B; B], [half; half; half; half]);
     validate_soft_prompt_on_multiple_models := fun _ _ _ _ _ _ _ =>
       Ok [half; half];
     validate_prompt := fun _ => Ok half;
     get_model_embedding_spaces := fun _ => Ok (tt, row_labels);
     load_soft_prompt_weight := fun _ => Ok tt;
     get_k_nearest_neighbors_for_all_tokens := fun m _ _ _ => Ok (neighbors m) |}.

(** The compressed evaluation of model [B] fails. *)
Definition failing_env : Collaborators :=
  {| float_str := float_text;
     float_parse := read_float;
     float_sum := float_sum_left;
     np_mean := mean;
     tensor := unit;
     prompt_token_drop_out := fun _ _ _ _ _ _ _ _ =>
       Ok ([A; A; B; B], [half; half; half; half]);
     validate_soft_prompt_on_multiple_models := fun _ _ _ _ _ _ _ =>
       Ok [half; half];
     validate_prompt := fun a =>
       if ShortenArgs.shorten a && label_eqb (ShortenArgs.model_number a) B
       then Raise (OtherError 7) else Ok half;
     get_model_embedding_spaces := fun _ => Ok (tt, row_labels);
     load_soft_prompt_weight := fun _ => Ok tt;
     get_k_nearest_neighbors_for_all_tokens := fun m _ _ _ => Ok (neighbors m) |}.

Definition fresh : world :=
  {| self := unset; files := ∅; trace := [] |}.

Definition two_thirds : float := S754_finite false 6004799503160661 (-53).
Definition three_quarters : float := S754_finite false 6755399441055744 (-53).

(** The report that the pipeline computes in [env]. *)
Definition report : EvaluationReport :=
  {| r_model_per_token := [A; A; B; B];
     r_model_loss_per_token := [half; half; half; half];
     r_individual_model_loss := [half; half];
     r_masked_loss := [half; half];
     r_compressed_loss := [half; half];
     r_euc_nn_votes := [(A, F64.one); (B, F64.one); (B, F64.one); (B, F64.one)];
     r_cos_nn_votes := [(A, two_thirds); (A, F64.one); (B, F64.one); (B, two_thirds)];
     r_euc_accuracy := three_quarters;
     r_cos_accuracy := F64.one;
     r_euc_waccuracy := three_quarters;
     r_cos_waccuracy := F64.one;
     r_euc_to_cos_accuracy := three_quarters |}.

Definition computed : world :=
  {| self := attributes_of report; files := ∅; trace := [] |}.

End Demo.

(** ** Further definitions: shares, counter order, the file
    writer, file names and the command line entry points *)

(** The number of votes whose label is the label at the same position of
    [others]. *)
Definition matches (nn_votes : list (label * float)) (others : list label) : Z :=
  count_true (zip_with (fun v x => label_eqb v.1 x) nn_votes others).

(** [count / n] as a float. *)
Definition share (count : Z) (n : nat) : float :=
  F64.div (F64.exact count) (F64.exact (Z.of_nat n)).

(** The keys of a counter stand in the order in which the labels were
    first seen. *)
Definition first_seen (keys seen : list label) : Prop :=
  forall p l q, keys = p ++ l :: q ->
    exists pre post,
      seen = pre ++ l :: post /\ (l ∉ pre) /\ forall l', l' ∈ p <-> l' ∈ pre.

(** Position [j] is among the tokens that a [validate_prompt] call of
    [calls] keeps. *)
Definition kept_in (calls : list call) (j : nat) : Prop :=
  exists args,
    Call_validate_prompt args ∈ calls
    /\ j ∈ ShortenArgs.dropped_out_tokens args.

(** [m] appends rows to the file at [path], [n] of them when it completes
    and fewer (or, when it is not [strict], at most [n]) when it raises;
    it changes no other file, no attribute and no entry of the trace. *)
Definition appends {A} (path : string) (m : M A) (n : nat) (strict : bool) : Prop :=
  forall w rows,
    files w !! path = Some rows ->
    exists added,
      files (m w).2 = <[path := rows ++ added]> (files w)
      /\ self (m w).2 = self w
      /\ trace (m w).2 = trace w
      /\ match (m w).1 with
         | Ok _ => length added = n
         | Raise _ =>
             if strict then (length added < n)%nat else (length added <= n)%nat
         end.

(** Every attribute of the evaluator is set. *)
Definition complete (r : report) : Prop :=
  is_Some (model_per_token r)
  /\ is_Some (model_loss_per_token r)
  /\ is_Some (individual_model_loss r)
  /\ is_Some (masked_loss r)
  /\ is_Some (compressed_loss r)
  /\ is_Some (euc_nn_votes r)
  /\ is_Some (cos_nn_votes r)
  /\ is_Some (euc_accuracy r)
  /\ is_Some (cos_accuracy r)
  /\ is_Some (euc_waccuracy r)
  /\ is_Some (cos_waccuracy r)
  /\ is_Some (euc_to_cos_accuracy r).

(** ** When the operating system refuses to open the file

    [open_w] is [open(path, "w+")] in a directory that exists and can be
    written. No code of the class creates the [checkpoints] directory of
    the result file, and [open] raises before it creates or truncates
    anything when the operating system refuses the call (a missing
    directory gives [FileNotFoundError]). In the definitions below
    [refusal] is the exception that [open(path, "w+")] raises, and [None]
    when it opens the file. *)

Section Refusal.

Context `{Collaborators}.
Variable cfg : settings.
Variable refusal : option exn.

(** [save_results]: what [open] raises leaves the [with] statement before
    its body runs. *)
Definition save_results_os (path : string) : M unit :=
  match refusal with
  | Some e => raise e
  | None => save_results cfg path
  end.

Definition token_relevance_evaluation_os : M unit :=
  try_except (read_from_csv (save_path cfg)) FileNotFoundError
    (loss_evaluation cfg;; nn_evaluation cfg;; save_results_os (save_path cfg)).

End Refusal.

(** The characters of [str(z)] for an int [z]. *)
Definition numeral_char (c : ascii) : bool :=
  existsb (Ascii.eqb c)
    ["-"; "0"; "1"; "2"; "3"; "4"; "5"; "6"; "7"; "8"; "9"]%char.

Fixpoint numeral (s : string) : bool :=
  match s with
  | EmptyString => true
  | String c s' => numeral_char c && numeral s'
  end.

(** A string that cannot continue a numeral. *)
Definition stops (s : string) : bool :=
  match s with
  | EmptyString => true
  | String c _ => negb (numeral_char c)
  end.

(** What follows the model numbers in a path: an underscore and a
    character that starts no numeral. *)
Definition after_numbers (t : string) : Prop :=
  exists c r, t = String "_" (String c r) /\ numeral_char c = false.

Definition is_int (l : label) : Prop := exists z, l = LInt z.

(** Settings that differ only where the file name does not look. *)
Definition same_cache_key (cfg1 cfg2 : settings) : Prop :=
  soft_prompt_name cfg1 = soft_prompt_name cfg2
  /\ model_numbers cfg1 = model_numbers cfg2
  /\ k cfg1 = k cfg2
  /\ use_test_set cfg1 = use_test_set cfg2.

(** ** The command line entry point [main]

    [arg_parser] returns the parsed arguments; [main] splits the model
    numbers at the commas, builds the evaluator, runs it and prints two
    accuracies. *)

(** [s.split(sep)] for a separator of one character. *)
Fixpoint split_on (sep : ascii) (s : string) : list string :=
  match s with
  | EmptyString => [""]
  | String c s' =>
      if Ascii.eqb c sep then "" :: split_on sep s'
      else
        match split_on sep s' with
        | piece :: pieces => String c piece :: pieces
        | [] => [String c ""]
        end
  end.

(** [s.replace(a, b)] for two characters. *)
Fixpoint replace_char (a b : ascii) (s : string) : string :=
  match s with
  | EmptyString => ""
  | String c s' => String (if Ascii.eqb c a then b else c) (replace_char a b s')
  end.

(** The namespace that [arg_parser] returns. *)
Module Args.
Record t : Set := {
  soft_prompt_name : string;
  model_numbers : string;
  config : string;
  accelerator : string;
  prompt_length : Z;
  embedding_size : Z;
  k : Z;
  batch_size : Z
}.
End Args.

Section Main.

Context `{Collaborators}.

(** [utils.get_model_names_from_numbers] *)
Variable get_model_names_from_numbers : list label -> result (list string).

(** [Token_Relevance_Evaluation(...)]: the settings that [__init__]
    stores; the model names are looked up once, here, before the
    evaluator runs, so the lookup is no entry of the evaluator's trace. *)
Definition Token_Relevance_Evaluation (soft_prompt_name : string)
  (model_numbers : list label) (config accelerator : string)
  (prompt_length embedding_size k batch_size : Z) (use_test_set : bool)
  : result settings :=
  model_names ← get_model_names_from_numbers model_numbers;
  Ok {| soft_prompt_name := soft_prompt_name;
        model_numbers := model_numbers;
        model_names := model_names;
        config := config;
        accelerator := accelerator;
        prompt_length := prompt_length;
        embedding_size := embedding_size;
        k := k;
        batch_size := batch_size;
        use_test_set := use_test_set |}.

(** [main]: the evaluator is a new object, so its attributes start unset;
    the result is the list of the values printed. [use_test_set] is not
    passed and takes its default. *)
Definition main (args : Args.t) : M (list float) :=
  let model_numbers := map LStr (split_on "," (Args.model_numbers args)) in
  evaluator ← lift (Token_Relevance_Evaluation
                      (Args.soft_prompt_name args)
                      model_numbers
                      (Args.config args)
                      (Args.accelerator args)
                      (Args.prompt_length args)
                      (Args.embedding_size args)
                      (Args.k args)
                      (Args.batch_size args)
                      false);
  assign (fun _ => unset);;
  token_relevance_evaluation evaluator;;
  euc ← get_attr euc_accuracy;
  cos ← get_attr cos_accuracy;
  ret [euc; cos].

End Main.

(** ** [multi_model_eval.py]

    [main] validates one soft prompt on each of the 25 models and writes
    the losses to [val_losses.csv]. Loading the tokenizer and the body of
    the validation loop (building the model, the data module and the
    trainer, and [trainer.validate(model, dm)[0]["val/loss"]]) are
    collaborators; they are parameters of [main] and leave no entry in
    the trace of the evaluator. [seed_everything] has no effect that the
    script observes. *)

Module MultiModelEval.

(** The namespace that [arg_parser] returns. *)
Module Args.
Record t : Set := {
  soft_prompt_name : string;
  model_numbers : string;
  config : string;
  accelerator : string;
  prompt_length : Z
}.
End Args.

(** [i in numbers] for an int [i] and a list of strs. *)
Definition int_in_strs (i : Z) (numbers : list string) : bool :=
  existsb (label_eqb (LInt i)) (map LStr numbers).

(** ["Yes" if i in args.model_numbers.split(",") else "No"] *)
Definition trained_on (i : nat) (model_numbers : string) : string :=
  if int_in_strs (Z.of_nat i) (split_on "," model_numbers) then "Yes" else "No".

Definition val_losses_path (args : Args.t) : string :=
  "logs/explainable-soft-prompts/" +:+ Args.soft_prompt_name args
  +:+ "/checkpoints/val_losses.csv".

(** [enumerate(xs)] *)
Definition enumerate {A} (xs : list A) : list (nat * A) :=
  zip (seq 0 (length xs)) xs.

Section Main.

Context `{Collaborators}.

Variable tokenizer : Type.

(** [get_model_names_from_numbers(range(25))] *)
Variable get_model_names_from_numbers : list Z -> result (list string).

(** [AutoTokenizer.from_pretrained(name, use_fast=True)] *)
Variable from_pretrained : string -> result tokenizer.

(** One round of the validation loop for a model name: the loss that
    [trainer.validate] reports. *)
Variable validate : Args.t -> tokenizer -> string -> result float.

Definition main (args : Args.t) : M unit :=
  model_names ←
    lift (get_model_names_from_numbers (map Z.of_nat (seq 0 25)));
  first_name ← lift (index model_names 0);
  tok ← lift (from_pretrained first_name);
  val_losses ← lift (result_map (validate args tok) model_names);
  let path := val_losses_path args in
  open_w path;;
  writerow path ["seed"; "val_loss"; "trained_on"];;
  for_each (enumerate val_losses)
    (fun '(i, val_loss) =>
       model_name ← lift (index model_names i);
       writerow path
         [model_name; float_str val_loss; trained_on i (Args.model_numbers args)]).

End Main.

End MultiModelEval.

(** ** [visualizer.plot_embedding_space]

    The function draws one scatter per model and one per prompt on a new
    figure and saves the figure. It calls numpy (the two column slices of
    every scatter) and matplotlib ([plt.subplots], [ax.scatter],
    [ax.legend], [fig.savefig]); each of these calls can raise. The
    figure is the list of the scatters drawn so far, each recorded with
    the row range it slices from the embedding space, its opacity, its
    colour and its legend label. The result is the path given to
    [savefig] and the scatters of the saved figure. *)

Module Visualizer.

Definition DEFAULT_COLORS : list string :=
  ["blue"; "orange"; "green"; "red"; "purple"; "brown"; "pink"; "gray";
   "olive"; "cyan"; "black"].

(** [alpha=0.1] and [alpha=1] *)
Inductive opacity : Set := Alpha_0_1 | Alpha_1.

Record scatter : Set := {
  lower_bound : Z;
  upper_bound : Z;
  alpha : opacity;
  color : string;
  legend : string
}.

(** The calls into numpy and matplotlib. A call of matplotlib is given
    the scatters that the figure holds when it is made. *)
Class Libraries : Type := {
  (** the type of [embedding_space] *)
  array : Type;
  (** what a slice of one column is *)
  column : Type;
  (** [plt.subplots(figsize=(10, 8))] *)
  plt_subplots : result unit;
  (** [embedding_space[lower:upper, c]] *)
  getitem : array -> Z -> Z -> Z -> result column;
  (** [ax.scatter(x, y, alpha=a, color=c, label=l)] *)
  ax_scatter :
    list scatter -> column -> column -> opacity -> string -> string ->
    result unit;
  (** [ax.legend()] *)
  ax_legend : list scatter -> result unit;
  (** [fig.savefig(path)] *)
  fig_savefig : list scatter -> string -> result unit
}.

(** Libraries whose every call returns. *)
Definition obliging : Libraries :=
  {| array := unit;
     column := unit;
     plt_subplots := Ok tt;
     getitem := fun _ _ _ _ => Ok tt;
     ax_scatter := fun _ _ _ _ _ _ => Ok tt;
     ax_legend := fun _ => Ok tt;
     fig_savefig := fun _ _ => Ok tt |}.

Fixpoint result_fold {A S} (f : S -> A -> result S) (xs : list A) (s : S)
  : result S :=
  match xs with
  | [] => Ok s
  | x :: xs' => s' ← f s x; result_fold f xs' s'
  end.

(** [os.path.join("visualizations", output_path)] *)
Definition join_visualizations (output_path : string) : string :=
  match output_path with
  | String c _ =>
      if Ascii.eqb c "/" then output_path
      else "visualizations/" +:+ output_path
  | EmptyString => "visualizations/"
  end.

Section Plot.

Context {lib : Libraries}.

Variable embedding_space : array.

(** The libraries accept what the function passes them: a figure can be
    made, the array has its two columns, [ax.scatter] draws the two
    columns of one row range in any colour of [colors], the legend can be
    drawn and the figure can be saved at [path]. *)
Definition cooperative (colors : list string) (path : string) : Prop :=
  plt_subplots = Ok tt
  /\ (forall lower upper c, c = 0 \/ c = 1 ->
        exists col, getitem embedding_space lower upper c = Ok col)
  /\ (forall drawn lower upper x y a c l,
        getitem embedding_space lower upper 0 = Ok x ->
        getitem embedding_space lower upper 1 = Ok y ->
        c ∈ colors ->
        ax_scatter drawn x y a c l = Ok tt)
  /\ (forall drawn, ax_legend drawn = Ok tt)
  /\ (forall drawn, fig_savefig drawn path = Ok tt).

(** One round of a loop: the scatter of the rows from [lower_bound] to
    [lower_bound + width], coloured [colors[i + offset]] and labelled
    with the text of [names[i]]. The arguments of [ax.scatter] are
    evaluated in the order they are written. *)
Definition scatter_round (width : Z) (a : opacity) (colors names : list string)
  (offset : nat) (text : string -> string) (state : Z * list scatter) (i : nat)
  : result (Z * list scatter) :=
  let '(lower_bound, drawn) := state in
  let upper_bound := lower_bound + width in
  x ← getitem embedding_space lower_bound upper_bound 0;
  y ← getitem embedding_space lower_bound upper_bound 1;
  c ← index colors (i + offset);
  name ← index names i;
  ax_scatter drawn x y a c (text name);;
  Ok (upper_bound,
      drawn ++ [ {| lower_bound := lower_bound;
                    upper_bound := upper_bound;
                    alpha := a;
                    color := c;
                    legend := text name |} ]).

Definition plot_embedding_space (output_path : string)
  (model_embedding_size prompt_length : Z)
  (prompts model_names colors : list string)
  : result (string * list scatter) :=
  plt_subplots;;
  state ← result_fold
            (scatter_round model_embedding_size Alpha_0_1 colors model_names 0
               (fun name => "Embeddings from " +:+ name))
            (seq 0 (length model_names)) (0, []);
  state ← result_fold
            (scatter_round prompt_length Alpha_1 colors prompts
               (length model_names) (fun name => name))
            (seq 0 (length prompts)) state;
  ax_legend state.2;;
  fig_savefig state.2 (join_visualizations output_path);;
  Ok (join_visualizations output_path, state.2).

End Plot.

(** The scatters of [names], each [width] rows wide, from the row
    [start] on. *)
Definition series (width : Z) (a : opacity) (text : string -> string)
  (start : Z) (names : list string) (colors : list string) : list scatter :=
  zip_with
    (fun (i_name : nat * string) c =>
       {| lower_bound := start + Z.of_nat i_name.1 * width;
          upper_bound := start + (Z.of_nat i_name.1 + 1) * width;
          alpha := a;
          color := c;
          legend := text i_name.2 |})
    (zip (seq 0 (length names)) names) colors.

(** The figure that [plot_embedding_space] saves: the scatters of the
    models, then those of the prompts. *)
Definition figure_of (model_embedding_size prompt_length : Z)
  (prompts model_names colors : list string) : list scatter :=
  series model_embedding_size Alpha_0_1
    (fun name => "Embeddings from " +:+ name) 0 model_names colors
  ++ series prompt_length Alpha_1 (fun name => name)
       (Z.of_nat (length model_names) * model_embedding_size)
       prompts (drop (length model_names) colors).

End Visualizer.

(** The calls to [validate_prompt] for a model whose masked evaluation
    returned [masked]: the compressed call follows only when the masked
    call returned. *)
Definition attempted_calls (cfg : settings) (mpt : list label) (m : label)
  (masked : result float) : list call :=
  Call_validate_prompt (masked_args cfg mpt m)
  :: match masked with
     | Ok _ => [Call_validate_prompt (compressed_args cfg mpt m)]
     | Raise _ => []
     end.

(** The masked losses that a failed round leaves behind. *)
Definition obtained (masked : result float) : list float :=
  match masked with
  | Ok x => [x]
  | Raise _ => []
  end.

(** Two files agree on the cells that [read_from_csv] looks at: the cells
    after the first of the rows 1 to 4 and 15 to 17, and the second cell
    of the rows 8 to 12. *)
Definition same_addressed_cells (rows rows' : list (list string)) : Prop :=
  (forall i, i ∈ [1; 2; 3; 4; 15; 16; 17]%nat ->
     drop 1 <$> rows' !! i = drop 1 <$> rows !! i)
  /\ (forall i, i ∈ [8; 9; 10; 11; 12]%nat ->
        (fun row : list string => row !! 1%nat) <$> rows' !! i
        = (fun row : list string => row !! 1%nat) <$> rows !! i).

(** [m] neither reads nor writes the file store. *)
Definition oblivious {A} (m : M A) : Prop :=
  forall w f, m (with_files f w) = ((m w).1, with_files f (m w).2).

(** [x] lies between [0.0] and [1.0]. *)
Definition in_unit_interval (x : float) : Prop :=
  F64.leb F64.zero x = true /\ F64.leb x F64.one = true.

(** * Properties *)

(** ** Running monadic code *)

Lemma bind_ok {A B} (m : M A) (f : A -> M B) w a w1 :
  m w = (Ok a, w1) -> (m ≫= f) w = f a w1.
Proof. intros H. unfold mbind, M_bind, bind. now rewrite H. Qed.

Lemma bind_raise {A B} (m : M A) (f : A -> M B) w e w1 :
  m w = (Raise e, w1) -> (m ≫= f) w = (Raise e, w1).
Proof. intros H. unfold mbind, M_bind, bind. now rewrite H. Qed.

Lemma bind_inv_ok {A B} (m : M A) (f : A -> M B) w b w2 :
  (m ≫= f) w = (Ok b, w2) ->
  exists a w1, m w = (Ok a, w1) /\ f a w1 = (Ok b, w2).
Proof.
  unfold mbind, M_bind, bind. destruct (m w) as [[a|e] w1]; intros H.
  - exists a, w1. split; [reflexivity | exact H].
  - discriminate H.
Qed.

Lemma bind_inv_raise {A B} (m : M A) (f : A -> M B) w e w2 :
  (m ≫= f) w = (Raise e, w2) ->
  m w = (Raise e, w2) \/ exists a w1, m w = (Ok a, w1) /\ f a w1 = (Raise e, w2).
Proof.
  unfold mbind, M_bind, bind. destruct (m w) as [[a|e'] w1]; intros H.
  - right. exists a, w1. split; [reflexivity | exact H].
  - left. now inversion H.
Qed.

Lemma rbind_inv_ok {A B} (r : result A) (f : A -> result B) b :
  (r ≫= f) = Ok b -> exists a, r = Ok a /\ f a = Ok b.
Proof.
  unfold mbind, result_bind, rbind. destruct r as [a|e]; intros H.
  - exists a. split; [reflexivity | exact H].
  - discriminate H.
Qed.

(** ** Frame properties: which part of the world a method can change *)


Create HintDb frame.

Lemma keeps_ret {A S} (part : world -> S) (a : A) : keeps part (ret a).
Proof. intros w. reflexivity. Qed.

Lemma keeps_lift {A S} (part : world -> S) (r : result A) : keeps part (lift r).
Proof. intros w. reflexivity. Qed.

Lemma keeps_raise {A S} (part : world -> S) (e : exn) : keeps part (@raise A e).
Proof. intros w. reflexivity. Qed.

Lemma keeps_bind {A B S} (part : world -> S) (m : M A) (f : A -> M B) :
  keeps part m -> (forall a, keeps part (f a)) -> keeps part (m ≫= f).
Proof.
  intros Hm Hf w. unfold mbind, M_bind, bind.
  specialize (Hm w). destruct (m w) as [[a|e] w1]; simpl in *.
  - rewrite Hf. exact Hm.
  - exact Hm.
Qed.

Lemma keeps_get_attr {A S} (part : world -> S) (attr : report -> option A) :
  keeps part (get_attr attr).
Proof. intros w. unfold get_attr. now destruct (attr (self w)). Qed.

Lemma keeps_with_attr {A B S} (part : world -> S) (attr : report -> option A)
  (f : option A -> result B) : keeps part (with_attr attr f).
Proof. intros w. reflexivity. Qed.

Lemma keeps_for_each {A S} (part : world -> S) (xs : list A) (body : A -> M unit) :
  (forall x, keeps part (body x)) -> keeps part (for_each xs body).
Proof.
  intros Hb. induction xs as [|x xs IH]; simpl.
  - apply keeps_ret.
  - apply (keeps_bind part (body x) (fun _ => for_each xs body)); auto.
Qed.

Lemma keeps_try_except {A S} (part : world -> S) (m h : M A) e :
  keeps part m -> keeps part h -> keeps part (try_except m e h).
Proof.
  intros Hm Hh w. unfold try_except.
  specialize (Hm w). destruct (m w) as [[a|e'] w1]; simpl in *.
  - exact Hm.
  - destruct (decide (e' = e)); simpl; [rewrite Hh|]; exact Hm.
Qed.

Lemma assign_keeps_files set : keeps files (assign set).
Proof. intros w. reflexivity. Qed.

Lemma assign_keeps_trace set : keeps trace (assign set).
Proof. intros w. reflexivity. Qed.

Lemma invoke_keeps_files {A} c (r : result A) : keeps files (invoke c r).
Proof. intros w. reflexivity. Qed.

Lemma invoke_keeps_self {A} c (r : result A) : keeps self (invoke c r).
Proof. intros w. reflexivity. Qed.

#[export] Hint Resolve keeps_ret keeps_lift keeps_raise keeps_get_attr
  keeps_with_attr assign_keeps_files assign_keeps_trace invoke_keeps_files
  invoke_keeps_self : frame.

Ltac frame :=
  repeat first
    [ apply keeps_bind; [| intros ?]
    | apply keeps_for_each; intros ?
    | apply keeps_try_except
    | solve [auto with frame]
    | match goal with
      | |- keeps _ (match ?x with _ => _ end) => destruct x
      | |- keeps _ (let '(_, _) := ?x in _) => destruct x
      end ].

(** ** What the methods leave untouched *)

Section Frames.

Context `{Collaborators}.
Variable cfg : settings.

Lemma append_loss_keeps_files attr set x : keeps files (append_loss attr set x).
Proof. unfold append_loss. frame. Qed.

Lemma loss_evaluation_keeps_files : keeps files (loss_evaluation cfg).
Proof.
  unfold loss_evaluation, loss_evaluation_step.
  pose proof append_loss_keeps_files. frame.
Qed.

Lemma nn_evaluation_keeps_files : keeps files (nn_evaluation cfg).
Proof. unfold nn_evaluation, nearest_neighbor_vote. frame. Qed.

Lemma pipeline_keeps_files :
  keeps files (loss_evaluation cfg;; nn_evaluation cfg).
Proof.
  apply keeps_bind; [apply loss_evaluation_keeps_files |].
  intros _. apply nn_evaluation_keeps_files.
Qed.

Lemma read_losses_keeps S (part : world -> S) rows i set :
  (forall f, keeps part (assign f)) -> keeps part (read_losses rows i set).
Proof. intros Ha. unfold read_losses. frame. Qed.

Lemma read_scalar_keeps S (part : world -> S) rows i set :
  (forall f, keeps part (assign f)) -> keeps part (read_scalar rows i set).
Proof. intros Ha. unfold read_scalar. frame. Qed.

Lemma read_from_csv_keeps S (part : world -> S) path :
  (forall f, keeps part (assign f)) -> keeps part (read_from_csv path).
Proof.
  intros Ha. unfold read_from_csv.
  pose proof (fun rows i set => read_losses_keeps S part rows i set Ha).
  pose proof (fun rows i set => read_scalar_keeps S part rows i set Ha).
  apply keeps_bind; [intros w; reflexivity | intros rows].
  frame.
Qed.

Lemma read_from_csv_keeps_trace path : keeps trace (read_from_csv path).
Proof. apply read_from_csv_keeps. intros f w. reflexivity. Qed.

Lemma read_from_csv_keeps_files path : keeps files (read_from_csv path).
Proof. apply read_from_csv_keeps. intros f w. reflexivity. Qed.

End Frames.

(** ** The top-level method on a cache miss *)

Section TopLevel.

Context `{Collaborators}.
Variable cfg : settings.

Lemma read_from_csv_miss path w :
  files w !! path = None ->
  read_from_csv path w = (Raise FileNotFoundError, w).
Proof.
  intros Hmiss. unfold read_from_csv.
  apply bind_raise. unfold read_rows. now rewrite Hmiss.
Qed.

Lemma token_relevance_evaluation_miss w :
  files w !! save_path cfg = None ->
  token_relevance_evaluation cfg w
  = (loss_evaluation cfg;; nn_evaluation cfg;; save_results cfg (save_path cfg)) w.
Proof.
  intros Hmiss. unfold token_relevance_evaluation, try_except.
  rewrite (read_from_csv_miss _ _ Hmiss).
  destruct (decide (FileNotFoundError = FileNotFoundError)); [reflexivity | congruence].
Qed.

(** C9. When the cache file is absent and a stage of the pipeline raises
    (in [loss_evaluation]: the importance assignment or a shortening
    evaluation; in [nn_evaluation]: the nearest-neighbour vote or the
    aggregation), [token_relevance_evaluation] raises the same exception
    to its caller, the file store is left as it was, so no cache entry
    is written, and the next invocation misses the cache again and runs
    the full pipeline. *)
Theorem failed_stage_propagates_and_saves_nothing w e w' :
  files w !! save_path cfg = None ->
  (loss_evaluation cfg w = (Raise e, w')
   \/ exists w1, loss_evaluation cfg w = (Ok tt, w1)
                 /\ nn_evaluation cfg w1 = (Raise e, w')) ->
  token_relevance_evaluation cfg w = (Raise e, w')
  /\ files w' = files w
  /\ read_from_csv (save_path cfg) w' = (Raise FileNotFoundError, w')
  /\ token_relevance_evaluation cfg w'
     = (loss_evaluation cfg;; nn_evaluation cfg;; save_results cfg (save_path cfg)) w'.
Proof.
  intros Hmiss Hstage.
  assert (Hfiles : files w' = files w).
  { destruct Hstage as [Hl | (w1 & Hl & Hn)].
    - pose proof (loss_evaluation_keeps_files cfg w) as Hk.
      now rewrite Hl in Hk.
    - pose proof (loss_evaluation_keeps_files cfg w) as Hk.
      pose proof (nn_evaluation_keeps_files cfg w1) as Hk1.
      rewrite Hl in Hk. rewrite Hn in Hk1. simpl in *. congruence. }
  assert (Hmiss' : files w' !! save_path cfg = None) by now rewrite Hfiles.
  repeat split.
  - rewrite (token_relevance_evaluation_miss _ Hmiss).
    destruct Hstage as [Hl | (w1 & Hl & Hn)].
    + now apply bind_raise.
    + rewrite (bind_ok _ _ _ _ _ Hl). now apply bind_raise.
  - exact Hfiles.
  - now apply read_from_csv_miss.
  - now apply token_relevance_evaluation_miss.
Qed.

End TopLevel.

Lemma failed_stage_witness :
  let w := Demo.fresh in
  let w' := (loss_evaluation (H := Demo.failing_env) Demo.cfg w).2 in
  files w !! save_path Demo.cfg = None
  /\ loss_evaluation (H := Demo.failing_env) Demo.cfg w = (Raise (OtherError 7), w')
  /\ token_relevance_evaluation (H := Demo.failing_env) Demo.cfg w
     = (Raise (OtherError 7), w')
  /\ files w' = files w.
Proof.
  intros w w'.
  assert (Hmiss : files w !! save_path Demo.cfg = None) by reflexivity.
  assert (Hl : loss_evaluation (H := Demo.failing_env) Demo.cfg w
               = (Raise (OtherError 7), w')) by (vm_compute; reflexivity).
  destruct (failed_stage_propagates_and_saves_nothing (H := Demo.failing_env)
              Demo.cfg w (OtherError 7) w' Hmiss (or_introl Hl))
    as (Ht & Hf & _).
  exact (conj Hmiss (conj Hl (conj Ht Hf))).
Defined.

(** ** Inversion of successful runs *)

Lemma get_attr_inv {A} (attr : report -> option A) w a w1 :
  get_attr attr w = (Ok a, w1) -> attr (self w) = Some a /\ w1 = w.
Proof.
  unfold get_attr. destruct (attr (self w)); intros Heq; inversion Heq; auto.
Qed.

Lemma assign_inv set w u w1 :
  assign set w = (Ok u, w1) -> w1 = with_self set w.
Proof. unfold assign. intros Heq; inversion Heq; auto. Qed.

Lemma invoke_inv {A} c (r : result A) w a w1 :
  invoke c r w = (Ok a, w1) ->
  r = Ok a /\ w1 = with_trace (fun t => t ++ [c]) w.
Proof. unfold invoke. intros Heq; inversion Heq; auto. Qed.

Lemma lift_inv {A} (r : result A) w a w1 :
  lift r w = (Ok a, w1) -> r = Ok a /\ w1 = w.
Proof. unfold lift. intros Heq; inversion Heq; auto. Qed.

Lemma with_attr_inv {A B} (attr : report -> option A) (f : option A -> result B)
  w b w1 :
  with_attr attr f w = (Ok b, w1) -> f (attr (self w)) = Ok b /\ w1 = w.
Proof. unfold with_attr. intros Heq; inversion Heq; auto. Qed.

Lemma ret_inv {A} (a b : A) w w1 :
  ret a w = (Ok b, w1) -> b = a /\ w1 = w.
Proof. unfold ret. intros Heq; inversion Heq; auto. Qed.

(** Splits the hypothesis [H : m w = (Ok _, _)] of a successful run along
    the binds of [m], down to its primitive steps. *)
Ltac invert_run H :=
  let a := fresh "a" in
  let w1 := fresh "w" in
  let H1 := fresh "Hrun" in
  let H2 := fresh "Hrun" in
  first
    [ apply bind_inv_ok in H; destruct H as (a & w1 & H1 & H2);
      invert_run H1; try invert_run H2
    | apply get_attr_inv in H; destruct H as (H1 & ->)
    | apply assign_inv in H; subst
    | apply invoke_inv in H; destruct H as (H1 & ->)
    | apply lift_inv in H; destruct H as (H1 & ->)
    | apply with_attr_inv in H; destruct H as (H1 & ->)
    | apply ret_inv in H; destruct H as (-> & ->) ].

Section LossEvaluation.

Context `{Collaborators}.
Variable cfg : settings.


Lemma set_losses_twice a b a' b' r :
  set_compressed_loss b' (set_masked_loss a'
    (set_compressed_loss b (set_masked_loss a r)))
  = set_compressed_loss b' (set_masked_loss a' r).
Proof. reflexivity. Qed.

Lemma loss_step_spec m w w1 mpt a b :
  model_per_token (self w) = Some mpt ->
  masked_loss (self w) = Some (Nums a) ->
  compressed_loss (self w) = Some (Nums b) ->
  loss_evaluation_step cfg m w = (Ok tt, w1) ->
  exists x y,
    validate_prompt (masked_args cfg mpt m) = Ok x
    /\ validate_prompt (compressed_args cfg mpt m) = Ok y
    /\ w1 = {| self := set_compressed_loss (Nums (b ++ [y]))
                         (set_masked_loss (Nums (a ++ [x])) (self w));
               files := files w;
               trace := trace w ++ prescribed_calls cfg mpt m |}.
Proof.
  intros Hmpt Hma Hco Hrun.
  unfold loss_evaluation_step, append_loss in Hrun.
  apply bind_inv_ok in Hrun as (mpt' & w' & Hget & Hrun).
  apply get_attr_inv in Hget as [Hget ->].
  rewrite Hmpt in Hget. injection Hget as <-.
  apply bind_inv_ok in Hrun as (x & w' & Hcall & Hrun).
  apply invoke_inv in Hcall as [Hx ->].
  apply bind_inv_ok in Hrun as (u & w' & Happ & Hrun).
  apply bind_inv_ok in Happ as (l & w'' & Hget & Happ).
  apply get_attr_inv in Hget as [Hget ->]. simpl in Hget.
  rewrite Hma in Hget. injection Hget as <-.
  apply assign_inv in Happ as ->.
  apply bind_inv_ok in Hrun as (y & w' & Hcall & Hrun).
  apply invoke_inv in Hcall as [Hy ->].
  apply bind_inv_ok in Hrun as (l & w'' & Hget & Happ).
  apply get_attr_inv in Hget as [Hget ->]. simpl in Hget.
  rewrite Hco in Hget. injection Hget as <-.
  apply assign_inv in Happ as ->.
  exists x, y. repeat split; [exact Hx | exact Hy |].
  unfold with_self, with_trace, prescribed_calls; simpl.
  now rewrite <- app_assoc.
Qed.

Lemma loss_loop_spec ms : forall w w' mpt a b,
  model_per_token (self w) = Some mpt ->
  masked_loss (self w) = Some (Nums a) ->
  compressed_loss (self w) = Some (Nums b) ->
  for_each ms (loss_evaluation_step cfg) w = (Ok tt, w') ->
  exists xs ys,
    Forall2 (fun m x => validate_prompt (masked_args cfg mpt m) = Ok x) ms xs
    /\ Forall2 (fun m y => validate_prompt (compressed_args cfg mpt m) = Ok y) ms ys
    /\ self w' = set_compressed_loss (Nums (b ++ ys))
                   (set_masked_loss (Nums (a ++ xs)) (self w))
    /\ files w' = files w
    /\ trace w' = trace w ++ flat_map (prescribed_calls cfg mpt) ms.
Proof.
  induction ms as [|m ms IH]; intros w w' mpt a b Hmpt Hma Hco Hrun.
  - simpl in Hrun. apply ret_inv in Hrun as [_ ->].
    exists [], []. rewrite !app_nil_r. repeat split; try constructor.
    destruct w as [r fs tr]; simpl in *. destruct r; simpl in *.
    unfold set_compressed_loss, set_masked_loss; simpl. congruence.
  - simpl in Hrun. change (bind ?m ?f) with (m ≫= f) in Hrun.
    apply bind_inv_ok in Hrun as ([] & w1 & Hstep & Hrest).
    destruct (loss_step_spec _ _ _ _ _ _ Hmpt Hma Hco Hstep)
      as (x & y & Hx & Hy & ->).
    apply (IH _ _ mpt (a ++ [x]) (b ++ [y])) in Hrest;
      [| exact Hmpt | reflexivity | reflexivity].
    destruct Hrest as (xs & ys & Hxs & Hys & Hself & Hfiles & Htrace).
    exists (x :: xs), (y :: ys). simpl in *.
    repeat split; auto.
    + rewrite Hself, set_losses_twice, <- !app_assoc. reflexivity.
    + rewrite Htrace, <- app_assoc. reflexivity.
Qed.

Lemma tokens_to_keep_spec (mpt : list label) (m : label) (j : nat) :
  j ∈ tokens_to_keep mpt m <-> mpt !! j = Some m.
Proof.
  unfold tokens_to_keep. rewrite list_elem_of_fmap. split.
  - intros ([j' x] & -> & Hin). apply list_elem_of_filter in Hin as [Heq Hin].
    apply list_elem_of_lookup in Hin as [i Hi].
    apply lookup_zip_with_Some in Hi as (j'' & x' & Hpair & Hseq & Hx).
    injection Hpair as -> ->. apply lookup_seq in Hseq as [-> _].
    simpl in *. apply bool_decide_eq_true in Heq. now subst.
  - intros Hj. exists (j, m). split; [reflexivity |].
    apply list_elem_of_filter. split.
    + simpl. now apply bool_decide_eq_true.
    + apply list_elem_of_lookup. exists j.
      apply lookup_zip_with_Some. exists j, m. repeat split; [| exact Hj].
      apply lookup_seq. split; [reflexivity |].
      now apply lookup_lt_Some in Hj.
Qed.

(** A successful [loss_evaluation]: what the collaborators returned, the
    attributes it assigned and the calls it made. *)
Lemma loss_evaluation_ok w w' :
  loss_evaluation cfg w = (Ok tt, w') ->
  exists mpt mlpt iml xs ys,
    prompt_token_drop_out (soft_prompt_name cfg) (model_numbers cfg)
      (config cfg) (accelerator cfg) (prompt_length cfg)
      (embedding_size cfg) (batch_size cfg) (use_test_set cfg)
    = Ok (mpt, mlpt)
    /\ validate_soft_prompt_on_multiple_models (model_numbers cfg)
         (config cfg) (accelerator cfg) (prompt_length cfg)
         (batch_size cfg) (use_test_set cfg) (soft_prompt_name cfg)
       = Ok iml
    /\ Forall2 (fun m x => validate_prompt (masked_args cfg mpt m) = Ok x)
         (model_numbers cfg) xs
    /\ Forall2 (fun m y => validate_prompt (compressed_args cfg mpt m) = Ok y)
         (model_numbers cfg) ys
    /\ self w' = set_compressed_loss (Nums ys) (set_masked_loss (Nums xs)
                   (set_individual_model_loss (Nums iml)
                      (set_model_loss_per_token (Nums mlpt)
                         (set_model_per_token mpt (self w)))))
    /\ files w' = files w
    /\ trace w' = trace w
                  ++ [Call_prompt_token_drop_out;
                      Call_validate_soft_prompt_on_multiple_models]
                  ++ flat_map (prescribed_calls cfg mpt) (model_numbers cfg).
Proof.
  intros Hrun. unfold loss_evaluation in Hrun.
  apply bind_inv_ok in Hrun as ([mpt mlpt] & w1 & Hcall & Hrun).
  apply invoke_inv in Hcall as [Hdrop ->].
  apply bind_inv_ok in Hrun as (u & w1 & Hset & Hrun).
  apply assign_inv in Hset as ->.
  apply bind_inv_ok in Hrun as (u' & w1 & Hset & Hrun).
  apply assign_inv in Hset as ->.
  apply bind_inv_ok in Hrun as (iml & w1 & Hcall & Hrun).
  apply invoke_inv in Hcall as [Hmulti ->].
  apply bind_inv_ok in Hrun as (u1 & w1 & Hset & Hrun).
  apply assign_inv in Hset as ->.
  apply bind_inv_ok in Hrun as (u2 & w1 & Hset & Hrun).
  apply assign_inv in Hset as ->.
  apply bind_inv_ok in Hrun as (u3 & w1 & Hset & Hrun).
  apply assign_inv in Hset as ->.
  apply (loss_loop_spec _ _ _ mpt [] []) in Hrun;
    [| reflexivity | reflexivity | reflexivity].
  destruct Hrun as (xs & ys & Hxs & Hys & Hself & Hfiles & Htrace).
  exists mpt, mlpt, iml, xs, ys. simpl in *.
  repeat split; auto.
  rewrite Htrace, <- !app_assoc. reflexivity.
Qed.

(** C8. In a completed [loss_evaluation], the calls to [validate_prompt]
    are, for the models in the order of [model_numbers], the masked call
    followed by the compressed call. Both carry the same kept-token
    list, the positions that [model_per_token] assigns to the model; the
    masked call has inverse true and shorten false, the compressed call
    differs from it in shorten true only; and the masked and compressed
    losses stored are the results of these calls. *)
Theorem masked_and_compressed_share_kept_tokens w w' :
  loss_evaluation cfg w = (Ok tt, w') ->
  exists mpt xs ys,
    model_per_token (self w') = Some mpt
    /\ trace w' = trace w
                  ++ [Call_prompt_token_drop_out;
                      Call_validate_soft_prompt_on_multiple_models]
                  ++ flat_map (fun m =>
                                 [Call_validate_prompt (masked_args cfg mpt m);
                                  Call_validate_prompt (compressed_args cfg mpt m)])
                       (model_numbers cfg)
    /\ masked_loss (self w') = Some (Nums xs)
    /\ compressed_loss (self w') = Some (Nums ys)
    /\ Forall2 (fun m x => validate_prompt (masked_args cfg mpt m) = Ok x)
         (model_numbers cfg) xs
    /\ Forall2 (fun m y => validate_prompt (compressed_args cfg mpt m) = Ok y)
         (model_numbers cfg) ys
    /\ forall m,
         ShortenArgs.model_number (masked_args cfg mpt m) = m
         /\ ShortenArgs.inverse (masked_args cfg mpt m) = true
         /\ ShortenArgs.shorten (masked_args cfg mpt m) = false
         /\ compressed_args cfg mpt m = ShortenArgs.set_shorten true (masked_args cfg mpt m)
         /\ ShortenArgs.inverse (compressed_args cfg mpt m) = true
         /\ ShortenArgs.shorten (compressed_args cfg mpt m) = true
         /\ ShortenArgs.dropped_out_tokens (compressed_args cfg mpt m)
            = ShortenArgs.dropped_out_tokens (masked_args cfg mpt m)
         /\ forall j, j ∈ ShortenArgs.dropped_out_tokens (masked_args cfg mpt m)
                      <-> mpt !! j = Some m.
Proof.
  intros Hrun.
  destruct (loss_evaluation_ok _ _ Hrun)
    as (mpt & mlpt & iml & xs & ys & _ & _ & Hxs & Hys & Hself & _ & Htrace).
  exists mpt, xs, ys. rewrite Hself. simpl.
  repeat split; auto.
  - apply tokens_to_keep_spec.
  - apply tokens_to_keep_spec.
Qed.

End LossEvaluation.

Lemma masked_and_compressed_witness :
  let w' := (loss_evaluation (H := Demo.env) Demo.cfg Demo.fresh).2 in
  loss_evaluation (H := Demo.env) Demo.cfg Demo.fresh = (Ok tt, w')
  /\ exists mpt xs ys,
       model_per_token (self w') = Some mpt
       /\ masked_loss (self w') = Some (Nums xs)
       /\ compressed_loss (self w') = Some (Nums ys).
Proof.
  intros w'.
  assert (Hrun : loss_evaluation (H := Demo.env) Demo.cfg Demo.fresh = (Ok tt, w'))
    by (vm_compute; reflexivity).
  split; [exact Hrun |].
  destruct (masked_and_compressed_share_kept_tokens (H := Demo.env)
              Demo.cfg Demo.fresh w' Hrun)
    as (mpt & xs & ys & Hm & _ & Hx & Hy & _).
  exists mpt, xs, ys. exact (conj Hm (conj Hx Hy)).
Defined.

(** ** The demonstration text format reads back *)

Lemma append_cons c (s t : string) : String c s +:+ t = String c (s +:+ t).
Proof. reflexivity. Qed.

Lemma append_empty (s : string) : s +:+ "" = s.
Proof.
  induction s as [|c s IH]; [reflexivity | now rewrite append_cons, IH].
Qed.

Lemma read_bits_bits p rest :
  Demo.read_bits (Demo.bits p +:+ rest) = Some (p, rest).
Proof.
  induction p as [p IH|p IH|]; simpl; rewrite ?append_cons; simpl;
    [now rewrite IH | now rewrite IH | reflexivity].
Qed.

Lemma read_int_text z : Demo.read_int (Demo.int_text z) = Some z.
Proof.
  destruct z as [|p|p]; simpl; [reflexivity | |];
    rewrite <- (append_empty (Demo.bits p)), read_bits_bits; reflexivity.
Qed.

Lemma demo_float_roundtrip x : Demo.read_float (Demo.float_text x) = Some x.
Proof.
  destruct x as [[]|[]| |[] m e]; try reflexivity;
    unfold Demo.float_text, Demo.read_float; simpl;
    rewrite read_bits_bits, read_int_text; reflexivity.
Qed.

(** ** Saving and loading a report *)

Section ResultStore.

Context `{Collaborators}.
Variable cfg : settings.

Lemma save_results_computed r w path :
  self w = attributes_of r ->
  save_results cfg path w
  = (Ok tt, {| self := self w;
               files := <[path := report_rows cfg r]> (files w);
               trace := trace w |}).
Proof.
  intros Hself. destruct w as [s fs tr]. simpl in Hself. subst s.
  unfold save_results, write_scalar, write_losses, mbind, M_bind, bind,
    open_w, writerow, get_attr, lift, with_files.
  cbn -[insert alter].
  rewrite !alter_insert_eq.
  reflexivity.
Qed.

Hypothesis float_roundtrip : forall x, float_parse (float_str x) = Some x.

Lemma to_float_str x : to_float (float_str x) = Ok x.
Proof. unfold to_float. now rewrite float_roundtrip. Qed.

Lemma to_floats_strs xs : result_map to_float (map float_str xs) = Ok xs.
Proof.
  induction xs as [|x xs IH]; simpl; [reflexivity |].
  rewrite to_float_str. simpl. rewrite IH. reflexivity.
Qed.

Lemma to_floats_loss_cells xs m :
  result_map to_float (map float_str xs ++ [float_str m]) = Ok (xs ++ [m]).
Proof.
  change [float_str m] with (map float_str [m]).
  rewrite <- map_app. apply to_floats_strs.
Qed.

Lemma read_saved_report r w path :
  files w !! path = Some (report_rows cfg r) ->
  read_from_csv path w
  = (Ok tt, {| self := loaded_attributes r;
               files := files w;
               trace := trace w |}).
Proof.
  intros Hfile. destruct w as [s fs tr]. simpl in Hfile.
  unfold read_from_csv, read_rows, read_losses, read_scalar, mbind, M_bind,
    bind, lift, assign, with_self.
  cbn -[lookup to_float result_map]. rewrite Hfile.
  cbn -[to_float result_map]. rewrite !drop_0.
  repeat (first [ rewrite to_floats_strs
                | rewrite to_floats_loss_cells
                | rewrite to_float_str ];
          cbn -[to_float result_map]).
  reflexivity.
Qed.

End ResultStore.

(** ** Successful runs of the pipeline *)

Section Pipeline.

Context `{Collaborators}.
Variable cfg : settings.


(** A successful [nn_evaluation]: the votes, the statistics computed from
    them and the ablation labels, the attributes assigned and the calls
    made. *)
Lemma nn_evaluation_ok w w' :
  nn_evaluation cfg w = (Ok tt, w') ->
  exists spaces labels weight nn_euc nn_cos euc cos a1 a2 a3 a4 a5,
    get_model_embedding_spaces (model_names cfg) = Ok (spaces, labels)
    /\ load_soft_prompt_weight (soft_prompt_name cfg) = Ok weight
    /\ get_k_nearest_neighbors_for_all_tokens Euclidean weight spaces (k cfg)
       = Ok nn_euc
    /\ get_k_nearest_neighbors_for_all_tokens Cosine weight spaces (k cfg)
       = Ok nn_cos
    /\ votes_of (k cfg) labels nn_euc = Ok euc
    /\ votes_of (k cfg) labels nn_cos = Ok cos
    /\ accuracy euc (model_per_token (self w)) = Ok a1
    /\ accuracy cos (model_per_token (self w)) = Ok a2
    /\ weighted_accuracy float_sum euc (model_per_token (self w)) = Ok a3
    /\ weighted_accuracy float_sum cos (model_per_token (self w)) = Ok a4
    /\ agreement euc cos = Ok a5
    /\ self w' = set_euc_to_cos_accuracy a5 (set_cos_waccuracy a4
                   (set_euc_waccuracy a3 (set_cos_accuracy a2
                      (set_euc_accuracy a1 (set_cos_nn_votes (Votes cos)
                         (set_euc_nn_votes (Votes euc) (self w)))))))
    /\ files w' = files w
    /\ trace w' = trace w ++ nn_calls.
Proof.
  intros Hrun. unfold nn_evaluation, nearest_neighbor_vote in Hrun.
  apply bind_inv_ok in Hrun as ([spaces labels] & w1 & Hcall & Hrun).
  apply invoke_inv in Hcall as [Hspaces ->].
  apply bind_inv_ok in Hrun as (weight & w1 & Hcall & Hrun).
  apply invoke_inv in Hcall as [Hweight ->].
  apply bind_inv_ok in Hrun as (euc & w1 & Hvote & Hrun).
  apply bind_inv_ok in Hvote as (nn_euc & w2 & Hcall & Hvote).
  apply invoke_inv in Hcall as [Hnn_euc ->].
  apply lift_inv in Hvote as [Heuc ->].
  apply bind_inv_ok in Hrun as (u & w1 & Hset & Hrun).
  apply assign_inv in Hset as ->.
  apply bind_inv_ok in Hrun as (cos & w1 & Hvote & Hrun).
  apply bind_inv_ok in Hvote as (nn_cos & w2 & Hcall & Hvote).
  apply invoke_inv in Hcall as [Hnn_cos ->].
  apply lift_inv in Hvote as [Hcos ->].
  apply bind_inv_ok in Hrun as (u' & w1 & Hset & Hrun).
  apply assign_inv in Hset as ->.
  apply bind_inv_ok in Hrun as (a1 & w1 & Hacc & Hrun).
  apply with_attr_inv in Hacc as [Ha1 ->].
  apply bind_inv_ok in Hrun as (u1 & w1 & Hset & Hrun).
  apply assign_inv in Hset as ->.
  apply bind_inv_ok in Hrun as (a2 & w1 & Hacc & Hrun).
  apply with_attr_inv in Hacc as [Ha2 ->].
  apply bind_inv_ok in Hrun as (u2 & w1 & Hset & Hrun).
  apply assign_inv in Hset as ->.
  apply bind_inv_ok in Hrun as (a3 & w1 & Hacc & Hrun).
  apply with_attr_inv in Hacc as [Ha3 ->].
  apply bind_inv_ok in Hrun as (u3 & w1 & Hset & Hrun).
  apply assign_inv in Hset as ->.
  apply bind_inv_ok in Hrun as (a4 & w1 & Hacc & Hrun).
  apply with_attr_inv in Hacc as [Ha4 ->].
  apply bind_inv_ok in Hrun as (u4 & w1 & Hset & Hrun).
  apply assign_inv in Hset as ->.
  apply bind_inv_ok in Hrun as (a5 & w1 & Hacc & Hrun).
  apply lift_inv in Hacc as [Ha5 ->].
  apply assign_inv in Hrun as ->.
  exists spaces, labels, weight, nn_euc, nn_cos, euc, cos, a1, a2, a3, a4, a5.
  simpl in *. repeat split; auto.
  unfold nn_calls. rewrite <- !app_assoc. reflexivity.
Qed.

(** A successful pipeline leaves a complete report in the attributes. *)
Lemma pipeline_report w w1 w2 :
  loss_evaluation cfg w = (Ok tt, w1) ->
  nn_evaluation cfg w1 = (Ok tt, w2) ->
  exists r,
    self w2 = attributes_of r
    /\ Forall2 (fun m x => validate_prompt
                             (masked_args cfg (r_model_per_token r) m) = Ok x)
         (model_numbers cfg) (r_masked_loss r)
    /\ Forall2 (fun m y => validate_prompt
                             (compressed_args cfg (r_model_per_token r) m) = Ok y)
         (model_numbers cfg) (r_compressed_loss r)
    /\ validate_soft_prompt_on_multiple_models (model_numbers cfg)
         (config cfg) (accelerator cfg) (prompt_length cfg)
         (batch_size cfg) (use_test_set cfg) (soft_prompt_name cfg)
       = Ok (r_individual_model_loss r)
    /\ files w2 = files w
    /\ trace w2 = trace w
                  ++ [Call_prompt_token_drop_out;
                      Call_validate_soft_prompt_on_multiple_models]
                  ++ flat_map (prescribed_calls cfg (r_model_per_token r))
                       (model_numbers cfg)
                  ++ nn_calls.
Proof.
  intros Hloss Hnn.
  destruct (loss_evaluation_ok _ _ _ Hloss)
    as (mpt & mlpt & iml & xs & ys & _ & Hmulti & Hxs & Hys & Hself1 & Hfiles1 & Htrace1).
  destruct (nn_evaluation_ok _ _ Hnn)
    as (_ & _ & _ & _ & _ & euc & cos & a1 & a2 & a3 & a4 & a5
        & _ & _ & _ & _ & _ & _ & _ & _ & _ & _ & _ & Hself2 & Hfiles2 & Htrace2).
  exists {| r_model_per_token := mpt;
            r_model_loss_per_token := mlpt;
            r_individual_model_loss := iml;
            r_masked_loss := xs;
            r_compressed_loss := ys;
            r_euc_nn_votes := euc;
            r_cos_nn_votes := cos;
            r_euc_accuracy := a1;
            r_cos_accuracy := a2;
            r_euc_waccuracy := a3;
            r_cos_waccuracy := a4;
            r_euc_to_cos_accuracy := a5 |}.
  simpl. repeat split.
  - rewrite Hself2, Hself1. reflexivity.
  - exact Hxs.
  - exact Hys.
  - exact Hmulti.
  - congruence.
  - rewrite Htrace2, Htrace1, <- !app_assoc. reflexivity.
Qed.

End Pipeline.

(** ** The cache: first and second invocation *)

Section Cache.

Context `{Collaborators}.
Variable cfg : settings.

(** A first invocation that misses the cache and completes: the
    attributes hold a report and its rows are in the file. *)
Lemma first_invocation w0 w1 :
  files w0 !! save_path cfg = None ->
  token_relevance_evaluation cfg w0 = (Ok tt, w1) ->
  exists r,
    self w1 = attributes_of r
    /\ files w1 = <[save_path cfg := report_rows cfg r]> (files w0)
    /\ Forall2 (fun m x => validate_prompt
                             (masked_args cfg (r_model_per_token r) m) = Ok x)
         (model_numbers cfg) (r_masked_loss r)
    /\ Forall2 (fun m y => validate_prompt
                             (compressed_args cfg (r_model_per_token r) m) = Ok y)
         (model_numbers cfg) (r_compressed_loss r)
    /\ validate_soft_prompt_on_multiple_models (model_numbers cfg)
         (config cfg) (accelerator cfg) (prompt_length cfg)
         (batch_size cfg) (use_test_set cfg) (soft_prompt_name cfg)
       = Ok (r_individual_model_loss r)
    /\ trace w1 = trace w0
                  ++ [Call_prompt_token_drop_out;
                      Call_validate_soft_prompt_on_multiple_models]
                  ++ flat_map (prescribed_calls cfg (r_model_per_token r))
                       (model_numbers cfg)
                  ++ nn_calls.
Proof.
  intros Hmiss Hrun.
  rewrite (token_relevance_evaluation_miss _ _ Hmiss) in Hrun.
  apply bind_inv_ok in Hrun as ([] & wa & Hloss & Hrun).
  apply bind_inv_ok in Hrun as ([] & wb & Hnn & Hsave).
  destruct (pipeline_report _ _ _ _ Hloss Hnn)
    as (r & Hself & Hxs & Hys & Hmulti & Hfiles & Htrace).
  rewrite (save_results_computed _ r _ _ Hself) in Hsave.
  injection Hsave as <-. exists r. simpl.
  rewrite Hfiles. repeat split; auto.
Qed.

Hypothesis float_roundtrip : forall x, float_parse (float_str x) = Some x.

(** An invocation that finds the rows of a report in the cache file only
    reads them. *)
Lemma cached_invocation r w :
  files w !! save_path cfg = Some (report_rows cfg r) ->
  token_relevance_evaluation cfg w
  = (Ok tt, {| self := loaded_attributes r;
               files := files w;
               trace := trace w |})
  /\ token_relevance_evaluation cfg w = read_from_csv (save_path cfg) w.
Proof.
  intros Hfile. unfold token_relevance_evaluation, try_except.
  rewrite (read_saved_report cfg float_roundtrip r w _ Hfile). split; reflexivity.
Qed.

(** C2. After an invocation that missed the cache and completed, the
    collaborators have been called once (the drop-out assignment, the
    per-model validation, for every model its masked and compressed
    evaluation, and the four embedding calls); a second invocation with
    the same settings returns what [read_from_csv] returns, completes,
    adds no call to the trace and leaves the file store as it is. *)
Theorem second_invocation_is_a_cache_read w0 w1 :
  files w0 !! save_path cfg = None ->
  token_relevance_evaluation cfg w0 = (Ok tt, w1) ->
  exists mpt w2,
    trace w1 = trace w0
               ++ [Call_prompt_token_drop_out;
                   Call_validate_soft_prompt_on_multiple_models]
               ++ flat_map (prescribed_calls cfg mpt) (model_numbers cfg)
               ++ nn_calls
    /\ is_Some (files w1 !! save_path cfg)
    /\ token_relevance_evaluation cfg w1 = read_from_csv (save_path cfg) w1
    /\ token_relevance_evaluation cfg w1 = (Ok tt, w2)
    /\ trace w2 = trace w1
    /\ files w2 = files w1.
Proof.
  intros Hmiss Hrun.
  destruct (first_invocation _ _ Hmiss Hrun)
    as (r & Hself & Hfiles & _ & _ & _ & Htrace).
  assert (Hfile : files w1 !! save_path cfg = Some (report_rows cfg r))
    by (rewrite Hfiles; apply lookup_insert_eq).
  destruct (cached_invocation r w1 Hfile) as [Hsecond Hread].
  exists (r_model_per_token r), {| self := loaded_attributes r;
                                   files := files w1;
                                   trace := trace w1 |}.
  repeat split; auto.
Qed.

(** C10. After an invocation that missed the cache and completed, the
    next invocation loads every loss list with one element more than it
    had when it was saved: the saved list followed by its mean. For the
    masked and the compressed losses that is one more than the number of
    models; for the individual losses too, when
    [validate_soft_prompt_on_multiple_models] returns one loss per
    model. *)
Theorem loaded_losses_end_with_the_mean w0 w1 :
  files w0 !! save_path cfg = None ->
  token_relevance_evaluation cfg w0 = (Ok tt, w1) ->
  exists masked compressed individual w2,
    masked_loss (self w1) = Some (Nums masked)
    /\ compressed_loss (self w1) = Some (Nums compressed)
    /\ individual_model_loss (self w1) = Some (Nums individual)
    /\ validate_soft_prompt_on_multiple_models (model_numbers cfg)
         (config cfg) (accelerator cfg) (prompt_length cfg)
         (batch_size cfg) (use_test_set cfg) (soft_prompt_name cfg)
       = Ok individual
    /\ token_relevance_evaluation cfg w1 = (Ok tt, w2)
    /\ masked_loss (self w2) = Some (Nums (masked ++ [np_mean masked]))
    /\ compressed_loss (self w2)
       = Some (Nums (compressed ++ [np_mean compressed]))
    /\ individual_model_loss (self w2)
       = Some (Nums (individual ++ [np_mean individual]))
    /\ length (masked ++ [np_mean masked]) = S (length (model_numbers cfg))
    /\ length (compressed ++ [np_mean compressed])
       = S (length (model_numbers cfg))
    /\ length (individual ++ [np_mean individual]) = S (length individual)
    /\ (length individual = length (model_numbers cfg) ->
        length (individual ++ [np_mean individual])
        = S (length (model_numbers cfg))).
Proof.
  intros Hmiss Hrun.
  destruct (first_invocation _ _ Hmiss Hrun)
    as (r & Hself & Hfiles & Hxs & Hys & Hmulti & _).
  assert (Hfile : files w1 !! save_path cfg = Some (report_rows cfg r))
    by (rewrite Hfiles; apply lookup_insert_eq).
  destruct (cached_invocation r w1 Hfile) as [Hsecond _].
  exists (r_masked_loss r), (r_compressed_loss r), (r_individual_model_loss r),
    {| self := loaded_attributes r; files := files w1; trace := trace w1 |}.
  rewrite Hself. simpl.
  apply Forall2_length in Hxs, Hys.
  rewrite !length_app. simpl.
  repeat split; auto; lia.
Qed.

End Cache.

Example demo_pipeline_computes_report :
  (loss_evaluation (H := Demo.env) Demo.cfg;; nn_evaluation (H := Demo.env) Demo.cfg)
    Demo.fresh
  = (Ok tt, {| self := attributes_of Demo.report;
               files := ∅;
               trace := trace (token_relevance_evaluation (H := Demo.env)
                                 Demo.cfg Demo.fresh).2 |}).
Proof. vm_compute. reflexivity. Qed.

Lemma second_invocation_witness :
  let w1 := (token_relevance_evaluation (H := Demo.env) Demo.cfg Demo.fresh).2 in
  files Demo.fresh !! save_path Demo.cfg = None
  /\ token_relevance_evaluation (H := Demo.env) Demo.cfg Demo.fresh = (Ok tt, w1)
  /\ exists w2,
       token_relevance_evaluation (H := Demo.env) Demo.cfg w1 = (Ok tt, w2)
       /\ trace w2 = trace w1.
Proof.
  intros w1.
  assert (Hmiss : files Demo.fresh !! save_path Demo.cfg = None) by reflexivity.
  assert (Hrun : token_relevance_evaluation (H := Demo.env) Demo.cfg Demo.fresh
                 = (Ok tt, w1)) by (vm_compute; reflexivity).
  destruct (second_invocation_is_a_cache_read (H := Demo.env) Demo.cfg
              demo_float_roundtrip Demo.fresh w1 Hmiss Hrun)
    as (mpt & w2 & _ & _ & _ & Hsecond & Htrace & _).
  exact (conj Hmiss (conj Hrun (ex_intro _ w2 (conj Hsecond Htrace)))).
Defined.

Lemma loaded_losses_witness :
  let w1 := (token_relevance_evaluation (H := Demo.env) Demo.cfg Demo.fresh).2 in
  files Demo.fresh !! save_path Demo.cfg = None
  /\ token_relevance_evaluation (H := Demo.env) Demo.cfg Demo.fresh = (Ok tt, w1)
  /\ exists masked w2,
       masked_loss (self w1) = Some (Nums masked)
       /\ token_relevance_evaluation (H := Demo.env) Demo.cfg w1 = (Ok tt, w2)
       /\ masked_loss (self w2) = Some (Nums (masked ++ [Demo.mean masked])).
Proof.
  intros w1.
  assert (Hmiss : files Demo.fresh !! save_path Demo.cfg = None) by reflexivity.
  assert (Hrun : token_relevance_evaluation (H := Demo.env) Demo.cfg Demo.fresh
                 = (Ok tt, w1)) by (vm_compute; reflexivity).
  destruct (loaded_losses_end_with_the_mean (H := Demo.env) Demo.cfg
              demo_float_roundtrip Demo.fresh w1 Hmiss Hrun)
    as (masked & compressed & individual & w2 & Hm & _ & _ & _ & Hsecond & Hm2 & _).
  exact (conj Hmiss (conj Hrun
           (ex_intro _ masked (ex_intro _ w2 (conj Hm (conj Hsecond Hm2)))))).
Defined.

(** ** The layout of the saved file and the round trip *)

Section RoundTrip.

Context `{Collaborators}.
Variable cfg : settings.

(** C5 (amended). [save_results] writes exactly eighteen rows: the token
    indices, the three assignment rows, the importance scores, the two
    certainty rows, a blank row, the five scalar rows, a blank row, a
    row of the model names ending in "average", and the three loss rows
    (masked, compressed, individual), each holding the values of its
    attribute in order followed by their mean. *)
Theorem save_results_rows r fs tr path :
  save_results cfg path
    {| self := attributes_of r; files := fs; trace := tr |}
  = (Ok tt,
     {| self := attributes_of r;
        files :=
          <[path :=
            [ "token id" :: range_cells (prompt_length cfg);
              "Loss assignment" :: map str_of_label (r_model_per_token r);
              "Euclidean assignment"
                :: map (fun v => str_of_label v.1) (r_euc_nn_votes r);
              "Cosine assignment"
                :: map (fun v => str_of_label v.1) (r_cos_nn_votes r);
              "Loss" :: map float_str (r_model_loss_per_token r);
              "Euclidean certanty"
                :: map (fun v => float_str v.2) (r_euc_nn_votes r);
              "Cosine certanty"
                :: map (fun v => float_str v.2) (r_cos_nn_votes r);
              [""];
              ["Euclidean accuracy"; float_str (r_euc_accuracy r)];
              ["Cosine accuracy"; float_str (r_cos_accuracy r)];
              ["Euclidean weighted accuracy"; float_str (r_euc_waccuracy r)];
              ["Cosine weighted accuracy"; float_str (r_cos_waccuracy r)];
              ["Euclidean to cosine accuracy";
               float_str (r_euc_to_cos_accuracy r)];
              [""];
              "Prompt compression" :: model_names cfg ++ ["average"];
              "Normal prompt length"
                :: map float_str (r_masked_loss r)
                   ++ [float_str (np_mean (r_masked_loss r))];
              "Shortened prompt length"
                :: map float_str (r_compressed_loss r)
                   ++ [float_str (np_mean (r_compressed_loss r))];
              "One model loss"
                :: map float_str (r_individual_model_loss r)
                   ++ [float_str (np_mean (r_individual_model_loss r))] ]]> fs;
        trace := tr |}).
Proof.
  rewrite (save_results_computed cfg r
             {| self := attributes_of r; files := fs; trace := tr |}
             path eq_refl).
  reflexivity.
Qed.

End RoundTrip.

(** C1. The code at the failing input: [save_results] on the evaluator
    of the demonstration run, then [read_from_csv] of the same file on an
    evaluator with no attribute set. Both complete, and the importance
    scores and the five statistics are read back as they were saved. But
    [model_per_token] comes back as the texts of the labels, each vote
    attribute comes back as the bare label texts where the computed
    evaluator holds (label, certainty) pairs (the certainty rows are never
    read), and each loss list comes back one element longer, the mean
    cell of its row being read as a loss: the loaded report is not the
    saved one. *)
Theorem loaded_report_is_not_the_saved_report :
  let saved := save_results (H := Demo.env) Demo.cfg "report.csv" Demo.computed in
  let loaded :=
    read_from_csv (H := Demo.env) "report.csv" (with_self (fun _ => unset) saved.2) in
  saved.1 = Ok tt
  /\ loaded.1 = Ok tt
  /\ model_per_token (self Demo.computed)
     = Some [LInt 1; LInt 1; LInt 2; LInt 2]
  /\ model_per_token (self loaded.2)
     = Some [LStr "1"; LStr "1"; LStr "2"; LStr "2"]
  /\ euc_nn_votes (self Demo.computed)
     = Some (Votes [(LInt 1, F64.one); (LInt 2, F64.one);
                    (LInt 2, F64.one); (LInt 2, F64.one)])
  /\ euc_nn_votes (self loaded.2) = Some (VoteCells ["1"; "2"; "2"; "2"])
  /\ cos_nn_votes (self Demo.computed)
     = Some (Votes [(LInt 1, Demo.two_thirds); (LInt 1, F64.one);
                    (LInt 2, F64.one); (LInt 2, Demo.two_thirds)])
  /\ cos_nn_votes (self loaded.2) = Some (VoteCells ["1"; "1"; "2"; "2"])
  /\ masked_loss (self Demo.computed) = Some (Nums [Demo.half; Demo.half])
  /\ masked_loss (self loaded.2) = Some (Nums [Demo.half; Demo.half; Demo.half])
  /\ compressed_loss (self Demo.computed) = Some (Nums [Demo.half; Demo.half])
  /\ compressed_loss (self loaded.2)
     = Some (Nums [Demo.half; Demo.half; Demo.half])
  /\ individual_model_loss (self Demo.computed)
     = Some (Nums [Demo.half; Demo.half])
  /\ individual_model_loss (self loaded.2)
     = Some (Nums [Demo.half; Demo.half; Demo.half])
  /\ model_loss_per_token (self loaded.2)
     = model_loss_per_token (self Demo.computed)
  /\ euc_accuracy (self loaded.2) = euc_accuracy (self Demo.computed)
  /\ cos_accuracy (self loaded.2) = cos_accuracy (self Demo.computed)
  /\ euc_waccuracy (self loaded.2) = euc_waccuracy (self Demo.computed)
  /\ cos_waccuracy (self loaded.2) = cos_waccuracy (self Demo.computed)
  /\ euc_to_cos_accuracy (self loaded.2)
     = euc_to_cos_accuracy (self Demo.computed)
  /\ ~ same_report (self Demo.computed) (self loaded.2).
Proof.
  intros saved loaded.
  assert (Hsaved : saved
    = (Ok tt, {| self := attributes_of Demo.report;
                 files := {[ "report.csv" :=
                             report_rows (H := Demo.env) Demo.cfg Demo.report ]};
                 trace := [] |})).
  { unfold saved.
    rewrite (save_results_computed (H := Demo.env) Demo.cfg Demo.report
               Demo.computed "report.csv" eq_refl).
    reflexivity. }
  assert (Hloaded : loaded
    = (Ok tt, {| self := loaded_attributes (H := Demo.env) Demo.report;
                 files := {[ "report.csv" :=
                             report_rows (H := Demo.env) Demo.cfg Demo.report ]};
                 trace := [] |})).
  { unfold loaded. rewrite Hsaved.
    apply (read_saved_report (H := Demo.env) Demo.cfg demo_float_roundtrip
             Demo.report).
    apply lookup_insert_eq. }
  rewrite Hsaved, Hloaded.
  assert (Hlabels :
    model_per_token (loaded_attributes (H := Demo.env) Demo.report)
    <> model_per_token (self Demo.computed)) by discriminate.
  repeat (split; [vm_compute; reflexivity |]).
  intros (Hsame & _). exact (Hlabels Hsame).
Qed.

(** C5, as stated, fails: the file is not the specified sequence of rows;
    between the second blank row and the loss rows stands a row of model
    names. *)
Lemma saved_file_has_a_names_row :
  let w1 := (save_results (H := Demo.env) Demo.cfg "report.csv" Demo.computed).2 in
  exists rows,
    files w1 !! "report.csv" = Some rows
    /\ rows <> specified_rows (H := Demo.env) Demo.cfg Demo.report
    /\ length rows = 18%nat
    /\ length (specified_rows (H := Demo.env) Demo.cfg Demo.report) = 17%nat
    /\ rows !! 13%nat = Some [""]
    /\ rows !! 14%nat = Some ["Prompt compression"; "model-1"; "model-2"; "average"].
Proof.
  intros w1. eexists. split; [vm_compute; reflexivity |].
  repeat split; try reflexivity.
  intros Heq. apply (f_equal length) in Heq. vm_compute in Heq. discriminate.
Qed.

(** ** Loading an arbitrary file *)

Section Loading.

Context `{Collaborators}.
Variable cfg : settings.


Lemma decided_bind (m rest : M unit) (b c : bool) :
  decided m b -> decided rest c -> decided (m;; rest) (b && c).
Proof.
  intros Hm Hrest w. specialize (Hm w). destruct b; simpl.
  - destruct Hm as (w1 & Hm). rewrite (bind_ok _ _ _ _ _ Hm). apply Hrest.
  - destruct Hm as (e & w1 & Hm & He). exists e, w1.
    split; [now apply bind_raise | exact He].
Qed.

Lemma decided_row rows i (set : list string -> report -> report)
  (rest : M unit) c :
  decided rest c ->
  decided (row ← lift (index rows i); assign (set (drop 1 row));; rest)
    (present rows i && c).
Proof.
  intros Hrest w.
  unfold present, index, mbind, M_bind, bind, lift, assign.
  destruct (rows !! i) as [row|]; simpl.
  - apply Hrest.
  - exists IndexError, w. split; [reflexivity | now left].
Qed.

Lemma to_floats_decided cells :
  if forallb parses cells then exists xs, result_map to_float cells = Ok xs
  else result_map to_float cells = Raise ValueError.
Proof.
  induction cells as [|c cells IH]; [now exists [] |].
  change (forallb parses (c :: cells)) with (parses c && forallb parses cells).
  change (result_map to_float (c :: cells))
    with (rbind (to_float c)
            (fun y => rbind (result_map to_float cells)
                        (fun ys => Ok (y :: ys)))).
  assert (Hc : to_float c = match float_parse c with
                            | Some x => Ok x
                            | None => Raise ValueError
                            end) by reflexivity.
  rewrite Hc. unfold parses at 1.
  destruct (float_parse c) as [x|]; simpl; [| reflexivity].
  destruct (forallb parses cells).
  - destruct IH as (xs & ->). now exists (x :: xs).
  - now rewrite IH.
Qed.

Lemma read_losses_decided rows i set :
  decided (read_losses rows i set) (numbers_row rows i).
Proof.
  intros w.
  unfold numbers_row, read_losses, index, mbind, M_bind, bind, lift, assign.
  destruct (rows !! i) as [row|]; simpl.
  - pose proof (to_floats_decided (drop 1 row)) as Hcells.
    destruct (forallb parses (drop 1 row)).
    + destruct Hcells as (xs & ->). eexists. reflexivity.
    + rewrite Hcells. eexists ValueError, _. split; [reflexivity | now right].
  - exists IndexError, w. split; [reflexivity | now left].
Qed.

Lemma read_scalar_decided rows i set :
  decided (read_scalar rows i set) (scalar_row rows i).
Proof.
  intros w.
  unfold scalar_row, read_scalar, index, mbind, M_bind, bind, lift, assign.
  destruct (rows !! i) as [row|]; simpl.
  - destruct (row !! 1%nat) as [cell|]; simpl.
    + unfold parses, to_float. destruct (float_parse cell) as [x|]; simpl.
      * eexists. reflexivity.
      * exists ValueError, w. split; [reflexivity | now right].
    + exists IndexError, w. split; [reflexivity | now left].
  - exists IndexError, w. split; [reflexivity | now left].
Qed.

Lemma read_rows_decided path rows w :
  files w !! path = Some rows ->
  if loadable rows then exists w', read_from_csv path w = (Ok tt, w')
  else exists e w', read_from_csv path w = (Raise e, w') /\ loud e.
Proof.
  intros Hfile. unfold read_from_csv.
  rewrite (bind_ok _ _ w rows w) by (unfold read_rows; now rewrite Hfile).
  revert w Hfile. intros w _. revert w.
  change (decided
    (row ← lift (index rows 1);
     assign (set_model_per_token (map LStr (drop 1 row)));;
     row ← lift (index rows 2);
     assign (set_euc_nn_votes (VoteCells (drop 1 row)));;
     row ← lift (index rows 3);
     assign (set_cos_nn_votes (VoteCells (drop 1 row)));;
     read_losses rows 4 set_model_loss_per_token;;
     read_scalar rows 8 set_euc_accuracy;;
     read_scalar rows 9 set_cos_accuracy;;
     read_scalar rows 10 set_euc_waccuracy;;
     read_scalar rows 11 set_cos_waccuracy;;
     read_scalar rows 12 set_euc_to_cos_accuracy;;
     read_losses rows 15 set_masked_loss;;
     read_losses rows 16 set_compressed_loss;;
     read_losses rows 17 set_individual_model_loss)
    (loadable rows)).
  unfold loadable.
  apply (decided_row rows 1 (fun cells => set_model_per_token (map LStr cells))).
  apply (decided_row rows 2 (fun cells => set_euc_nn_votes (VoteCells cells))).
  apply (decided_row rows 3 (fun cells => set_cos_nn_votes (VoteCells cells))).
  repeat (apply decided_bind;
          [first [apply read_losses_decided | apply read_scalar_decided] |]).
  apply read_losses_decided.
Qed.

(** C4 (amended). Loading an existing file completes exactly when the
    rows 1 to 4, 8 to 12 and 15 to 17 exist, the rows 8 to 12 have a
    second cell, and every cell passed to [float] parses; otherwise it
    raises [IndexError] or [ValueError], which
    [token_relevance_evaluation] does not catch. Row names, the order of
    rows of the same shape, the certainty rows and rows beyond the
    eighteenth are not checked. The file store and the call trace are
    left as they were in both cases. *)
Theorem unreadable_file_fails_loudly rows w :
  files w !! save_path cfg = Some rows ->
  exists res w',
    read_from_csv (save_path cfg) w = (res, w')
    /\ token_relevance_evaluation cfg w = (res, w')
    /\ files w' = files w
    /\ trace w' = trace w
    /\ if loadable rows then res = Ok tt
       else exists e, res = Raise e /\ (e = IndexError \/ e = ValueError).
Proof.
  intros Hfile.
  pose proof (read_rows_decided _ _ _ Hfile) as Hread.
  pose proof (read_from_csv_keeps_files (save_path cfg) w) as Hfiles.
  pose proof (read_from_csv_keeps_trace (save_path cfg) w) as Htrace.
  unfold token_relevance_evaluation, try_except.
  destruct (loadable rows).
  - destruct Hread as (w' & Hread). rewrite Hread in *.
    exists (Ok tt), w'. repeat split; auto.
  - destruct Hread as (e & w' & Hread & He). rewrite Hread in *.
    exists (Raise e), w'.
    destruct (decide (e = FileNotFoundError)) as [->|_].
    + destruct He; discriminate.
    + repeat split; auto. exists e. split; [reflexivity | exact He].
Qed.

End Loading.

Lemma unreadable_file_witness :
  let rows := [["token id"; "0"]; ["Loss assignment"; "1"]; ["Euclidean assignment"; "1"]] in
  let w := {| self := unset;
              files := {[ save_path Demo.cfg := rows ]};
              trace := [] |} in
  files w !! save_path Demo.cfg = Some rows
  /\ exists e w',
       token_relevance_evaluation (H := Demo.env) Demo.cfg w = (Raise e, w')
       /\ (e = IndexError \/ e = ValueError)
       /\ files w' = files w.
Proof.
  intros rows w.
  assert (Hfile : files w !! save_path Demo.cfg = Some rows) by reflexivity.
  split; [exact Hfile |].
  destruct (unreadable_file_fails_loudly (H := Demo.env) Demo.cfg rows w Hfile)
    as (res & w' & _ & Hrun & Hfiles & _ & Hres).
  change (loadable (H := Demo.env) rows) with false in Hres.
  destruct Hres as (e & -> & He).
  exact (ex_intro _ e (ex_intro _ w' (conj Hrun (conj He Hfiles)))).
Defined.

(** C4, as stated, fails: a file whose rows 8 and 9 are exchanged is the
    file of no report, and loading it completes, with the cosine accuracy
    in [euc_accuracy]. *)
Lemma reordered_file_loads_silently :
  let rows := swap_8_9 (report_rows (H := Demo.env) Demo.cfg Demo.report) in
  let w := {| self := unset;
              files := {[ save_path Demo.cfg := rows ]};
              trace := [] |} in
  ~ conforms (H := Demo.env) rows
  /\ exists w',
       read_from_csv (H := Demo.env) (save_path Demo.cfg) w = (Ok tt, w')
       /\ token_relevance_evaluation (H := Demo.env) Demo.cfg w = (Ok tt, w')
       /\ euc_accuracy (self w') = Some (r_cos_accuracy Demo.report)
       /\ r_cos_accuracy Demo.report <> r_euc_accuracy Demo.report.
Proof.
  intros rows w. split.
  - intros (cfg & r & Heq).
    apply (f_equal (fun l => head (l !!! 8%nat))) in Heq.
    vm_compute in Heq. discriminate Heq.
  - eexists. split; [vm_compute; reflexivity |].
    split; [vm_compute; reflexivity |].
    split; [vm_compute; reflexivity | vm_compute; discriminate].
Qed.

(** ** The agreement statistics *)

Section Statistics.

Variable float_sum : list float -> float.

Lemma result_map_length {A B} (f : A -> result B) xs ys :
  result_map f xs = Ok ys -> length ys = length xs.
Proof.
  revert ys. induction xs as [|x xs IH]; intros ys Hmap.
  - injection Hmap as <-. reflexivity.
  - change (result_map f (x :: xs))
      with (rbind (f x) (fun y => rbind (result_map f xs)
                                    (fun ys => Ok (y :: ys)))) in Hmap.
    destruct (f x) as [y|]; [| discriminate].
    simpl in Hmap. destruct (result_map f xs) as [ys'|]; [| discriminate].
    injection Hmap as <-. simpl. now rewrite (IH ys').
Qed.

(** A loop over [range(len(ys))] whose body succeeds at every index
    yields the list of its values. *)
Lemma result_map_seq {B} (f : nat -> result B) (ys : list B) (j : nat) :
  (forall i y, ys !! i = Some y -> f (j + i)%nat = Ok y) ->
  result_map f (seq j (length ys)) = Ok ys.
Proof.
  revert j. induction ys as [|y ys IH]; intros j Hf; [reflexivity |].
  change (result_map f (seq j (length (y :: ys))))
    with (rbind (f j) (fun y => rbind (result_map f (seq (S j) (length ys)))
                                  (fun ys => Ok (y :: ys)))).
  rewrite <- (Nat.add_0_r j) at 1. rewrite (Hf 0%nat y eq_refl). simpl.
  rewrite IH; [reflexivity |].
  intros i y' Hi. replace (S j + i)%nat with (j + S i)%nat by lia.
  now apply Hf.
Qed.

Lemma certainties_loop (nn_votes : list (label * float)) :
  result_map (fun i => v ← index nn_votes i; Ok v.2)
    (seq 0 (length nn_votes))
  = Ok (map snd nn_votes).
Proof.
  rewrite <- (length_map snd nn_votes) at 1.
  apply result_map_seq. intros i c Hi. simpl.
  apply list_lookup_fmap_Some in Hi as (v & -> & Hv).
  unfold index. now rewrite Hv.
Qed.

Lemma weighted_terms_loop (nn_votes : list (label * float)) (ablation : list label) :
  (length nn_votes <= length ablation)%nat ->
  result_map
    (fun i => b ← vote_matches nn_votes (Some ablation) i;
              v ← index nn_votes i;
              Ok (F64.mul (F64.of_bool b) v.2))
    (seq 0 (length nn_votes))
  = Ok (zip_with (fun v x => F64.mul (F64.of_bool (label_eqb v.1 x)) v.2)
          nn_votes ablation).
Proof.
  intros Hlen.
  set (terms := zip_with _ nn_votes ablation).
  assert (Hl : length terms = length nn_votes)
    by (unfold terms; rewrite length_zip_with; lia).
  rewrite <- Hl. apply result_map_seq. intros i t Hi. simpl.
  apply lookup_zip_with_Some in Hi as (v & x & -> & Hv & Hx).
  unfold vote_matches, token_label, index. now rewrite Hv, Hx.
Qed.

(** C7. With one ablation label for every vote, at least one token and
    a certainty sum that is not zero, the weighted accuracy that
    [nn_evaluation] computes for a metric is the quotient of the sum over
    the tokens of indicator(vote label equals ablation label) times
    certainty by the sum over the tokens of certainty. *)
Theorem weighted_accuracy_is_the_weighted_share
  (ablation : list label) (nn_votes : list (label * float)) :
  nn_votes <> [] ->
  (length nn_votes <= length ablation)%nat ->
  F64.is_zero (float_sum (map snd nn_votes)) = false ->
  weighted_accuracy float_sum nn_votes (Some ablation)
  = Ok (weighted_accuracy_spec float_sum ablation nn_votes).
Proof.
  intros Hne Hlen Hsum. unfold weighted_accuracy.
  rewrite (weighted_terms_loop _ _ Hlen), certainties_loop.
  destruct nn_votes as [|v vs]; [congruence |].
  destruct ablation as [|x xs]; [simpl in Hlen; lia |].
  unfold weighted_accuracy_spec.
  change (float_truediv
            (float_sum (zip_with
               (fun v x => F64.mul (F64.of_bool (label_eqb v.1 x)) v.2)
               (v :: vs) (x :: xs)))
            (float_sum (map snd (v :: vs)))
          = Ok (F64.div
                  (float_sum (zip_with
                     (fun v x => F64.mul (F64.of_bool (label_eqb v.1 x)) v.2)
                     (v :: vs) (x :: xs)))
                  (float_sum (map snd (v :: vs))))).
  unfold float_truediv. now rewrite Hsum.
Qed.

(** C3 (amended). When the certainty sum is zero, or there is no token,
    the weighted accuracy is never computed: the expression raises, and
    with one ablation label for every vote the exception is
    [ZeroDivisionError]. The code has no guard and no marker for an
    undefined result. *)
Theorem zero_certainty_sum_raises
  (mpt : option (list label)) (nn_votes : list (label * float)) :
  nn_votes = [] \/ F64.is_zero (float_sum (map snd nn_votes)) = true ->
  (forall x, weighted_accuracy float_sum nn_votes mpt <> Ok x)
  /\ (forall ablation,
        mpt = Some ablation ->
        (length nn_votes <= length ablation)%nat ->
        weighted_accuracy float_sum nn_votes mpt = Raise ZeroDivisionError).
Proof.
  intros Hzero.
  assert (Hdiv : forall num,
            length num = length nn_votes ->
            py_truediv (py_sum float_sum num)
              (py_sum float_sum (map snd nn_votes))
            = Raise ZeroDivisionError).
  { intros num Hnum. destruct nn_votes as [|v vs].
    - destruct num; [reflexivity | discriminate].
    - destruct Hzero as [|Hzero]; [discriminate |].
      destruct num as [|t ts]; [discriminate |].
      change (float_truediv (float_sum (t :: ts))
                (float_sum (map snd (v :: vs))) = Raise ZeroDivisionError).
      unfold float_truediv. now rewrite Hzero. }
  split.
  - intros x Hx. unfold weighted_accuracy in Hx.
    apply rbind_inv_ok in Hx as (num & Hnum & Hx).
    apply rbind_inv_ok in Hx as (den & Hden & Hx).
    rewrite certainties_loop in Hden. injection Hden as <-.
    apply result_map_length in Hnum. rewrite length_seq in Hnum.
    rewrite (Hdiv num Hnum) in Hx. discriminate.
  - intros ablation -> Hlen. unfold weighted_accuracy.
    rewrite (weighted_terms_loop _ _ Hlen), certainties_loop.
    apply Hdiv. rewrite length_zip_with. lia.
Qed.

End Statistics.

Lemma weighted_accuracy_witness :
  let votes := r_cos_nn_votes Demo.report in
  let ablation := r_model_per_token Demo.report in
  votes <> []
  /\ (length votes <= length ablation)%nat
  /\ F64.is_zero (float_sum_left (map snd votes)) = false
  /\ weighted_accuracy float_sum_left votes (Some ablation)
     = Ok (weighted_accuracy_spec float_sum_left ablation votes).
Proof.
  intros votes ablation.
  assert (Hne : votes <> []) by discriminate.
  assert (Hlen : (length votes <= length ablation)%nat) by (simpl; lia).
  assert (Hsum : F64.is_zero (float_sum_left (map snd votes)) = false)
    by reflexivity.
  exact (conj Hne (conj Hlen (conj Hsum
           (weighted_accuracy_is_the_weighted_share float_sum_left
              ablation votes Hne Hlen Hsum)))).
Defined.

Lemma zero_certainty_witness :
  let votes := [(Demo.A, F64.zero); (Demo.A, F64.zero);
                (Demo.B, F64.zero); (Demo.B, F64.zero)] in
  F64.is_zero (float_sum_left (map snd votes)) = true
  /\ forall x,
       weighted_accuracy float_sum_left votes (Some [Demo.A; Demo.A; Demo.B; Demo.B])
       <> Ok x.
Proof.
  intros votes.
  assert (Hzero : F64.is_zero (float_sum_left (map snd votes)) = true)
    by reflexivity.
  exact (conj Hzero
           (proj1 (zero_certainty_sum_raises float_sum_left
                     (Some [Demo.A; Demo.A; Demo.B; Demo.B]) votes
                     (or_intror Hzero)))).
Defined.

(** C3, as stated, fails: with the certainties [0, 0, 0, 0] the weighted
    accuracy is not an undefined-marked result; the division raises
    [ZeroDivisionError]. *)
Lemma zero_certainties_raise_zero_division :
  weighted_accuracy float_sum_left
    [(Demo.A, F64.zero); (Demo.A, F64.zero); (Demo.B, F64.zero); (Demo.B, F64.zero)]
    (Some [Demo.A; Demo.A; Demo.B; Demo.B])
  = Raise ZeroDivisionError.
Proof. vm_compute. reflexivity. Qed.

(** ** The division of two integers is monotone *)

Lemma int_truediv_ok a b c :
  int_truediv a b = Ok c -> c = F64.div (F64.exact a) (F64.exact b).
Proof.
  unfold int_truediv. destruct (b =? 0); [discriminate |].
  destruct (F64.is_infinite _); [discriminate |]. now intros [= <-].
Qed.

(** [digits2_pos p] is the number of binary digits of [p]. *)
Lemma digits_bounds p :
  2 ^ Zpos (digits2_pos p) <= 2 * Zpos p /\ Zpos p < 2 ^ Zpos (digits2_pos p).
Proof.
  induction p as [p IH|p IH|]; simpl digits2_pos;
    rewrite ?Pos2Z.inj_succ, ?Z.pow_succ_r by lia; [lia | lia | simpl; lia].
Qed.

Lemma Zdigits2_le m D : 0 <= m < 2 ^ D -> 0 <= D -> Zdigits2 m <= D.
Proof.
  intros [Hm Hlt] HD. destruct m as [|p|p]; simpl; [lia | | lia].
  destruct (digits_bounds p) as [Hlow _].
  destruct (Z.le_gt_cases (Zpos (digits2_pos p)) D) as [|Hgt]; [assumption |].
  assert (2 ^ (D + 1) <= 2 ^ Zpos (digits2_pos p))
    by (apply Z.pow_le_mono_r; lia).
  assert (2 ^ (D + 1) = 2 * 2 ^ D) by (rewrite Z.pow_add_r by lia; lia).
  lia.
Qed.

Lemma Zdigits2_ge m D : 2 ^ (D - 1) <= m -> 1 <= D -> D <= Zdigits2 m.
Proof.
  intros Hm HD. assert (0 < 2 ^ (D - 1)) by (apply Z.pow_pos_nonneg; lia).
  destruct m as [|p|p]; simpl; [lia | | lia].
  destruct (digits_bounds p) as [_ Hup].
  destruct (Z.le_gt_cases D (Zpos (digits2_pos p))) as [|Hgt]; [assumption |].
  assert (2 ^ Zpos (digits2_pos p) <= 2 ^ (D - 1))
    by (apply Z.pow_le_mono_r; lia).
  lia.
Qed.

(** A mantissa of at most 53 digits is not shifted; one of 54 digits is
    shifted once. *)
Lemma shr_fexp_small m e l :
  -1074 <= e -> Zdigits2 m <= 53 ->
  shr_fexp 53 1024 m e l = (shr_record_of_loc m l, e).
Proof.
  intros He Hd. unfold shr_fexp, shr, fexp, emin.
  destruct (Z.max (Zdigits2 m + e - 53) (3 - 1024 - 53) - e) eqn:Hz;
    try reflexivity. lia.
Qed.

Lemma shr_fexp_big m e l :
  -1074 <= e -> Zdigits2 m = 54 ->
  shr_fexp 53 1024 m e l = (shr_1 (shr_record_of_loc m l), e + 1).
Proof.
  intros He Hd. unfold shr_fexp, shr, fexp, emin.
  replace (Z.max (Zdigits2 m + e - 53) (3 - 1024 - 53) - e) with 1 by lia.
  reflexivity.
Qed.

Lemma record_of_loc m l :
  shr_m (shr_record_of_loc m l) = m
  /\ loc_of_shr_record (shr_record_of_loc m l) = l.
Proof. destruct l as [|[]]; split; reflexivity. Qed.

Lemma shr_1_of_loc q l :
  0 < q ->
  shr_m (shr_1 (shr_record_of_loc q l)) = q / 2
  /\ loc_of_shr_record (shr_1 (shr_record_of_loc q l)) = loc_half q l.
Proof.
  intros Hq. rewrite <- Z.div2_div.
  destruct q as [|[p|p|]|]; try lia; destruct l as [|[]]; split; reflexivity.
Qed.

Lemma round_nearest_even_bounds m l :
  m <= round_nearest_even m l <= m + 1.
Proof. destruct l as [|[]]; simpl; try lia. destruct (Z.even m); lia. Qed.

(** The second half of [binary_round_aux]: the carry of the rounding. *)
Lemma second_stage m e :
  0 <= m <= 2 ^ 53 -> -1074 <= e <= 970 ->
  (let '(mrs, e') := shr_fexp 53 1024 m e loc_Exact in
   match shr_m mrs with
   | Z0 => S754_zero false
   | Zpos p => if e' <=? 1024 - 53 then S754_finite false p e' else S754_infinity false
   | Zneg _ => S754_nan
   end) = norm m e.
Proof.
  intros Hm He. unfold norm.
  destruct (Z.eqb_spec m (2 ^ 53)) as [->|Hne].
  - rewrite shr_fexp_big by (try reflexivity; lia). simpl shr_m.
    replace (e + 1 <=? 1024 - 53) with true by (symmetry; apply Z.leb_le; lia).
    reflexivity.
  - rewrite shr_fexp_small by (try apply Zdigits2_le; lia). simpl shr_m.
    destruct m as [|p|p]; [reflexivity | | lia].
    replace (e <=? 1024 - 53) with true by (symmetry; apply Z.leb_le; lia).
    reflexivity.
Qed.

Lemma binary_round_aux_small q e l :
  0 <= q -> Zdigits2 q <= 53 -> -1074 <= e <= 970 ->
  binary_round_aux 53 1024 false q e l = norm (round_nearest_even q l) e.
Proof.
  intros Hq Hd He. unfold binary_round_aux.
  rewrite shr_fexp_small by lia.
  destruct (record_of_loc q l) as [-> ->].
  apply second_stage; [| lia].
  pose proof (round_nearest_even_bounds q l).
  assert (q < 2 ^ 53); [| lia].
  destruct q as [|p|p]; [reflexivity | | lia].
  destruct (digits_bounds p) as [_ Hup]. simpl in Hd.
  assert (2 ^ Zpos (digits2_pos p) <= 2 ^ 53) by (apply Z.pow_le_mono_r; lia).
  lia.
Qed.

Lemma binary_round_aux_big q e l :
  0 <= q -> Zdigits2 q = 54 -> -1074 <= e <= 969 ->
  binary_round_aux 53 1024 false q e l
  = norm (round_nearest_even (q / 2) (loc_half q l)) (e + 1).
Proof.
  intros Hq0 Hd He. unfold binary_round_aux.
  rewrite shr_fexp_big by lia.
  assert (Hq : 0 < q /\ q < 2 ^ 54).
  { destruct q as [|p|p]; [discriminate | | lia].
    destruct (digits_bounds p) as [_ Hup]. simpl in Hd.
    injection Hd as Hd. rewrite Hd in Hup. lia. }
  destruct (shr_1_of_loc q l) as [-> ->]; [lia |].
  apply second_stage; [| lia].
  pose proof (round_nearest_even_bounds (q / 2) (loc_half q l)).
  assert (0 <= q / 2 < 2 ^ 53); [| lia].
  split; [apply Z.div_pos; lia |].
  apply Z.div_lt_upper_bound; [lia |]. change (2 * 2 ^ 53) with (2 ^ 54). lia.
Qed.

(** The location that the division attaches to its remainder. *)
Lemma new_location_spec k r :
  0 < k -> 0 <= r < k -> new_location k r = loc_of_remainder k r.
Proof.
  intros Hk Hr. unfold new_location, new_location_even, new_location_odd,
    loc_of_remainder.
  destruct (Z.even k) eqn:Hev; [reflexivity |].
  destruct (r =? 0); [reflexivity |]. f_equal.
  assert (Hodd : Z.odd k = true) by (rewrite <- Z.negb_even, Hev; reflexivity).
  apply Z.odd_spec in Hodd as [a Ha].
  destruct (Z.compare_spec (2 * r + 1) k), (Z.compare_spec (2 * r) k);
    try reflexivity; lia.
Qed.

Lemma rne_of_remainder q r k :
  0 < k -> 0 <= r < k ->
  round_nearest_even q (loc_of_remainder k r) = rne (q * k + r) k.
Proof.
  intros Hk Hr. unfold rne, loc_of_remainder.
  rewrite Z.div_add_l, Z.div_small, Z.add_0_r by lia.
  rewrite Z.add_comm, Z.mod_add, Z.mod_small by lia.
  destruct (Z.eqb_spec r 0) as [->|Hne]; cbn [round_nearest_even].
  - destruct (Z.compare_spec (2 * 0) k); first [lia | reflexivity].
  - destruct (2 * r ?= k); reflexivity.
Qed.

Lemma rne_of_half q r k :
  0 < k -> 0 <= r < k -> 0 <= q -> Z.even (q * k + r) = true ->
  round_nearest_even (q / 2) (loc_half q (loc_of_remainder k r))
  = rne ((q * k + r) / 2) k.
Proof.
  intros Hk Hr Hq Hev. apply Z.even_spec in Hev as [N Heven].
  replace ((q * k + r) / 2) with N
    by (rewrite Heven, Z.mul_comm, Z.div_mul; lia).
  unfold loc_half, loc_of_remainder, rne.
  destruct (Z.odd q) eqn:Hodd.
  - apply Z.odd_spec in Hodd as [a ->].
    replace ((2 * a + 1) / 2) with a
      by (apply (Z.div_unique _ _ _ 1); lia).
    assert (Hc : exists c, k + r = 2 * c) by (exists (N - a * k); lia).
    destruct Hc as [c Hc].
    replace (N / k) with a by (apply (Z.div_unique _ _ _ c); lia).
    replace (N mod k) with c by (apply (Z.mod_unique _ _ a); lia).
    destruct (Z.eqb_spec r 0) as [->|Hne]; cbn [round_nearest_even].
    + destruct (Z.compare_spec (2 * c) k); first [lia | reflexivity].
    + destruct (Z.compare_spec (2 * c) k); try lia;
        destruct (2 * r ?= k); first [lia | reflexivity].
  - assert (Hev : Z.even q = true) by (rewrite <- Z.negb_odd, Hodd; reflexivity).
    apply Z.even_spec in Hev as [a ->].
    replace (2 * a / 2) with a by (rewrite Z.mul_comm, Z.div_mul; lia).
    assert (Hc : exists c, r = 2 * c) by (exists (N - a * k); lia).
    destruct Hc as [c Hc].
    replace (N / k) with a by (apply (Z.div_unique _ _ _ c); lia).
    replace (N mod k) with c by (apply (Z.mod_unique _ _ a); lia).
    destruct (Z.eqb_spec r 0) as [->|Hne]; cbn [round_nearest_even].
    + destruct (Z.compare_spec (2 * c) k); first [lia | reflexivity].
    + destruct (Z.compare_spec (2 * c) k); try lia;
        destruct (2 * r ?= k); first [lia | reflexivity].
Qed.

Lemma div_eucl_div_mod a b :
  Z.div_eucl a b = (a / b, a mod b).
Proof. unfold Z.div, Z.modulo. now destruct (Z.div_eucl a b). Qed.

Lemma pow2_pos a : 0 <= a -> 0 < 2 ^ a.
Proof. intros. apply Z.pow_pos_nonneg; lia. Qed.

(** What [SFdiv] computes on two positive integers [n <= k]. *)
Lemma div_spec (n k : positive) :
  (Zpos n <= Zpos k) ->
  exists e m,
    rounded (Zpos n) (Zpos k) e m
    /\ F64.div (F64.exact (Zpos n)) (F64.exact (Zpos k)) = norm m e.
Proof.
  intros Hnk.
  destruct (digits_bounds n) as [Hn1 Hn2].
  destruct (digits_bounds k) as [Hk1 Hk2].
  set (d1 := Zpos (digits2_pos n)) in *.
  set (d2 := Zpos (digits2_pos k)) in *.
  assert (Hd1 : 1 <= d1) by (unfold d1; lia).
  assert (Hd2 : 1 <= d2) by (unfold d2; lia).
  assert (Hd : d1 <= d2).
  { destruct (Z.le_gt_cases d1 d2) as [|Hgt]; [assumption |].
    assert (2 ^ (d2 + 1) <= 2 ^ d1) by (apply Z.pow_le_mono_r; lia).
    rewrite Z.pow_add_r in H by lia. lia. }
  set (e' := Z.max (d1 - d2 - 53) (-1074)).
  set (s := - e').
  assert (Hs : 53 <= s <= 1074) by (unfold s, e'; lia).
  assert (Hs' : s <= 53 + d2 - d1) by (unfold s, e'; lia).
  set (N := Zpos n * 2 ^ s).
  assert (H2s : 0 < 2 ^ s) by (apply pow2_pos; lia).
  assert (HN : 0 < N) by (unfold N; lia).
  (* the bounds on the scaled numerator *)
  assert (F1 : N < Zpos k * 2 ^ 54).
  { assert (N < 2 ^ d1 * 2 ^ s) by (unfold N; apply Z.mul_lt_mono_pos_r; lia).
    assert (2 ^ (d1 + s) <= 2 ^ (53 + d2)) by (apply Z.pow_le_mono_r; lia).
    rewrite !Z.pow_add_r in H0 by lia. lia. }
  assert (F2 : e' <> -1074 -> 2 ^ 52 * Zpos k <= N).
  { intros Hne. assert (Hse : s = 53 + d2 - d1) by (unfold s, e' in *; lia).
    assert (2 ^ d1 * 2 ^ s <= 2 * N)
      by (unfold N; rewrite Z.mul_assoc; apply Z.mul_le_mono_nonneg_r; lia).
    assert (2 ^ (d1 + s) = 2 ^ (53 + d2)) by (f_equal; lia).
    rewrite !Z.pow_add_r in H0 by lia. lia. }
  (* the computation of SFdiv *)
  assert (Hcore : SFdiv_core_binary 53 1024 (Zpos n) 0 (Zpos k) 0
                  = (N / Zpos k, e', new_location (Zpos k) (N mod Zpos k))).
  { unfold SFdiv_core_binary. cbn [Zdigits2]. fold d1 d2.
    replace (Z.min (fexp 53 1024 (d1 + 0 - (d2 + 0))) (0 - 0)) with e'
      by (unfold fexp, emin, e'; lia).
    replace (0 - 0 - e') with s by (unfold s; lia).
    destruct s as [|ps|ps] eqn:Hsz; try lia.
    rewrite Z.shiftl_mul_pow2 by lia. fold N.
    now rewrite div_eucl_div_mod. }
  assert (Hdiv : F64.div (F64.exact (Zpos n)) (F64.exact (Zpos k))
                 = binary_round_aux 53 1024 false (N / Zpos k) e'
                     (new_location (Zpos k) (N mod Zpos k))).
  { unfold F64.div, F64.exact, SFdiv, F64.prec, F64.emax.
    rewrite Hcore. reflexivity. }
  set (q := N / Zpos k) in *. set (r := N mod Zpos k) in *.
  assert (Hr : 0 <= r < Zpos k) by (apply Z.mod_pos_bound; lia).
  assert (Hq : 0 <= q) by (apply Z.div_pos; lia).
  assert (Hq54 : q < 2 ^ 54) by (apply Z.div_lt_upper_bound; lia).
  assert (HNqr : N = q * Zpos k + r)
    by (unfold q, r; rewrite Z.mul_comm; apply Z.div_mod; lia).
  rewrite new_location_spec in Hdiv by lia.
  assert (He' : -1074 <= e' <= -53) by (unfold e'; lia).
  destruct (Z.le_gt_cases (2 ^ 53) q) as [Hbig|Hsmall].
  - (* the quotient has 54 digits: one more shift *)
    assert (Hd54 : Zdigits2 q = 54).
    { apply Z.le_antisymm; [apply Zdigits2_le; lia | apply Zdigits2_ge; lia]. }
    rewrite binary_round_aux_big in Hdiv by lia.
    assert (HevenN : Z.even N = true).
    { unfold N. replace s with (1 + (s - 1)) by lia.
      rewrite Z.pow_add_r by lia. change (2 ^ 1) with 2.
      rewrite Z.mul_assoc, (Z.mul_comm (Zpos n) 2), <- Z.mul_assoc.
      apply Z.even_spec. now eexists. }
    rewrite rne_of_half in Hdiv by (try lia; now rewrite <- HNqr).
    rewrite <- HNqr in Hdiv.
    assert (Hhalf : N / 2 = Zpos n * 2 ^ (- (e' + 1))).
    { unfold N. replace (- (e' + 1)) with (s - 1) by (unfold s; lia).
      replace s with (1 + (s - 1)) at 1 by lia.
      rewrite Z.pow_add_r by lia. change (2 ^ 1) with 2.
      rewrite Z.mul_assoc, (Z.mul_comm (Zpos n) 2), <- Z.mul_assoc.
      rewrite Z.mul_comm, Z.div_mul; lia. }
    exists (e' + 1), (rne (N / 2) (Zpos k)). split; [| exact Hdiv].
    assert (Hq2 : N / 2 / Zpos k = q / 2).
    { rewrite Z.div_div, (Z.mul_comm 2), <- Z.div_div by lia. reflexivity. }
    unfold rounded. rewrite <- Hhalf, Hq2.
    repeat split; try lia.
    + apply Z.div_lt_upper_bound; lia.
    + right. apply Z.div_le_lower_bound; lia.
  - (* the quotient has at most 53 digits *)
    rewrite binary_round_aux_small in Hdiv
      by (try lia; apply Zdigits2_le; lia).
    rewrite rne_of_remainder, <- HNqr in Hdiv by lia.
    exists e', (rne N (Zpos k)). split; [| exact Hdiv].
    unfold rounded. replace (- e') with s by (unfold s; lia). fold N q.
    repeat split; try lia.
    destruct (Z.eq_dec e' (-1074)) as [|Hne]; [now left | right].
    apply Z.div_le_lower_bound; [lia |]. rewrite Z.mul_comm. now apply F2.
Qed.

Lemma rne_bounds N D : N / D <= rne N D <= N / D + 1.
Proof.
  unfold rne. destruct (2 * (N mod D) ?= D); try lia.
  destruct (Z.even (N / D)); lia.
Qed.

Lemma rne_mono N1 N2 D : 0 < D -> N1 <= N2 -> rne N1 D <= rne N2 D.
Proof.
  intros HD Hle.
  pose proof (Z.div_le_mono N1 N2 D HD Hle) as Hq.
  destruct (Z.eq_dec (N1 / D) (N2 / D)) as [Heq|Hne].
  - pose proof (Z.div_mod N1 D) as H1. pose proof (Z.div_mod N2 D) as H2.
    assert (Hr : N1 mod D <= N2 mod D) by (rewrite Heq in H1; lia).
    unfold rne. rewrite Heq.
    destruct (Z.compare_spec (2 * (N1 mod D)) D),
             (Z.compare_spec (2 * (N2 mod D)) D);
      try lia; destruct (Z.even (N2 / D)); lia.
  - pose proof (rne_bounds N1 D). pose proof (rne_bounds N2 D). lia.
Qed.

Lemma leb_norm m1 e1 m2 e2 :
  0 <= m1 <= 2 ^ 53 -> 0 <= m2 <= 2 ^ 53 ->
  (e1 = e2 /\ m1 <= m2) \/ (e1 < e2 /\ 2 ^ 52 <= m2) ->
  F64.leb (norm m1 e1) (norm m2 e2) = true.
Proof.
  intros H1 H2 Hcase. unfold F64.leb, SFleb, norm.
  assert (Hcmp : forall a b : positive,
            (Zpos a <= Zpos b) ->
            match Pos.compare_cont Eq a b with Gt => false | _ => true end = true).
  { intros a b Hab. change (Pos.compare_cont Eq a b) with (Pos.compare a b).
    destruct (Pos.compare_spec a b); try reflexivity. lia. }
  destruct (Z.eqb_spec m1 0) as [->|Hz1].
  - destruct (Z.eqb_spec m2 0); [reflexivity |].
    destruct (Z.eqb_spec m2 (2 ^ 53)); reflexivity.
  - destruct (Z.eqb_spec m2 0) as [->|Hz2]; [lia |].
    destruct (Z.eqb_spec m1 (2 ^ 53)) as [->|Hb1];
      destruct (Z.eqb_spec m2 (2 ^ 53)) as [->|Hb2]; cbn [SFcompare].
    + destruct (Z.compare_spec (e1 + 1) (e2 + 1)); try reflexivity; lia.
    + destruct (Z.compare_spec (e1 + 1) e2); try reflexivity; [| lia].
      specialize (Hcmp (Z.to_pos (2 ^ 52)) (Z.to_pos m2)).
      rewrite !Z2Pos.id in Hcmp by lia.
      destruct (Pos.compare_cont Eq (Z.to_pos (2 ^ 52)) (Z.to_pos m2));
        try reflexivity. apply Hcmp. lia.
    + destruct (Z.compare_spec e1 (e2 + 1)); try reflexivity; lia.
    + destruct (Z.compare_spec e1 e2); try reflexivity; [| lia].
      specialize (Hcmp (Z.to_pos m1) (Z.to_pos m2)).
      rewrite !Z2Pos.id in Hcmp by lia.
      destruct (Pos.compare_cont Eq (Z.to_pos m1) (Z.to_pos m2));
        try reflexivity. apply Hcmp. lia.
Qed.

Lemma rounded_mantissa n k e m :
  0 < n -> 0 < k -> rounded n k e m -> 0 <= m <= 2 ^ 53.
Proof.
  intros Hn Hk (He & -> & Hlt & _).
  pose proof (rne_bounds (n * 2 ^ (- e)) k).
  assert (0 <= n * 2 ^ (- e) / k); [| lia].
  apply Z.div_pos; [| lia]. pose proof (pow2_pos (- e)). nia.
Qed.

Lemma div_lt_inv a b q : 0 < b -> a / b < q -> a < b * q.
Proof.
  intros Hb Hlt. destruct (Z.lt_ge_cases a (b * q)) as [|Hge]; [assumption |].
  pose proof (Z.div_le_lower_bound a b q Hb Hge). lia.
Qed.

Lemma div_ge_inv a b q : 0 < b -> q <= a / b -> b * q <= a.
Proof.
  intros Hb Hle. destruct (Z.le_gt_cases (b * q) a) as [|Hlt]; [assumption |].
  pose proof (Z.div_lt_upper_bound a b q Hb Hlt). lia.
Qed.

(** Rounding is monotone in the numerator: the exponents are ordered, and
    at equal exponents the mantissas are. *)
Lemma rounded_mono n1 n2 k e1 m1 e2 m2 :
  0 < n1 <= n2 -> 0 < k ->
  rounded n1 k e1 m1 -> rounded n2 k e2 m2 ->
  F64.leb (norm m1 e1) (norm m2 e2) = true.
Proof.
  intros Hn Hk R1 R2.
  pose proof (rounded_mantissa n1 k e1 m1 ltac:(lia) Hk R1) as Hm1.
  pose proof (rounded_mantissa n2 k e2 m2 ltac:(lia) Hk R2) as Hm2.
  destruct R1 as (He1 & -> & Hlt1 & Hlow1).
  destruct R2 as (He2 & -> & Hlt2 & Hlow2).
  apply leb_norm; try assumption.
  destruct (Z.lt_trichotomy e1 e2) as [Hlt|[->|Hgt]].
  - right. split; [assumption |].
    destruct Hlow2 as [|Hlow2]; [lia |].
    pose proof (rne_bounds (n2 * 2 ^ (- e2)) k). lia.
  - left. split; [reflexivity |]. apply rne_mono; [assumption |].
    apply Z.mul_le_mono_nonneg_r; [| lia]. pose proof (pow2_pos (- e2)). lia.
  - exfalso. destruct Hlow1 as [|Hlow1]; [lia |].
    apply div_ge_inv in Hlow1; [| assumption].
    apply div_lt_inv in Hlt2; [| assumption].
    assert (Hpow : 2 * 2 ^ (- e1) <= 2 ^ (- e2)).
    { replace (- e2) with (1 + (- e1) + (e1 - e2 - 1)) by lia.
      rewrite !Z.pow_add_r by lia. change (2 ^ 1) with 2.
      pose proof (pow2_pos (e1 - e2 - 1)). pose proof (pow2_pos (- e1)). nia. }
    pose proof (pow2_pos (- e1)). pose proof (pow2_pos (- e2)). nia.
Qed.

Lemma div_mono (n1 n2 k : positive) :
  Zpos n1 <= Zpos n2 <= Zpos k ->
  F64.leb (F64.div (F64.exact (Zpos n1)) (F64.exact (Zpos k)))
          (F64.div (F64.exact (Zpos n2)) (F64.exact (Zpos k))) = true.
Proof.
  intros Hn.
  destruct (div_spec n1 k) as (e1 & m1 & R1 & ->); [lia |].
  destruct (div_spec n2 k) as (e2 & m2 & R2 & ->); [lia |].
  apply (rounded_mono (Zpos n1) (Zpos n2) (Zpos k)); auto; lia.
Qed.

Lemma div_self (k : positive) :
  F64.div (F64.exact (Zpos k)) (F64.exact (Zpos k)) = F64.one.
Proof.
  destruct (div_spec k k) as (e & m & (He & Hm & Hlt & Hlow) & ->); [lia |].
  assert (Hq : Zpos k * 2 ^ (- e) / Zpos k = 2 ^ (- e))
    by (rewrite Z.mul_comm, Z.div_mul; lia).
  rewrite Hq in *.
  assert (He52 : e = -52).
  { destruct Hlow as [->|Hlow]; [vm_compute in Hlt; discriminate |].
    destruct (Z.eq_dec e (-52)) as [|Hne]; [assumption |].
    assert (2 ^ 53 <= 2 ^ (- e)) by (apply Z.pow_le_mono_r; lia). lia. }
  subst e. unfold rne in Hm.
  rewrite Hq, (Z.mul_comm (Zpos k)), Z.mod_mul in Hm by lia.
  change (2 * 0 ?= Zpos k) with Lt in Hm. subst m. reflexivity.
Qed.

(** The certainty of a vote lies between the floats [1 / k] and [1.0]. *)
Lemma certainty_range count k c :
  1 <= count <= k ->
  int_truediv count k = Ok c ->
  exists low,
    int_truediv 1 k = Ok low
    /\ F64.leb low c = true
    /\ F64.leb c F64.one = true.
Proof.
  intros Hrange Hc. apply int_truediv_ok in Hc. subst c.
  destruct count as [|n|n]; try lia. destruct k as [|k|k]; try lia.
  exists (F64.div (F64.exact 1) (F64.exact (Zpos k))). repeat split.
  - unfold int_truediv. simpl (Zpos k =? 0).
    destruct (div_spec 1 k) as (e & m & _ & ->); [lia |].
    unfold norm. destruct (m =? 0); [reflexivity |].
    destruct (m =? 2 ^ 53); reflexivity.
  - apply (div_mono 1 n k). lia.
  - rewrite <- (div_self k). apply (div_mono n k k). lia.
Qed.

(** ** The nearest-neighbour vote *)


Lemma label_eqb_eq a b : label_eqb a b = true <-> a = b.
Proof. apply bool_decide_eq_true. Qed.

Lemma label_eqb_refl a : label_eqb a a = true.
Proof. now apply label_eqb_eq. Qed.

Lemma label_eqb_neq a b : a <> b -> label_eqb a b = false.
Proof. intros Hne. now apply bool_decide_eq_false. Qed.

Lemma occurrences_cons l x ls :
  occurrences l (x :: ls)
  = ((if label_eqb x l then 1 else 0) + occurrences l ls)%nat.
Proof.
  unfold occurrences. rewrite filter_cons.
  destruct (decide (x = l)) as [->|Hne].
  - now rewrite label_eqb_refl.
  - now rewrite (label_eqb_neq _ _ Hne).
Qed.

Lemma occurrences_snoc l ls x :
  occurrences l (ls ++ [x])
  = (occurrences l ls + (if label_eqb x l then 1 else 0))%nat.
Proof.
  induction ls as [|y ls IH].
  - rewrite app_nil_l, occurrences_cons. unfold occurrences. simpl. lia.
  - rewrite <- app_comm_cons, !occurrences_cons, IH. lia.
Qed.

Lemma occurrences_le_length l ls : (occurrences l ls <= length ls)%nat.
Proof. apply length_filter. Qed.

Lemma tally_incr x c l :
  tally (counter_incr x c) l
  = (tally c l + (if label_eqb x l then 1 else 0))%nat.
Proof.
  induction c as [|[l' n] c IH]; simpl; [lia |].
  destruct (label_eqb l' x) eqn:Hx; simpl.
  - apply label_eqb_eq in Hx as ->. destruct (label_eqb x l); lia.
  - rewrite IH. lia.
Qed.

Lemma incr_keys_present x c :
  x ∈ map fst c -> map fst (counter_incr x c) = map fst c.
Proof.
  induction c as [|[l' n] c IH]; intros Hin.
  - now apply elem_of_nil in Hin.
  - change (map fst ((l', n) :: c)) with (l' :: map fst c) in *.
    change (counter_incr x ((l', n) :: c))
      with (if label_eqb l' x then (l', S n) :: c
            else (l', n) :: counter_incr x c).
    destruct (label_eqb l' x) eqn:Hx; [reflexivity |].
    apply elem_of_cons in Hin as [->|Hin].
    + now rewrite label_eqb_refl in Hx.
    + change (map fst ((l', n) :: counter_incr x c))
        with (l' :: map fst (counter_incr x c)).
      now rewrite IH.
Qed.

Lemma incr_keys_absent x c :
  x ∉ map fst c -> map fst (counter_incr x c) = map fst c ++ [x].
Proof.
  induction c as [|[l' n] c IH]; intros Hnin; [reflexivity |].
  change (map fst ((l', n) :: c)) with (l' :: map fst c) in *.
  apply not_elem_of_cons in Hnin as [Hne Hnin].
  change (counter_incr x ((l', n) :: c))
    with (if label_eqb l' x then (l', S n) :: c
          else (l', n) :: counter_incr x c).
  rewrite (label_eqb_neq l' x) by congruence.
  change (map fst ((l', n) :: counter_incr x c))
    with (l' :: map fst (counter_incr x c)).
  now rewrite IH.
Qed.

Lemma incr_positive x c :
  Forall (fun e => (0 < e.2)%nat) c ->
  Forall (fun e => (0 < e.2)%nat) (counter_incr x c).
Proof.
  induction 1 as [|[l' n] c Hn Hc IH]; simpl.
  - repeat constructor.
  - destruct (label_eqb l' x); constructor; simpl in *; auto; lia.
Qed.


Lemma counts_incr x c seen :
  counts c seen -> counts (counter_incr x c) (seen ++ [x]).
Proof.
  intros (Hnd & Hpos & Htally). repeat split.
  - destruct (decide (x ∈ map fst c)) as [Hin|Hin].
    + now rewrite incr_keys_present.
    + rewrite incr_keys_absent by exact Hin.
      apply NoDup_app. repeat split; [exact Hnd | | apply NoDup_singleton].
      intros y Hy Hy'. apply list_elem_of_singleton in Hy' as ->. auto.
  - now apply incr_positive.
  - intros l. now rewrite tally_incr, occurrences_snoc, Htally.
Qed.

Lemma counts_fold ls : forall c seen,
  counts c seen ->
  counts (fold_left (fun c l => counter_incr l c) ls c) (seen ++ ls).
Proof.
  induction ls as [|x ls IH]; intros c seen Hc; simpl.
  - now rewrite app_nil_r.
  - replace (seen ++ x :: ls) with ((seen ++ [x]) ++ ls)
      by now rewrite <- app_assoc.
    apply IH. now apply counts_incr.
Qed.

Lemma counts_Counter ls : counts (Counter ls) ls.
Proof.
  apply (counts_fold ls [] []). repeat split.
  - apply NoDup_nil_2.
  - constructor.
Qed.

Lemma tally_absent c l : l ∉ map fst c -> tally c l = 0%nat.
Proof.
  induction c as [|[l' n] c IH]; simpl; [reflexivity |].
  intros Hnin. apply not_elem_of_cons in Hnin as [Hne Hnin].
  rewrite (label_eqb_neq l' l) by congruence. now rewrite IH.
Qed.

Lemma tally_entry c l n :
  NoDup (map fst c) -> (l, n) ∈ c -> tally c l = n.
Proof.
  induction c as [|[l' m] c IH]; simpl; intros Hnd Hin.
  - now apply elem_of_nil in Hin.
  - apply NoDup_cons in Hnd as [Hnin Hnd].
    apply elem_of_cons in Hin as [Heq|Hin].
    + injection Heq as <- <-. rewrite label_eqb_refl, tally_absent by exact Hnin. lia.
    + assert (l' <> l).
      { intros ->. apply Hnin. apply list_elem_of_fmap. now exists (l, n). }
      rewrite (label_eqb_neq l' l) by assumption. now rewrite IH.
Qed.

Lemma tally_bound c l n :
  NoDup (map fst c) ->
  (forall e, e ∈ c -> (e.2 <= n)%nat) ->
  (tally c l <= n)%nat.
Proof.
  induction c as [|[l' m] c IH]; simpl; intros Hnd Hmax; [lia |].
  apply NoDup_cons in Hnd as [Hnin Hnd].
  destruct (label_eqb l' l) eqn:Hl.
  - apply label_eqb_eq in Hl as ->. rewrite tally_absent by exact Hnin.
    specialize (Hmax (l, m) (list_elem_of_here _ _)). simpl in Hmax. lia.
  - simpl. apply IH; [exact Hnd |].
    intros e He. apply Hmax. now apply list_elem_of_further.
Qed.

(** The first item of [most_common] carries a largest count. *)
Lemma most_common_head c :
  match most_common c with
  | [] => c = []
  | e :: _ => e ∈ c /\ forall e', e' ∈ c -> (e'.2 <= e.2)%nat
  end.
Proof.
  induction c as [|x c IH]; [reflexivity |].
  change (most_common (x :: c)) with (insert_desc x (most_common c)).
  destruct (most_common c) as [|y s]; simpl.
  - subst c. split; [apply list_elem_of_here |].
    intros e' He'. apply list_elem_of_singleton in He' as ->. lia.
  - destruct IH as [Hy Hmax]. destruct (snd x <? snd y)%nat eqn:Hlt.
    + apply Nat.ltb_lt in Hlt. split; [now apply list_elem_of_further |].
      intros e' He'. apply elem_of_cons in He' as [->|He']; [lia | auto].
    + apply Nat.ltb_ge in Hlt. split; [apply list_elem_of_here |].
      intros e' He'. apply elem_of_cons in He' as [->|He']; [lia |].
      specialize (Hmax e' He'). lia.
Qed.

Lemma lookup_all_length labels tn ls :
  lookup_all labels tn = Ok ls -> length ls = length tn.
Proof.
  revert ls. induction tn as [|n tn IH]; simpl; intros ls Hls.
  - injection Hls as <-. reflexivity.
  - destruct (labels !! n); [| discriminate].
    destruct (lookup_all labels tn) as [ls'|]; [| discriminate].
    injection Hls as <-. simpl. now rewrite (IH ls').
Qed.

(** The vote of one token: the label carries a largest number of
    occurrences among the neighbour labels, and the certainty is that
    number divided by [k]. *)
Lemma token_vote_spec k labels tn l c :
  token_vote k labels tn = Ok (l, c) ->
  exists neighbor_labels count,
    lookup_all labels tn = Ok neighbor_labels
    /\ count = occurrences l neighbor_labels
    /\ (forall l', (occurrences l' neighbor_labels <= count)%nat)
    /\ (1 <= count <= length tn)%nat
    /\ int_truediv (Z.of_nat count) k = Ok c.
Proof.
  unfold token_vote. intros Hvote.
  destruct (lookup_all labels tn) as [ls|] eqn:Hls; [| discriminate].
  pose proof (most_common_head (Counter ls)) as Hhead.
  destruct (most_common (Counter ls)) as [|[l0 n] rest]; [discriminate |].
  destruct (int_truediv (Z.of_nat n) k) as [c0|] eqn:Hdiv; [| discriminate].
  injection Hvote as -> ->.
  destruct Hhead as [Hin Hmax].
  destruct (counts_Counter ls) as (Hnd & Hpos & Htally).
  assert (Hn : n = occurrences l ls).
  { rewrite <- Htally. symmetry. now apply tally_entry. }
  exists ls, n. repeat split; auto.
  - intros l'. rewrite <- Htally. apply tally_bound; [exact Hnd |].
    intros e He. apply (Hmax e He).
  - rewrite Forall_forall in Hpos. apply (Hpos (l, n) Hin).
  - rewrite Hn, <- (lookup_all_length _ _ _ Hls). apply occurrences_le_length.
Qed.

Lemma votes_of_spec k labels nearest_neighbors : forall nn_votes,
  votes_of k labels nearest_neighbors = Ok nn_votes ->
  Forall2 (fun tn v => token_vote k labels tn = Ok v) nearest_neighbors nn_votes.
Proof.
  induction nearest_neighbors as [|tn rest IH]; simpl; intros nn_votes Hvotes.
  - injection Hvotes as <-. constructor.
  - destruct (token_vote k labels tn) as [v|] eqn:Hv; [| discriminate].
    destruct (votes_of k labels rest) as [vs|]; [| discriminate].
    injection Hvotes as <-. constructor; auto.
Qed.


Lemma Counter_3_2 (A B : label) :
  A <> B -> Counter [A; A; A; B; B] = [(A, 3%nat); (B, 2%nat)].
Proof.
  intros HAB. unfold Counter.
  repeat (cbn [fold_left counter_incr];
          rewrite ?label_eqb_refl, ?(label_eqb_neq A B HAB)).
  reflexivity.
Qed.

(** C6 (amended). When every neighbour list has [k] entries, each vote
    carries a label with a largest number of occurrences among the
    neighbour labels of its token, that number [count] is an integer with
    [1 <= count <= k], the certainty is the binary64 quotient [count / k],
    and it lies between the floats [1 / k] and [1.0]. With [k = 5] and
    the neighbour labels [A, A, A, B, B] the vote is [A] with certainty
    [0.6]. *)
Theorem vote_certainty_is_the_majority_share
  k labels nearest_neighbors nn_votes :
  votes_of k labels nearest_neighbors = Ok nn_votes ->
  Forall (fun tn => Z.of_nat (length tn) = k) nearest_neighbors ->
  Forall2
    (fun tn v =>
       exists neighbor_labels count,
         lookup_all labels tn = Ok neighbor_labels
         /\ count = occurrences v.1 neighbor_labels
         /\ (forall l, (occurrences l neighbor_labels <= count)%nat)
         /\ 1 <= Z.of_nat count <= k
         /\ v.2 = F64.div (F64.exact (Z.of_nat count)) (F64.exact k)
         /\ (exists low, int_truediv 1 k = Ok low /\ F64.leb low v.2 = true)
         /\ F64.leb v.2 F64.one = true)
    nearest_neighbors nn_votes
  /\ (forall (A B : label) labels' tn,
        A <> B ->
        lookup_all labels' tn = Ok [A; A; A; B; B] ->
        token_vote 5 labels' tn
        = Ok (A, S754_finite false 5404319552844595 (-53))).
Proof.
  intros Hvotes Hk. split.
  - apply votes_of_spec in Hvotes.
    induction Hvotes as [|tn [l c] rest vs Hv Hrest IH]; [constructor |].
    apply Forall_cons in Hk as [Hlen Hk].
    constructor; [| now apply IH].
    destruct (token_vote_spec _ _ _ _ _ Hv)
      as (ls & n & Hls & Hn & Hmax & Hrange & Hdiv).
    assert (Hn1 : 1 <= Z.of_nat n <= k) by lia.
    destruct (certainty_range _ _ _ Hn1 Hdiv) as (low & Hlow & Hge & Hle).
    exists ls, n. simpl. repeat split; auto; try lia.
    + now apply int_truediv_ok.
    + now exists low.
  - intros A B labels' tn HAB Hls. unfold token_vote.
    rewrite Hls, (Counter_3_2 A B HAB). reflexivity.
Qed.

Lemma vote_certainty_witness :
  let nn := Demo.neighbors Cosine in
  exists nn_votes,
    votes_of 3 Demo.row_labels nn = Ok nn_votes
    /\ Forall (fun tn => Z.of_nat (length tn) = 3) nn
    /\ Forall2
         (fun tn v =>
            exists neighbor_labels count,
              lookup_all Demo.row_labels tn = Ok neighbor_labels
              /\ count = occurrences v.1 neighbor_labels
              /\ (forall l, (occurrences l neighbor_labels <= count)%nat)
              /\ 1 <= Z.of_nat count <= 3
              /\ v.2 = F64.div (F64.exact (Z.of_nat count)) (F64.exact 3)
              /\ (exists low, int_truediv 1 3 = Ok low /\ F64.leb low v.2 = true)
              /\ F64.leb v.2 F64.one = true)
         nn nn_votes.
Proof.
  intros nn. eexists.
  assert (Hvotes : votes_of 3 Demo.row_labels nn
                   = Ok (r_cos_nn_votes Demo.report)) by reflexivity.
  assert (Hk : Forall (fun tn => Z.of_nat (length tn) = 3) nn)
    by (repeat constructor).
  exact (conj Hvotes (conj Hk
           (proj1 (vote_certainty_is_the_majority_share 3 Demo.row_labels nn
                     _ Hvotes Hk)))).
Defined.

(** C6, as stated, fails: with [k = 22] and a majority of 15 among the 22
    neighbours, the certainty is the float [15 / 22], and neither the
    float product [certainty * k] nor the exact product of the float by
    22 is an integer. *)
Lemma certainty_times_k_is_not_an_integer :
  let tn := repeat 0%nat 15 ++ repeat 1%nat 7 in
  exists c kf,
    length tn = 22%nat
    /\ token_vote 22 [Demo.A; Demo.B] tn = Ok (Demo.A, c)
    /\ c = S754_finite false 6141272219141585 (-53)
    /\ F64.of_int 22 = Ok kf
    /\ F64.mul c kf = S754_finite false 8444249301319679 (-49)
    /\ F64.is_integer (F64.mul c kf) = false
    /\ (6141272219141585 * 22) mod 2 ^ 53 <> 0.
Proof.
  intros tn. eexists _, _.
  split; [reflexivity |].
  split; [vm_compute; reflexivity |].
  split; [reflexivity |].
  split; [vm_compute; reflexivity |].
  split; [vm_compute; reflexivity |].
  split; [vm_compute; reflexivity |].
  vm_compute. discriminate.
Qed.

(** ** The vote is total on well-formed neighbour lists *)

Lemma int_truediv_total count k :
  1 <= count <= k -> exists c, int_truediv count k = Ok c.
Proof.
  intros Hrange. destruct count as [|n|n]; try lia. destruct k as [|k|k]; try lia.
  unfold int_truediv. simpl (Zpos k =? 0).
  destruct (div_spec n k) as (e & m & _ & ->); [lia |].
  unfold norm. destruct (m =? 0); [now eexists |].
  destruct (m =? 2 ^ 53); now eexists.
Qed.

Lemma lookup_all_total labels tn :
  Forall (fun i => (i < length labels)%nat) tn ->
  exists ls, lookup_all labels tn = Ok ls.
Proof.
  induction 1 as [|i tn Hi Htn (ls & IH)]; simpl; [now exists [] |].
  destruct (lookup_lt_is_Some_2 labels i Hi) as [l ->].
  rewrite IH. now eexists.
Qed.

Lemma token_vote_total k labels tn :
  1 <= k -> Z.of_nat (length tn) = k ->
  Forall (fun i => (i < length labels)%nat) tn ->
  exists v, token_vote k labels tn = Ok v.
Proof.
  intros Hk Hlen Hin.
  destruct (lookup_all_total labels tn Hin) as (ls & Hls).
  pose proof (lookup_all_length _ _ _ Hls) as Hlen'.
  unfold token_vote. rewrite Hls.
  destruct (counts_Counter ls) as (Hnd & Hpos & Htally).
  pose proof (most_common_head (Counter ls)) as Hhead.
  destruct (most_common (Counter ls)) as [|[l n] rest].
  - destruct ls as [|x ls]; [simpl in *; lia |].
    specialize (Htally x). rewrite Hhead, occurrences_cons, label_eqb_refl in Htally.
    simpl in Htally. lia.
  - destruct Hhead as [Hin' _].
    assert (Hn : n = occurrences l ls)
      by (rewrite <- Htally; symmetry; now apply tally_entry).
    rewrite Forall_forall in Hpos. specialize (Hpos (l, n) Hin'). simpl in Hpos.
    pose proof (occurrences_le_length l ls).
    destruct (int_truediv_total (Z.of_nat n) k) as (c & ->); [lia |].
    now eexists.
Qed.

Lemma votes_of_total k labels nearest_neighbors :
  1 <= k ->
  Forall (fun tn => Z.of_nat (length tn) = k
                    /\ Forall (fun i => (i < length labels)%nat) tn)
    nearest_neighbors ->
  exists nn_votes, votes_of k labels nearest_neighbors = Ok nn_votes.
Proof.
  intros Hk. induction 1 as [|tn rest [Hlen Hin] Hrest (vs & IH)]; simpl;
    [now exists [] |].
  destruct (token_vote_total k labels tn Hk Hlen Hin) as (v & ->).
  rewrite IH. now eexists.
Qed.

(** ** The weighted accuracies that a completed [nn_evaluation] stores *)

Lemma result_map_all {A B} (f : A -> result B) xs ys :
  result_map f xs = Ok ys -> forall x, x ∈ xs -> exists y, f x = Ok y.
Proof.
  revert ys. induction xs as [|x0 xs IH]; intros ys Hmap x Hin.
  - now apply elem_of_nil in Hin.
  - change (result_map f (x0 :: xs))
      with (rbind (f x0) (fun y => rbind (result_map f xs)
                                     (fun ys => Ok (y :: ys)))) in Hmap.
    destruct (f x0) as [y0|] eqn:Hx0; [| discriminate]. simpl in Hmap.
    destruct (result_map f xs) as [ys'|] eqn:Hxs; [| discriminate].
    apply elem_of_cons in Hin as [->|Hin]; [now exists y0 |].
    now apply (IH ys').
Qed.

Lemma weighted_accuracy_ok float_sum nn_votes mpt x :
  weighted_accuracy float_sum nn_votes mpt = Ok x ->
  exists ablation,
    mpt = Some ablation
    /\ nn_votes <> []
    /\ (length nn_votes <= length ablation)%nat
    /\ F64.is_zero (float_sum (map snd nn_votes)) = false
    /\ x = weighted_accuracy_spec float_sum ablation nn_votes.
Proof.
  intros Hx.
  assert (Hne : nn_votes <> []).
  { intros ->. discriminate Hx. }
  pose proof Hx as Hx'. unfold weighted_accuracy in Hx'.
  apply rbind_inv_ok in Hx' as (num & Hnum & _).
  assert (Hlast : (length nn_votes - 1)%nat ∈ seq 0 (length nn_votes)).
  { apply elem_of_seq. destruct nn_votes; [congruence | simpl; lia]. }
  destruct (result_map_all _ _ _ Hnum _ Hlast) as (t & Ht).
  apply rbind_inv_ok in Ht as (b & Hb & _).
  unfold vote_matches in Hb.
  apply rbind_inv_ok in Hb as (v & _ & Hb).
  apply rbind_inv_ok in Hb as (l & Hl & _).
  destruct mpt as [ablation|]; [| discriminate Hl].
  unfold token_label, index in Hl.
  destruct (ablation !! (length nn_votes - 1)%nat) eqn:Hlook; [| discriminate].
  apply lookup_lt_Some in Hlook.
  assert (Hlen : (length nn_votes <= length ablation)%nat) by lia.
  exists ablation. repeat split; auto.
  - destruct (F64.is_zero (float_sum (map snd nn_votes))) eqn:Hz; [| reflexivity].
    exfalso. revert Hx. unfold weighted_accuracy.
    rewrite (weighted_terms_loop _ _ Hlen), certainties_loop.
    destruct nn_votes as [|v0 vs]; [congruence |].
    destruct ablation as [|x0 xs]; [simpl in Hlen; lia |].
    change (float_truediv
              (float_sum (zip_with
                 (fun v x => F64.mul (F64.of_bool (label_eqb v.1 x)) v.2)
                 (v0 :: vs) (x0 :: xs)))
              (float_sum (map snd (v0 :: vs))) <> Ok x).
    unfold float_truediv. now rewrite Hz.
  - revert Hx. unfold weighted_accuracy.
    rewrite (weighted_terms_loop _ _ Hlen), certainties_loop.
    destruct nn_votes as [|v0 vs]; [congruence |].
    destruct ablation as [|x0 xs]; [simpl in Hlen; lia |].
    change (float_truediv
              (float_sum (zip_with
                 (fun v x => F64.mul (F64.of_bool (label_eqb v.1 x)) v.2)
                 (v0 :: vs) (x0 :: xs)))
              (float_sum (map snd (v0 :: vs))) = Ok x ->
            x = weighted_accuracy_spec float_sum (x0 :: xs) (v0 :: vs)).
    unfold float_truediv, weighted_accuracy_spec.
    destruct (F64.is_zero _); [discriminate | now intros [= <-]].
Qed.

(** A completed [nn_evaluation] stores, for both metrics, the weighted
    share of the specification, computed from the votes it stored and the
    ablation labels it found. *)
Lemma nn_evaluation_weighted_accuracies `{Collaborators} cfg w w' :
  nn_evaluation cfg w = (Ok tt, w') ->
  exists ablation euc cos,
    model_per_token (self w) = Some ablation
    /\ euc_nn_votes (self w') = Some (Votes euc)
    /\ cos_nn_votes (self w') = Some (Votes cos)
    /\ euc_waccuracy (self w')
       = Some (weighted_accuracy_spec float_sum ablation euc)
    /\ cos_waccuracy (self w')
       = Some (weighted_accuracy_spec float_sum ablation cos).
Proof.
  intros Hrun.
  destruct (nn_evaluation_ok _ _ _ Hrun)
    as (_ & _ & _ & _ & _ & euc & cos & a1 & a2 & a3 & a4 & a5
        & _ & _ & _ & _ & _ & _ & _ & _ & Ha3 & Ha4 & _ & Hself & _).
  destruct (weighted_accuracy_ok _ _ _ _ Ha3) as (ablation & Hmpt & _ & _ & _ & ->).
  destruct (weighted_accuracy_ok _ _ _ _ Ha4) as (ablation' & Hmpt' & _ & _ & _ & ->).
  rewrite Hmpt in Hmpt'. injection Hmpt' as <-.
  exists ablation, euc, cos. rewrite Hself. simpl. repeat split; auto.
Qed.

(** * Further properties of the code *)

(** A loop whose body raises at the index [j + m], after [m] rounds that
    complete, raises the same exception. *)
Lemma result_map_seq_raise {B} (f : nat -> result B) (e : exn) (m n : nat) : forall j,
  (m < n)%nat ->
  (forall i, (i < m)%nat -> exists y, f (j + i)%nat = Ok y) ->
  f (j + m)%nat = Raise e ->
  result_map f (seq j n) = Raise e.
Proof.
  revert n. induction m as [|m IH]; intros n j Hlt Hok Hraise.
  - destruct n as [|n]; [lia |].
    change (result_map f (seq j (S n)))
      with (rbind (f j) (fun y => rbind (result_map f (seq (S j) n))
                                    (fun ys => Ok (y :: ys)))).
    rewrite Nat.add_0_r in Hraise. now rewrite Hraise.
  - destruct n as [|n]; [lia |].
    change (result_map f (seq j (S n)))
      with (rbind (f j) (fun y => rbind (result_map f (seq (S j) n))
                                    (fun ys => Ok (y :: ys)))).
    destruct (Hok 0%nat) as (y & Hy); [lia |].
    rewrite Nat.add_0_r in Hy. rewrite Hy. simpl.
    rewrite (IH n (S j)); [reflexivity | lia | |].
    + intros i Hi. replace (S j + i)%nat with (j + S i)%nat by lia.
      apply Hok. lia.
    + now replace (S j + m)%nat with (j + S m)%nat by lia.
Qed.

Lemma count_true_bounds bs : 0 <= count_true bs <= Z.of_nat (length bs).
Proof.
  unfold count_true. pose proof (length_filter (fun b => b = true) bs). lia.
Qed.

(** The quotient of a count by a positive total that bounds it never
    overflows. *)
Lemma int_truediv_share count (n : nat) :
  0 <= count <= Z.of_nat n -> (0 < n)%nat ->
  int_truediv count (Z.of_nat n) = Ok (share count n).
Proof.
  intros Hc Hn. destruct (Z.eq_dec count 0) as [-> | Hne].
  - unfold int_truediv, share. destruct n as [|n]; [lia |]. reflexivity.
  - destruct (int_truediv_total count (Z.of_nat n)) as (c & Hdiv); [lia |].
    rewrite Hdiv. f_equal. now apply int_truediv_ok.
Qed.

Lemma share_range count (n : nat) :
  0 <= count <= Z.of_nat n -> (0 < n)%nat ->
  F64.leb F64.zero (share count n) = true
  /\ F64.leb (share count n) F64.one = true.
Proof.
  intros Hc Hn. destruct (Z.eq_dec count 0) as [-> | Hne].
  - unfold share. destruct n as [|n]; [lia |]. split; reflexivity.
  - pose proof (int_truediv_share count n Hc Hn) as Hdiv.
    destruct (certainty_range count (Z.of_nat n) _ ltac:(lia) Hdiv)
      as (low & Hlow & Hle & Hone).
    split; [| exact Hone].
    unfold share. destruct count as [|c|c]; try lia.
    destruct n as [|n]; [lia |].
    change (Z.of_nat (S n)) with (Zpos (Pos.of_succ_nat n)) in *.
    destruct (div_spec c (Pos.of_succ_nat n)) as (e & m & Hr & ->); [lia |].
    unfold norm. destruct (m =? 0); [reflexivity |].
    destruct (m =? 2 ^ 53); reflexivity.
Qed.

Lemma matches_bounds nn_votes others :
  0 <= matches nn_votes others <= Z.of_nat (length nn_votes).
Proof.
  unfold matches.
  pose proof (count_true_bounds (zip_with (fun v x => label_eqb v.1 x) nn_votes others)).
  rewrite length_zip_with in H. lia.
Qed.

Lemma matches_loop (nn_votes : list (label * float)) (ablation : list label) :
  (length nn_votes <= length ablation)%nat ->
  result_map (vote_matches nn_votes (Some ablation)) (seq 0 (length nn_votes))
  = Ok (zip_with (fun v x => label_eqb v.1 x) nn_votes ablation).
Proof.
  intros Hlen.
  set (bs := zip_with _ nn_votes ablation).
  assert (Hl : length bs = length nn_votes)
    by (unfold bs; rewrite length_zip_with; lia).
  rewrite <- Hl. apply result_map_seq. intros i t Hi. simpl.
  apply lookup_zip_with_Some in Hi as (v & x & -> & Hv & Hx).
  unfold vote_matches, token_label, index. now rewrite Hv, Hx.
Qed.

Lemma agreement_loop (euc cos : list (label * float)) :
  (length euc <= length cos)%nat ->
  result_map
    (fun i => a ← index euc i; b ← index cos i; Ok (label_eqb a.1 b.1))
    (seq 0 (length euc))
  = Ok (zip_with (fun v x => label_eqb v.1 x) euc (map fst cos)).
Proof.
  intros Hlen.
  set (bs := zip_with _ euc (map fst cos)).
  assert (Hl : length bs = length euc)
    by (unfold bs; rewrite length_zip_with, length_map; lia).
  rewrite <- Hl. apply result_map_seq. intros i t Hi. simpl.
  apply lookup_zip_with_Some in Hi as (v & x & -> & Hv & Hx).
  apply list_lookup_fmap_Some in Hx as (c & -> & Hc).
  unfold index. now rewrite Hv, Hc.
Qed.

Lemma accuracy_nil mpt : accuracy [] mpt = Raise ZeroDivisionError.
Proof. reflexivity. Qed.

Lemma accuracy_unset v vs : accuracy (v :: vs) None = Raise AttributeError.
Proof. reflexivity. Qed.

Lemma accuracy_short nn_votes ablation :
  (length ablation < length nn_votes)%nat ->
  accuracy nn_votes (Some ablation) = Raise IndexError.
Proof.
  intros Hlt. unfold accuracy.
  rewrite (result_map_seq_raise _ IndexError (length ablation)); auto.
  - intros i Hi.
    destruct (lookup_lt_is_Some_2 nn_votes i ltac:(lia)) as [x Hx].
    destruct (lookup_lt_is_Some_2 ablation i Hi) as [y Hy].
    exists (label_eqb x.1 y). simpl.
    unfold vote_matches, token_label, index. now rewrite Hx, Hy.
  - simpl Nat.add.
    destruct (lookup_lt_is_Some_2 nn_votes (length ablation) Hlt) as [x Hx].
    unfold vote_matches, token_label, index. rewrite Hx.
    now rewrite (lookup_ge_None_2 ablation (length ablation)).
Qed.

Lemma accuracy_value nn_votes ablation :
  (0 < length nn_votes <= length ablation)%nat ->
  accuracy nn_votes (Some ablation)
  = Ok (share (matches nn_votes ablation) (length nn_votes)).
Proof.
  intros [Hpos Hle]. unfold accuracy. rewrite matches_loop by exact Hle.
  apply int_truediv_share; [apply matches_bounds | exact Hpos].
Qed.

Lemma agreement_short euc cos :
  (length cos < length euc)%nat -> agreement euc cos = Raise IndexError.
Proof.
  intros Hlt. unfold agreement.
  rewrite (result_map_seq_raise _ IndexError (length cos)); auto.
  - intros i Hi.
    destruct (lookup_lt_is_Some_2 euc i ltac:(lia)) as [x Hx].
    destruct (lookup_lt_is_Some_2 cos i Hi) as [y Hy].
    exists (label_eqb x.1 y.1). simpl.
    unfold index. now rewrite Hx, Hy.
  - simpl Nat.add.
    destruct (lookup_lt_is_Some_2 euc (length cos) Hlt) as [x Hx].
    unfold index. rewrite Hx.
    now rewrite (lookup_ge_None_2 cos (length cos)).
Qed.

Lemma agreement_value euc cos :
  (0 < length euc <= length cos)%nat ->
  agreement euc cos = Ok (share (matches euc (map fst cos)) (length euc)).
Proof.
  intros [Hpos Hle]. unfold agreement. rewrite agreement_loop by exact Hle.
  apply int_truediv_share; [apply matches_bounds | exact Hpos].
Qed.

(** A plain accuracy that has a value. *)
Lemma accuracy_ok_inv nn_votes mpt a :
  accuracy nn_votes mpt = Ok a ->
  exists ablation,
    mpt = Some ablation
    /\ (0 < length nn_votes <= length ablation)%nat
    /\ a = share (matches nn_votes ablation) (length nn_votes).
Proof.
  intros Hacc. destruct nn_votes as [|v vs]; [now rewrite accuracy_nil in Hacc |].
  destruct mpt as [ablation|]; [| now rewrite accuracy_unset in Hacc].
  destruct (Nat.lt_ge_cases (length ablation) (length (v :: vs))) as [Hlt | Hge].
  - now rewrite accuracy_short in Hacc.
  - rewrite accuracy_value in Hacc by (simpl in *; lia).
    injection Hacc as <-. exists ablation. simpl in *.
    split; [reflexivity |]. split; [lia | reflexivity].
Qed.

Lemma agreement_ok_inv euc cos a :
  agreement euc cos = Ok a ->
  (0 < length euc <= length cos)%nat
  /\ a = share (matches euc (map fst cos)) (length euc).
Proof.
  intros Hagr. destruct euc as [|v vs]; [discriminate |].
  destruct (Nat.lt_ge_cases (length cos) (length (v :: vs))) as [Hlt | Hge].
  - now rewrite agreement_short in Hagr.
  - rewrite agreement_value in Hagr by (simpl in *; lia).
    injection Hagr as <-. simpl in *. split; [lia | reflexivity].
Qed.

(** X1. The plain accuracy of [nn_evaluation] for one metric, in every
    case. With no vote it raises [ZeroDivisionError] (the attribute
    [model_per_token] is not even read); with a vote and [model_per_token]
    unset it raises [AttributeError]; with fewer ablation labels than
    votes it raises [IndexError]; otherwise it is the number of positions
    at which the vote label equals the ablation label, divided by the
    number of votes, and the division never overflows. Ablation labels
    beyond the last vote are ignored. *)
Theorem accuracy_cases (nn_votes : list (label * float)) (mpt : option (list label)) :
  accuracy nn_votes mpt
  = match nn_votes, mpt with
    | [], _ => Raise ZeroDivisionError
    | _ :: _, None => Raise AttributeError
    | _ :: _, Some ablation =>
        if (length ablation <? length nn_votes)%nat then Raise IndexError
        else Ok (share (matches nn_votes ablation) (length nn_votes))
    end.
Proof.
  destruct nn_votes as [|v vs]; [apply accuracy_nil |].
  destruct mpt as [ablation|]; [| apply accuracy_unset].
  destruct (Nat.ltb_spec (length ablation) (length (v :: vs))) as [Hlt | Hge].
  - now apply accuracy_short.
  - apply accuracy_value. simpl in *. lia.
Qed.

(** X2. The Euclidean-to-cosine accuracy of [nn_evaluation], in every
    case. It ranges over the Euclidean votes only: with no Euclidean vote
    it raises [ZeroDivisionError], with fewer cosine votes than Euclidean
    votes it raises [IndexError], and otherwise it is the number of
    positions at which both votes name the same label, divided by the
    number of Euclidean votes; cosine votes beyond that are ignored. *)
Theorem agreement_cases (euc cos : list (label * float)) :
  agreement euc cos
  = if decide (euc = []) then Raise ZeroDivisionError
    else if (length cos <? length euc)%nat then Raise IndexError
    else Ok (share (matches euc (map fst cos)) (length euc)).
Proof.
  destruct (decide (euc = [])) as [-> | Hne]; [reflexivity |].
  destruct (Nat.ltb_spec (length cos) (length euc)) as [Hlt | Hge].
  - now apply agreement_short.
  - apply agreement_value. destruct euc; [congruence | simpl in *; lia].
Qed.


(** X3. When [nn_evaluation] completes, there is at least one token, no
    more Euclidean votes than cosine votes and no more cosine votes than
    ablation labels; the three plain accuracies it stores are the shares
    of matching positions, and each of them lies between [0.0] and [1.0]
    in the order of the floats. *)
Theorem stored_accuracies_are_shares `{Collaborators} (cfg : settings) w w' :
  nn_evaluation cfg w = (Ok tt, w') ->
  exists ablation euc cos,
    model_per_token (self w) = Some ablation
    /\ euc_nn_votes (self w') = Some (Votes euc)
    /\ cos_nn_votes (self w') = Some (Votes cos)
    /\ (0 < length euc <= length cos)%nat
    /\ (length cos <= length ablation)%nat
    /\ euc_accuracy (self w')
       = Some (share (matches euc ablation) (length euc))
    /\ cos_accuracy (self w')
       = Some (share (matches cos ablation) (length cos))
    /\ euc_to_cos_accuracy (self w')
       = Some (share (matches euc (map fst cos)) (length euc))
    /\ in_unit_interval (share (matches euc ablation) (length euc))
    /\ in_unit_interval (share (matches cos ablation) (length cos))
    /\ in_unit_interval (share (matches euc (map fst cos)) (length euc)).
Proof.
  intros Hrun.
  destruct (nn_evaluation_ok cfg w w' Hrun)
    as (spaces & labels & weight & nn_euc & nn_cos & euc & cos
        & a1 & a2 & a3 & a4 & a5 & _ & _ & _ & _ & _ & _
        & Ha1 & Ha2 & _ & _ & Ha5 & Hself & _ & _).
  apply accuracy_ok_inv in Ha1 as (ablation & Hmpt & Hlen1 & ->).
  apply accuracy_ok_inv in Ha2 as (ablation' & Hmpt' & Hlen2 & ->).
  apply agreement_ok_inv in Ha5 as (Hlen5 & ->).
  rewrite Hmpt in Hmpt'. injection Hmpt' as <-.
  exists ablation, euc, cos. rewrite Hself.
  split; [exact Hmpt |]. split; [reflexivity |]. split; [reflexivity |].
  split; [exact Hlen5 |]. split; [lia |].
  split; [reflexivity |]. split; [reflexivity |]. split; [reflexivity |].
  split; [| split]; (apply share_range; [apply matches_bounds | lia]).
Qed.

Lemma stored_accuracies_witness :
  let w := (loss_evaluation (H := Demo.env) Demo.cfg Demo.fresh).2 in
  let w' := (nn_evaluation (H := Demo.env) Demo.cfg w).2 in
  nn_evaluation (H := Demo.env) Demo.cfg w = (Ok tt, w')
  /\ exists euc ablation,
       euc_accuracy (self w') = Some (share (matches euc ablation) (length euc))
       /\ in_unit_interval (share (matches euc ablation) (length euc)).
Proof.
  intros w w'.
  assert (Hrun : nn_evaluation (H := Demo.env) Demo.cfg w = (Ok tt, w'))
    by (vm_compute; reflexivity).
  split; [exact Hrun |].
  destruct (stored_accuracies_are_shares (H := Demo.env) Demo.cfg w w' Hrun)
    as (ablation & euc & cos & _ & _ & _ & _ & _ & He & _ & _ & Hu & _).
  exists euc, ablation. exact (conj He Hu).
Defined.

Lemma occurrences_positive l ls : (0 < occurrences l ls)%nat <-> l ∈ ls.
Proof.
  unfold occurrences. split.
  - intros Hpos. destruct (filter (fun x => x = l) ls) as [|x xs] eqn:Hf;
      [simpl in Hpos; lia |].
    assert (Hx : x ∈ filter (fun x => x = l) ls) by (rewrite Hf; left).
    apply list_elem_of_filter in Hx as [-> Hx]. exact Hx.
  - intros Hin.
    assert (Hl : l ∈ filter (fun x => x = l) ls)
      by (apply list_elem_of_filter; auto).
    destruct (filter (fun x => x = l) ls); [now apply elem_of_nil in Hl |].
    simpl. lia.
Qed.

Lemma counts_keys c seen l : counts c seen -> l ∈ map fst c <-> l ∈ seen.
Proof.
  intros (Hnd & Hpos & Htally).
  rewrite <- (occurrences_positive l seen), <- Htally. split.
  - intros Hin. apply list_elem_of_fmap in Hin as ([l' n] & -> & Hin). simpl.
    rewrite (tally_entry c l' n Hnd Hin).
    rewrite Forall_forall in Hpos. apply (Hpos _ Hin).
  - intros Ht. destruct (decide (l ∈ map fst c)) as [|Hnin]; [assumption |].
    rewrite tally_absent in Ht by exact Hnin. lia.
Qed.

Lemma first_seen_incr x c seen :
  counts c seen ->
  first_seen (map fst c) seen ->
  first_seen (map fst (counter_incr x c)) (seen ++ [x]).
Proof.
  intros Hc Hfs. destruct (decide (x ∈ map fst c)) as [Hin | Hnin].
  - rewrite incr_keys_present by exact Hin.
    intros p l q Hkeys. destruct (Hfs p l q Hkeys) as (pre & post & -> & Hl & Hp).
    exists pre, (post ++ [x]). rewrite <- app_assoc. auto.
  - rewrite incr_keys_absent by exact Hnin.
    intros p l q Hkeys. destruct q as [|y q _] using rev_ind.
    + apply app_inj_tail in Hkeys as [<- <-].
      exists seen, []. split; [reflexivity |]. split.
      * now rewrite <- (counts_keys c seen x Hc).
      * intros l'. apply (counts_keys c seen l' Hc).
    + rewrite app_comm_cons, app_assoc in Hkeys.
      apply app_inj_tail in Hkeys as [Hkeys <-].
      destruct (Hfs p l q Hkeys) as (pre & post & -> & Hl & Hp).
      exists pre, (post ++ [x]). rewrite <- app_assoc. auto.
Qed.

Lemma first_seen_fold ls : forall c seen,
  counts c seen ->
  first_seen (map fst c) seen ->
  first_seen (map fst (fold_left (fun c l => counter_incr l c) ls c)) (seen ++ ls).
Proof.
  induction ls as [|x ls IH]; intros c seen Hc Hfs; simpl.
  - now rewrite app_nil_r.
  - replace (seen ++ x :: ls) with ((seen ++ [x]) ++ ls)
      by now rewrite <- app_assoc.
    apply IH; [now apply counts_incr | now apply first_seen_incr].
Qed.

Lemma first_seen_Counter ls : first_seen (map fst (Counter ls)) ls.
Proof.
  apply (first_seen_fold ls [] []).
  - repeat split; [apply NoDup_nil_2 | constructor].
  - intros p l q Hkeys. now destruct p.
Qed.

(** The first item of [most_common] is the first item of the counter that
    carries a largest count. *)
Lemma most_common_first c e rest :
  most_common c = e :: rest ->
  exists p q,
    c = p ++ e :: q
    /\ (forall e', e' ∈ p -> (e'.2 < e.2)%nat)
    /\ (forall e', e' ∈ q -> (e'.2 <= e.2)%nat).
Proof.
  revert e rest. induction c as [|x c IH]; intros e rest Hmc; [discriminate |].
  change (most_common (x :: c)) with (insert_desc x (most_common c)) in Hmc.
  pose proof (most_common_head c) as Hhead.
  destruct (most_common c) as [|y s] eqn:Hc.
  - subst c. injection Hmc as <- <-. exists [], [].
    split; [reflexivity |]. split; intros e' He'; now apply elem_of_nil in He'.
  - simpl in Hmc. destruct (snd x <? snd y)%nat eqn:Hlt.
    + apply Nat.ltb_lt in Hlt. injection Hmc as <- <-.
      destruct (IH y s eq_refl) as (p & q & -> & Hp & Hq).
      exists (x :: p), q. split; [reflexivity |]. split; [| exact Hq].
      intros e' He'. apply elem_of_cons in He' as [-> | He']; auto.
    + apply Nat.ltb_ge in Hlt. injection Hmc as <- <-.
      exists [], c. split; [reflexivity |].
      split; [intros e' He'; now apply elem_of_nil in He' |].
      destruct Hhead as [_ Hmax]. intros e' He'. specialize (Hmax e' He'). lia.
Qed.

(** X4. How a vote breaks ties. The neighbour labels of a token split at
    the first occurrence of the winning label: every label seen before it
    occurs strictly less often than the winner, and no label occurs more
    often. So among the labels with the largest count the one met first
    in the neighbour list wins ([Counter] keeps insertion order and
    [most_common] sorts stably). *)
Theorem first_seen_label_wins_ties k labels tn l c :
  token_vote k labels tn = Ok (l, c) ->
  exists neighbor_labels pre post,
    lookup_all labels tn = Ok neighbor_labels
    /\ neighbor_labels = pre ++ l :: post
    /\ (l ∉ pre)
    /\ (forall l', l' ∈ pre ->
          (occurrences l' neighbor_labels < occurrences l neighbor_labels)%nat)
    /\ (forall l', l' ∈ post ->
          (occurrences l' neighbor_labels <= occurrences l neighbor_labels)%nat).
Proof.
  unfold token_vote. intros Hvote.
  destruct (lookup_all labels tn) as [ls|] eqn:Hls; [| discriminate].
  destruct (most_common (Counter ls)) as [|[l0 n] rest] eqn:Hmc; [discriminate |].
  destruct (int_truediv (Z.of_nat n) k) as [c0|]; [| discriminate].
  injection Hvote as -> ->.
  destruct (most_common_first _ _ _ Hmc) as (p & q & Hsplit & Hp & Hq).
  destruct (counts_Counter ls) as (Hnd & Hpos & Htally).
  pose proof (first_seen_Counter ls) as Hfs.
  destruct (Hfs (map fst p) l (map fst q)) as (pre & post & Hseen & Hl & Hpre).
  { rewrite Hsplit, map_app. reflexivity. }
  assert (Hn : occurrences l ls = n).
  { rewrite <- Htally. apply tally_entry; [exact Hnd |].
    rewrite Hsplit. apply elem_of_app. right. left. }
  assert (Hmax : forall l', (occurrences l' ls <= n)%nat).
  { intros l'. rewrite <- Htally. apply tally_bound; [exact Hnd |].
    intros e He. rewrite Hsplit in He.
    apply elem_of_app in He as [He | He]; [specialize (Hp e He); simpl in Hp; lia |].
    apply elem_of_cons in He as [-> | He]; [simpl; lia |].
    apply (Hq e He). }
  exists ls, pre, post. split; [reflexivity |]. split; [exact Hseen |].
  split; [exact Hl |]. rewrite Hn. split.
  - intros l' Hl'. apply Hpre in Hl'.
    apply list_elem_of_fmap in Hl' as ([l1 n1] & -> & Hin). simpl.
    rewrite <- Htally.
    rewrite (tally_entry (Counter ls) l1 n1 Hnd).
    + apply (Hp _ Hin).
    + rewrite Hsplit. apply elem_of_app. now left.
  - intros l' _. apply Hmax.
Qed.

Lemma first_seen_label_witness :
  token_vote 4 Demo.row_labels [3; 0; 4; 1]%nat = Ok (Demo.B, Demo.half)
  /\ exists pre post,
       [Demo.B; Demo.A; Demo.B; Demo.A] = pre ++ Demo.B :: post
       /\ (Demo.B ∉ pre).
Proof.
  assert (Hvote : token_vote 4 Demo.row_labels [3; 0; 4; 1]%nat
                  = Ok (Demo.B, Demo.half)) by (vm_compute; reflexivity).
  split; [exact Hvote |].
  destruct (first_seen_label_wins_ties _ _ _ _ _ Hvote)
    as (nl & pre & post & Hnl & Hsplit & Hpre & _).
  injection Hnl as <-.
  exists pre, post. exact (conj Hsplit Hpre).
Defined.

Lemma lookup_all_cases labels tn :
  (Forall (fun i => (i < length labels)%nat) tn
   /\ exists ls, lookup_all labels tn = Ok ls /\ length ls = length tn)
  \/ (Exists (fun i => (length labels <= i)%nat) tn
      /\ lookup_all labels tn = Raise IndexError).
Proof.
  induction tn as [|i tn IH]; simpl.
  - left. split; [constructor | now exists []].
  - destruct (labels !! i) as [l|] eqn:Hi.
    + apply lookup_lt_Some in Hi.
      destruct IH as [(Hall & ls & -> & Hlen) | (Hex & ->)].
      * left. split; [now constructor |]. exists (l :: ls). simpl. auto.
      * right. split; [now apply Exists_cons_tl | reflexivity].
    + apply lookup_ge_None in Hi. right. split; [now apply Exists_cons_hd | reflexivity].
Qed.

Lemma Counter_nil ls : Counter ls = [] -> ls = [].
Proof.
  intros Hc. destruct ls as [|x ls]; [reflexivity |].
  destruct (counts_Counter (x :: ls)) as (_ & _ & Htally).
  specialize (Htally x). rewrite Hc, occurrences_cons, label_eqb_refl in Htally.
  simpl in Htally. lia.
Qed.

Lemma int_truediv_cases a b :
  match int_truediv a b with
  | Raise ZeroDivisionError => b = 0
  | Raise OverflowError => b <> 0
  | Raise _ => False
  | Ok _ => b <> 0
  end.
Proof.
  unfold int_truediv. destruct (Z.eqb_spec b 0); [assumption |].
  now destruct (F64.is_infinite _).
Qed.

(** X5. When the vote of one token fails. It raises [IndexError] exactly
    when the token has no neighbour or a neighbour index lies outside the
    list of labels; it raises [ZeroDivisionError] exactly when the token
    has neighbours, all of them in range, and [k] is [0]; the only other
    exception it can raise is the [OverflowError] of the int division. *)
Theorem token_vote_failures k labels tn :
  (token_vote k labels tn = Raise IndexError
   <-> tn = [] \/ Exists (fun i => (length labels <= i)%nat) tn)
  /\ (token_vote k labels tn = Raise ZeroDivisionError
      <-> tn <> [] /\ Forall (fun i => (i < length labels)%nat) tn /\ k = 0)
  /\ (forall e, token_vote k labels tn = Raise e ->
        e = IndexError \/ e = ZeroDivisionError \/ e = OverflowError).
Proof.
  assert (Hexcl : Forall (fun i => (i < length labels)%nat) tn ->
                  Exists (fun i => (length labels <= i)%nat) tn -> False).
  { intros Hall Hex. apply Exists_exists in Hex as (i & Hi & Hge).
    rewrite Forall_forall in Hall. specialize (Hall i Hi). lia. }
  unfold token_vote.
  destruct (lookup_all_cases labels tn) as [(Hall & ls & -> & Hlen) | (Hex & ->)].
  - pose proof (most_common_head (Counter ls)) as Hhead.
    destruct (most_common (Counter ls)) as [|[l n] rest].
    + apply Counter_nil in Hhead. subst ls.
      destruct tn; [| discriminate].
      split; [| split].
      * split; auto.
      * split; [discriminate | now intros [? _]].
      * intros e [= <-]. auto.
    + assert (Htn : tn <> []) by (intros ->; now destruct ls).
      pose proof (int_truediv_cases (Z.of_nat n) k) as Hdiv.
      destruct (int_truediv (Z.of_nat n) k) as [c | e].
      * split; [| split].
        -- split; [discriminate | intros [? | ?]; [congruence | now destruct Hexcl]].
        -- split; [discriminate | intros (_ & _ & ?); congruence].
        -- discriminate.
      * destruct e; try contradiction.
        -- split; [| split].
           ++ split; [discriminate | intros [? | ?]; [congruence | now destruct Hexcl]].
           ++ split; auto.
           ++ intros e [= <-]. auto.
        -- split; [| split].
           ++ split; [discriminate | intros [? | ?]; [congruence | now destruct Hexcl]].
           ++ split; [discriminate | intros (_ & _ & ?); congruence].
           ++ intros e [= <-]. auto.
  - split; [| split].
    + split; auto.
    + split; [discriminate | intros (_ & Hall & _); now destruct Hexcl].
    + intros e [= <-]. auto.
Qed.

Lemma kept_from (a : nat) (l : list label) (m : label) :
  let ks := map fst (filter (fun jx : nat * label => label_eqb jx.2 m = true)
                       (zip (seq a (length l)) l)) in
  StronglySorted lt ks
  /\ Forall (fun j => (a <= j)%nat) ks
  /\ length ks = occurrences m l.
Proof.
  revert a. induction l as [|x l IH]; intros a; simpl.
  - split; [constructor |]. split; [constructor | reflexivity].
  - destruct (IH (S a)) as (Hs & Hge & Hlen).
    rewrite occurrences_cons. rewrite filter_cons. simpl.
    destruct (decide (label_eqb x m = true)) as [Heq | Hne].
    + rewrite Heq. simpl. split; [| split].
      * constructor; [exact Hs |].
        eapply Forall_impl; [exact Hge |]. simpl. intros j Hj. lia.
      * constructor; [lia |].
        eapply Forall_impl; [exact Hge |]. simpl. intros j Hj. lia.
      * now rewrite Hlen.
    + apply not_true_is_false in Hne. rewrite Hne. simpl. split; [exact Hs |].
      split; [| exact Hlen].
      eapply Forall_impl; [exact Hge |]. simpl. intros j Hj. lia.
Qed.

(** What [tokens_to_keep] keeps for the models of a pool. *)
Lemma kept_for_a_pool (pool mpt : list label) :
  (forall j,
     (exists m, m ∈ pool /\ j ∈ tokens_to_keep mpt m)
     <-> exists x, mpt !! j = Some x /\ x ∈ pool)
  /\ ((forall j, (j < length mpt)%nat ->
         exists m, m ∈ pool /\ j ∈ tokens_to_keep mpt m)
      <-> forall x, x ∈ mpt -> x ∈ pool)
  /\ ((forall x, x ∈ mpt -> x ∉ pool) ->
      forall m, m ∈ pool -> tokens_to_keep mpt m = []).
Proof.
  split; [| split].
  - intros j. split; intros (m & H1 & H2).
    + exists m. split; [now apply tokens_to_keep_spec | exact H1].
    + exists m. split; [exact H2 | now apply tokens_to_keep_spec].
  - split.
    + intros Hcover x Hx. apply list_elem_of_lookup in Hx as [j Hj].
      destruct (Hcover j (lookup_lt_Some _ _ _ Hj)) as (m & Hm & Hin).
      apply tokens_to_keep_spec in Hin. congruence.
    + intros Hpool j Hj. destruct (lookup_lt_is_Some_2 mpt j Hj) as [x Hx].
      exists x. split; [| now apply tokens_to_keep_spec].
      apply Hpool. now apply list_elem_of_lookup_2 in Hx.
  - intros Hnone m Hm.
    destruct (tokens_to_keep mpt m) as [|j ks] eqn:Hks; [reflexivity |].
    assert (Hj : j ∈ tokens_to_keep mpt m) by (rewrite Hks; left).
    apply tokens_to_keep_spec in Hj.
    exfalso. apply (Hnone m); [| exact Hm].
    now apply list_elem_of_lookup_2 in Hj.
Qed.

(** The [validate_prompt] calls among the calls of [loss_evaluation]. *)
Lemma validate_prompt_calls (cfg : settings) (mpt : list label) args :
  Call_validate_prompt args
    ∈ [Call_prompt_token_drop_out; Call_validate_soft_prompt_on_multiple_models]
      ++ flat_map (prescribed_calls cfg mpt) (model_numbers cfg)
  <-> exists m,
        m ∈ model_numbers cfg
        /\ (args = masked_args cfg mpt m \/ args = compressed_args cfg mpt m).
Proof.
  rewrite elem_of_app, (list_elem_of_In (flat_map _ _)), in_flat_map. split.
  - intros [Hin | (m & Hm & Hin)].
    + apply elem_of_cons in Hin as [Heq | Hin]; [discriminate |].
      apply elem_of_cons in Hin as [Heq | Hin]; [discriminate |].
      now apply elem_of_nil in Hin.
    + exists m. split; [now apply list_elem_of_In |].
      destruct Hin as [Heq | [Heq | []]]; injection Heq as <-; auto.
  - intros (m & Hm & Hargs). right. exists m.
    split; [now apply list_elem_of_In |].
    destruct Hargs as [-> | ->]; simpl; auto.
Qed.

(** X6. The tokens that a completed [loss_evaluation] keeps. Every
    [validate_prompt] call is for a model of [model_numbers] and keeps
    exactly the positions that the assignment gives to this model, in
    increasing order, so no position is kept for two different models.
    The positions kept in some call are exactly the positions whose label
    is one of [model_numbers]: the calls cover the prompt exactly when
    every label of the assignment is in [model_numbers], and when no
    label is (a pool of strs, as [main] builds it, against int labels)
    every call keeps the empty list. *)
Theorem kept_tokens_partition_the_prompt `{Collaborators} (cfg : settings) w w' :
  loss_evaluation cfg w = (Ok tt, w') ->
  exists mpt calls,
    model_per_token (self w') = Some mpt
    /\ trace w' = trace w ++ calls
    /\ (forall args, Call_validate_prompt args ∈ calls ->
          ShortenArgs.model_number args ∈ model_numbers cfg
          /\ StronglySorted lt (ShortenArgs.dropped_out_tokens args)
          /\ length (ShortenArgs.dropped_out_tokens args)
             = occurrences (ShortenArgs.model_number args) mpt
          /\ forall j,
               j ∈ ShortenArgs.dropped_out_tokens args
               <-> mpt !! j = Some (ShortenArgs.model_number args))
    /\ (forall j,
          kept_in calls j <-> exists x, mpt !! j = Some x /\ x ∈ model_numbers cfg)
    /\ ((forall j, (j < length mpt)%nat -> kept_in calls j)
        <-> forall x, x ∈ mpt -> x ∈ model_numbers cfg)
    /\ ((forall x, x ∈ mpt -> x ∉ model_numbers cfg) ->
        forall args, Call_validate_prompt args ∈ calls ->
          ShortenArgs.dropped_out_tokens args = []).
Proof.
  intros Hrun.
  destruct (loss_evaluation_ok cfg w w' Hrun)
    as (mpt & mlpt & iml & xs & ys & _ & _ & _ & _ & Hself & _ & Htrace).
  destruct (kept_for_a_pool (model_numbers cfg) mpt) as (Hkept & Hcover & Hnone).
  assert (Hargs : forall args m,
            args = masked_args cfg mpt m \/ args = compressed_args cfg mpt m ->
            ShortenArgs.model_number args = m
            /\ ShortenArgs.dropped_out_tokens args = tokens_to_keep mpt m).
  { intros args m [-> | ->]; split; reflexivity. }
  assert (Hin : forall j,
            kept_in ([Call_prompt_token_drop_out;
                      Call_validate_soft_prompt_on_multiple_models]
                     ++ flat_map (prescribed_calls cfg mpt) (model_numbers cfg)) j
            <-> exists m, m ∈ model_numbers cfg /\ j ∈ tokens_to_keep mpt m).
  { intros j. unfold kept_in. split.
    - intros (args & Hcall & Hj).
      apply validate_prompt_calls in Hcall as (m & Hm & Hcase).
      destruct (Hargs args m Hcase) as [_ Hkeep]. rewrite Hkeep in Hj. eauto.
    - intros (m & Hm & Hj). exists (masked_args cfg mpt m). split; [| exact Hj].
      apply validate_prompt_calls. eauto. }
  eexists mpt, _. split; [now rewrite Hself |]. split; [exact Htrace |].
  split; [| split; [| split]].
  - intros args Hcall.
    apply validate_prompt_calls in Hcall as (m & Hm & Hcase).
    destruct (Hargs args m Hcase) as [-> ->].
    split; [exact Hm |]. split; [apply (kept_from 0 mpt m) |].
    split; [apply (kept_from 0 mpt m) | intros j; apply tokens_to_keep_spec].
  - intros j. rewrite Hin. apply Hkept.
  - rewrite <- Hcover. split; intros Hall j Hj; apply Hin, Hall, Hj.
  - intros Hno args Hcall.
    apply validate_prompt_calls in Hcall as (m & Hm & Hcase).
    destruct (Hargs args m Hcase) as [_ ->]. now apply Hnone.
Qed.

Lemma kept_tokens_witness :
  let w' := (loss_evaluation (H := Demo.env) Demo.cfg Demo.fresh).2 in
  loss_evaluation (H := Demo.env) Demo.cfg Demo.fresh = (Ok tt, w')
  /\ exists mpt calls,
       model_per_token (self w') = Some mpt
       /\ trace w' = trace Demo.fresh ++ calls
       /\ ((forall j, (j < length mpt)%nat -> kept_in calls j)
           <-> forall x, x ∈ mpt -> x ∈ model_numbers Demo.cfg).
Proof.
  intros w'.
  assert (Hrun : loss_evaluation (H := Demo.env) Demo.cfg Demo.fresh = (Ok tt, w'))
    by (vm_compute; reflexivity).
  split; [exact Hrun |].
  destruct (kept_tokens_partition_the_prompt (H := Demo.env) Demo.cfg
              Demo.fresh w' Hrun)
    as (mpt & calls & Hmpt & Htrace & _ & _ & Hcover & _).
  exact (ex_intro _ mpt (ex_intro _ calls (conj Hmpt (conj Htrace Hcover)))).
Defined.

Lemma votes_of_nil_inv k labels nn : votes_of k labels nn = Ok [] -> nn = [].
Proof.
  destruct nn as [|tn nn]; [reflexivity |]. simpl.
  destruct (token_vote k labels tn); [| discriminate].
  destruct (votes_of k labels nn); discriminate.
Qed.

(** X7. [nn_evaluation] needs a token and the assignment of
    [loss_evaluation]. When the embedding collaborators and both votes
    succeed but the prompt has no token, it raises [ZeroDivisionError];
    when there are tokens but [model_per_token] was never assigned, it
    raises [AttributeError]. In both cases the four collaborator calls
    have been made and both vote attributes have been assigned, and no
    accuracy has. *)
Theorem nn_evaluation_needs_tokens_and_loss_labels `{Collaborators}
  (cfg : settings) w spaces labels weight nn_euc nn_cos euc cos :
  get_model_embedding_spaces (model_names cfg) = Ok (spaces, labels) ->
  load_soft_prompt_weight (soft_prompt_name cfg) = Ok weight ->
  get_k_nearest_neighbors_for_all_tokens Euclidean weight spaces (k cfg)
  = Ok nn_euc ->
  get_k_nearest_neighbors_for_all_tokens Cosine weight spaces (k cfg)
  = Ok nn_cos ->
  votes_of (k cfg) labels nn_euc = Ok euc ->
  votes_of (k cfg) labels nn_cos = Ok cos ->
  nn_euc = [] \/ model_per_token (self w) = None ->
  nn_evaluation cfg w
  = (Raise (if decide (nn_euc = []) then ZeroDivisionError else AttributeError),
     {| self := set_cos_nn_votes (Votes cos) (set_euc_nn_votes (Votes euc) (self w));
        files := files w;
        trace := trace w ++ nn_calls |}).
Proof.
  intros Hspaces Hweight Hnn_euc Hnn_cos Heuc Hcos Hcase.
  unfold nn_evaluation, nearest_neighbor_vote.
  unfold mbind, M_bind, bind, invoke, lift, assign, with_attr.
  rewrite Hspaces. cbn [fst snd with_trace with_self self files trace].
  rewrite Hweight. cbn [fst snd with_trace with_self self files trace].
  rewrite Hnn_euc, Heuc. cbn [fst snd with_trace with_self self files trace].
  rewrite Hnn_cos, Hcos. cbn [fst snd with_trace with_self self files trace].
  change (model_per_token (set_cos_nn_votes (Votes cos)
            (set_euc_nn_votes (Votes euc) (self w))))
    with (model_per_token (self w)).
  destruct (decide (nn_euc = [])) as [-> | Hne].
  - injection Heuc as <-. rewrite accuracy_nil.
    unfold with_self, with_trace, nn_calls. simpl. now rewrite <- !app_assoc.
  - destruct Hcase as [-> | Hnone]; [congruence |].
    destruct euc as [|v euc]; [apply votes_of_nil_inv in Heuc; congruence |].
    rewrite Hnone, accuracy_unset.
    unfold with_self, with_trace, nn_calls. simpl. now rewrite <- !app_assoc.
Qed.

Lemma nn_evaluation_before_loss_evaluation :
  exists w',
    nn_evaluation (H := Demo.env) Demo.cfg Demo.fresh = (Raise AttributeError, w')
    /\ trace w' = nn_calls
    /\ euc_accuracy (self w') = None.
Proof.
  eexists. split.
  - refine (nn_evaluation_needs_tokens_and_loss_labels (H := Demo.env)
              Demo.cfg Demo.fresh tt Demo.row_labels tt
              (Demo.neighbors Euclidean) (Demo.neighbors Cosine)
              (r_euc_nn_votes Demo.report) (r_cos_nn_votes Demo.report)
              _ _ _ _ _ _ _);
      first [ reflexivity | vm_compute; reflexivity | right; reflexivity ].
  - split; reflexivity.
Defined.

Section Appending.

Context `{Collaborators}.
Variable cfg : settings.
Variable path : string.

Lemma appends_nothing {A} (m : M A) :
  (forall w, (m w).2 = w) -> appends path m 0 false.
Proof.
  intros Hm w rows Hfile. exists []. rewrite Hm, app_nil_r.
  split; [now rewrite insert_id |]. split; [reflexivity |].
  split; [reflexivity |]. now destruct (m w).1.
Qed.

Lemma appends_get_attr {A} (attr : report -> option A) :
  appends path (get_attr attr) 0 false.
Proof.
  apply appends_nothing. intros w. unfold get_attr. now destruct (attr (self w)).
Qed.

Lemma appends_lift {A} (r : result A) : appends path (lift r) 0 false.
Proof. now apply appends_nothing. Qed.

Lemma appends_writerow row : appends path (writerow path row) 1 true.
Proof.
  intros w rows Hfile. exists [row]. unfold writerow. simpl.
  split; [| auto].
  rewrite <- (insert_id (files w) path rows Hfile) at 1.
  now rewrite alter_insert_eq.
Qed.

Lemma appends_bind {A B} (m : M A) (f : A -> M B) (a b : nat) :
  appends path m a false ->
  (forall x, appends path (f x) b true) ->
  (0 < b)%nat ->
  appends path (m ≫= f) (a + b) true.
Proof.
  intros Hm Hf Hb w rows Hfile.
  destruct (Hm w rows Hfile) as (added1 & Hfiles1 & Hself1 & Htrace1 & Hn1).
  unfold mbind, M_bind, bind. destruct (m w) as [[x | e] w1]; simpl in *.
  - destruct (Hf x w1 (rows ++ added1)) as (added2 & Hfiles2 & Hself2 & Htrace2 & Hn2).
    { rewrite Hfiles1. apply lookup_insert_eq. }
    exists (added1 ++ added2).
    rewrite Hfiles2, Hfiles1, insert_insert_eq, app_assoc, Hself2, Htrace2.
    split; [reflexivity |]. split; [assumption |]. split; [assumption |].
    rewrite length_app. destruct (f x w1).1; lia.
  - exists added1. repeat split; auto. lia.
Qed.

Lemma appends_write_scalar name attr :
  appends path (write_scalar path name attr) 1 true.
Proof.
  apply (appends_bind _ _ 0 1); [apply appends_get_attr | | lia].
  intros x. apply appends_writerow.
Qed.

Lemma appends_write_losses name attr :
  appends path (write_losses path name attr) 1 true.
Proof.
  apply (appends_bind _ _ 0 1); [apply appends_get_attr | | lia].
  intros l. apply (appends_bind _ _ 0 1); [apply appends_lift | | lia].
  intros m. apply appends_writerow.
Qed.

Lemma appends_weaken {A} (m : M A) n : appends path m n true -> appends path m n false.
Proof.
  intros Hm w rows Hfile. destruct (Hm w rows Hfile) as (added & ? & ? & ? & Hn).
  exists added. repeat split; auto. destruct (m w).1; lia.
Qed.

Ltac appends_step :=
  first
    [ apply appends_write_losses
    | apply appends_write_scalar
    | apply appends_writerow
    | eapply appends_bind;
      [ first [ apply appends_get_attr | apply appends_lift
              | apply appends_weaken;
                first [apply appends_writerow | apply appends_write_scalar
                      | apply appends_write_losses] ]
      | intros ?
      | ] ].

(** What [save_results] does to the world, whatever the attributes hold:
    the file at [path] is replaced, by eighteen rows when the method
    completes and by fewer when it raises. *)
Lemma save_results_writes w :
  exists rows,
    files (save_results cfg path w).2 = <[path := rows]> (files w)
    /\ self (save_results cfg path w).2 = self w
    /\ trace (save_results cfg path w).2 = trace w
    /\ match (save_results cfg path w).1 with
       | Ok _ => length rows = 18%nat
       | Raise _ => (length rows < 18)%nat
       end.
Proof.
  unfold save_results.
  change ((open_w path ≫= _) w) with
    ((fun rest : M unit => rest (with_files (insert path []) w))
       (writerow path ("token id" :: range_cells (prompt_length cfg));;
        mpt ← get_attr model_per_token;
        writerow path ("Loss assignment" :: map str_of_label mpt);;
        euc ← get_attr euc_nn_votes;
        cells ← lift (assignment_cells euc);
        writerow path ("Euclidean assignment" :: cells);;
        cos ← get_attr cos_nn_votes;
        cells ← lift (assignment_cells cos);
        writerow path ("Cosine assignment" :: cells);;
        mlpt ← get_attr model_loss_per_token;
        writerow path ("Loss" :: num_cells mlpt);;
        euc ← get_attr euc_nn_votes;
        cells ← lift (certainty_cells euc);
        writerow path ("Euclidean certanty" :: cells);;
        cos ← get_attr cos_nn_votes;
        cells ← lift (certainty_cells cos);
        writerow path ("Cosine certanty" :: cells);;
        writerow path [""];;
        write_scalar path "Euclidean accuracy" euc_accuracy;;
        write_scalar path "Cosine accuracy" cos_accuracy;;
        write_scalar path "Euclidean weighted accuracy" euc_waccuracy;;
        write_scalar path "Cosine weighted accuracy" cos_waccuracy;;
        write_scalar path "Euclidean to cosine accuracy" euc_to_cos_accuracy;;
        writerow path [""];;
        writerow path ("Prompt compression" :: model_names cfg ++ ["average"]);;
        write_losses path "Normal prompt length" masked_loss;;
        write_losses path "Shortened prompt length" compressed_loss;;
        write_losses path "One model loss" individual_model_loss)).
  cbv beta.
  match goal with
  | |- context [ ?m (with_files (insert path []) w) ] =>
      assert (Hbody : exists n, n = 18%nat /\ appends path m n true)
  end.
  { eexists. split; cycle 1.
    - repeat appends_step; lia.
    - reflexivity. }
  destruct Hbody as (n & -> & Hbody).
  destruct (Hbody (with_files (insert path []) w) []) as (added & Hfiles & Hself & Htrace & Hn).
  { simpl. apply lookup_insert_eq. }
  exists added. simpl in Hfiles. rewrite insert_insert_eq in Hfiles.
  rewrite Hfiles, Hself, Htrace. repeat split; auto.
Qed.

End Appending.

Section StoreEdges.

Context `{Collaborators}.
Variable cfg : settings.

(** X8. Whatever the attributes hold, and whether [open] is refused, the
    body raises or the method completes, [save_results] changes no
    attribute, calls no collaborator and leaves every other file as it
    is. When [open] is refused, [save_results] raises that exception and
    no file is created or truncated. When the file is opened, it exists
    afterwards, with eighteen rows when the method completed and with
    fewer when it raised: its earlier content is gone in both cases. *)
Theorem save_results_footprint refusal path w :
  self (save_results_os cfg refusal path w).2 = self w
  /\ trace (save_results_os cfg refusal path w).2 = trace w
  /\ (forall p, p <> path ->
        files (save_results_os cfg refusal path w).2 !! p = files w !! p)
  /\ match refusal with
     | Some e =>
         (save_results_os cfg refusal path w).1 = Raise e
         /\ files (save_results_os cfg refusal path w).2 = files w
     | None =>
         exists rows,
           files (save_results_os cfg refusal path w).2 !! path = Some rows
           /\ match (save_results_os cfg refusal path w).1 with
              | Ok _ => length rows = 18%nat
              | Raise _ => (length rows < 18)%nat
              end
     end.
Proof.
  destruct refusal as [e |]; simpl.
  - repeat split; reflexivity.
  - destruct (save_results_writes cfg path w)
      as (rows & Hfiles & Hself & Htrace & Hn).
    split; [exact Hself |]. split; [exact Htrace |]. split.
    + intros p Hp. rewrite Hfiles. now apply lookup_insert_ne.
    + exists rows. split; [| exact Hn]. rewrite Hfiles. apply lookup_insert_eq.
Qed.

Lemma short_file_not_loadable rows : (length rows < 18)%nat -> loadable rows = false.
Proof.
  intros Hlen. unfold loadable.
  assert (H17 : numbers_row rows 17 = false).
  { unfold numbers_row. now rewrite lookup_ge_None_2 by lia. }
  rewrite H17. now rewrite !andb_false_r.
Qed.

Lemma unloadable_file_blocks later rows w :
  files w !! save_path cfg = Some rows ->
  loadable rows = false ->
  exists e w',
    token_relevance_evaluation_os cfg later w = (Raise e, w')
    /\ (e = IndexError \/ e = ValueError)
    /\ trace w' = trace w
    /\ files w' = files w.
Proof.
  intros Hfile Hbad.
  pose proof (read_rows_decided _ _ _ Hfile) as Hread.
  pose proof (read_from_csv_keeps_files (save_path cfg) w) as Hfiles.
  pose proof (read_from_csv_keeps_trace (save_path cfg) w) as Htrace.
  rewrite Hbad in Hread. destruct Hread as (e & w' & Hread & He).
  unfold token_relevance_evaluation_os, try_except. rewrite Hread in *.
  exists e, w'. destruct (decide (e = FileNotFoundError)) as [-> | _].
  - destruct He; discriminate.
  - repeat split; auto.
Qed.

Lemma missing_file_starts_the_pipeline later w :
  files w !! save_path cfg = None ->
  token_relevance_evaluation_os cfg later w
  = (loss_evaluation cfg;; nn_evaluation cfg;;
     save_results_os cfg later (save_path cfg)) w.
Proof.
  intros Hmiss. unfold token_relevance_evaluation_os, try_except.
  rewrite (read_from_csv_miss _ _ Hmiss).
  destruct (decide (FileNotFoundError = FileNotFoundError)); [reflexivity | congruence].
Qed.

(** X9. A [save_results] that raises after it has opened the file leaves
    a file that cannot be loaded: every later [token_relevance_evaluation]
    that finds this file raises [IndexError] or [ValueError], calls no
    collaborator and writes nothing, so the results are never recomputed
    while the file stays. A [save_results] that raises because [open] was
    refused leaves the world as it was: when the file was missing it is
    still missing, and the next run is the whole pipeline again. *)
Theorem failed_save_blocks_later_runs refusal w e w1 :
  save_results_os cfg refusal (save_path cfg) w = (Raise e, w1) ->
  match refusal with
  | None =>
      forall later w2,
        files w2 !! save_path cfg = files w1 !! save_path cfg ->
        exists e' w3,
          token_relevance_evaluation_os cfg later w2 = (Raise e', w3)
          /\ (e' = IndexError \/ e' = ValueError)
          /\ trace w3 = trace w2
          /\ files w3 = files w2
  | Some refused =>
      e = refused
      /\ w1 = w
      /\ (files w !! save_path cfg = None ->
          forall later,
            token_relevance_evaluation_os cfg later w1
            = (loss_evaluation cfg;; nn_evaluation cfg;;
               save_results_os cfg later (save_path cfg)) w1)
  end.
Proof.
  intros Hsave. destruct refusal as [refused |]; simpl in Hsave.
  - injection Hsave as <- <-. split; [reflexivity |]. split; [reflexivity |].
    intros Hmiss later. now apply missing_file_starts_the_pipeline.
  - intros later w2 Hsame.
    destruct (save_results_writes cfg (save_path cfg) w)
      as (rows & Hfiles & _ & _ & Hn).
    rewrite Hsave in Hfiles, Hn. simpl in Hfiles, Hn.
    apply (unloadable_file_blocks later rows).
    + rewrite Hsame, Hfiles. apply lookup_insert_eq.
    + now apply short_file_not_loadable.
Qed.

Lemma str_cells_raise i cells e :
  result_map (fun s => str_index s i) cells = Raise e -> e = IndexError.
Proof.
  induction cells as [|c cells IH]; [discriminate |].
  change (result_map (fun s => str_index s i) (c :: cells))
    with (rbind (str_index c i)
            (fun y => rbind (result_map (fun s => str_index s i) cells)
                        (fun ys => Ok (y :: ys)))).
  unfold str_index at 1. destruct (String.get i c); simpl.
  - destruct (result_map _ cells); [discriminate |].
    intros [= <-]. now apply IH.
  - now intros [= <-].
Qed.

Lemma short_cell_raises i cells :
  Exists (fun s => (String.length s <= i)%nat) cells ->
  result_map (fun s => str_index s i) cells = Raise IndexError.
Proof.
  intros Hex.
  destruct (result_map (fun s => str_index s i) cells) as [ys | e] eqn:Hmap.
  - apply Exists_exists in Hex as (s & Hs & Hlen).
    destruct (result_map_all _ _ _ Hmap s Hs) as (y & Hy).
    unfold str_index in Hy.
    destruct (String.get i s) eqn:Hget; [| discriminate].
    assert (String.get i s = None) as Hnone.
    { clear -Hlen. revert i Hlen. induction s as [|a s IH]; intros i Hlen; [now destruct i |].
      destruct i as [|i]; simpl in *; [lia |]. apply IH. lia. }
    congruence.
  - f_equal. now apply (str_cells_raise i cells).
Qed.

(** X10. Saving what was loaded fails. After [read_from_csv] the vote
    attributes hold the label texts, so [save_results] writes the first
    character of each text as the assignment and asks for the second
    character as the certainty: when some Euclidean label text is shorter
    than two characters it raises [IndexError], after it has truncated
    the file, which is left with fewer than eighteen rows. *)
Theorem resaving_a_loaded_report_raises (r : EvaluationReport) path w :
  self w = loaded_attributes r ->
  Exists (fun v => (String.length (str_of_label v.1) < 2)%nat) (r_euc_nn_votes r) ->
  exists w' rows,
    save_results cfg path w = (Raise IndexError, w')
    /\ self w' = self w
    /\ files w' !! path = Some rows
    /\ (length rows < 18)%nat.
Proof.
  intros Hself Hshort.
  assert (Hres : (save_results cfg path w).1 = Raise IndexError).
  { destruct w as [s fs tr]. simpl in Hself. subst s.
    unfold save_results, write_scalar, write_losses, mbind, M_bind, bind,
      open_w, writerow, get_attr, lift, with_files.
    cbn -[insert alter result_map str_index].
    destruct (result_map (fun s => str_index s 0)
                (map (fun v => str_of_label v.1) (r_euc_nn_votes r)))
      as [cells1 | e1] eqn:H1; [| now rewrite (str_cells_raise _ _ _ H1)].
    cbn -[insert alter result_map str_index].
    destruct (result_map (fun s => str_index s 0)
                (map (fun v => str_of_label v.1) (r_cos_nn_votes r)))
      as [cells2 | e2] eqn:H2; [| now rewrite (str_cells_raise _ _ _ H2)].
    cbn -[insert alter result_map str_index].
    rewrite short_cell_raises; [reflexivity |].
    apply Exists_exists in Hshort as (v & Hv & Hlen).
    apply Exists_exists. exists (str_of_label v.1). split; [| lia].
    apply list_elem_of_fmap. exists v. split; [reflexivity |]. exact Hv. }
  destruct (save_results_writes cfg path w) as (rows & Hfiles & Hself' & _ & Hn).
  destruct (save_results cfg path w) as [res w'] eqn:Hrun. simpl in *. subst res.
  exists w', rows. split; [reflexivity |]. split; [exact Hself' |].
  split; [| exact Hn]. rewrite Hfiles. apply lookup_insert_eq.
Qed.

Lemma read_rows_inv path w rows w1 :
  read_rows path w = (Ok rows, w1) -> files w !! path = Some rows /\ w1 = w.
Proof.
  unfold read_rows. destruct (files w !! path); intros [= <- <-]; auto.
Qed.

Lemma read_from_csv_ok path w w' :
  read_from_csv path w = (Ok tt, w') -> complete (self w').
Proof.
  unfold read_from_csv, read_losses, read_scalar. intros Hrun.
  repeat match goal with
         | H : (_ ≫= _) _ = (Ok _, _) |- _ =>
             apply bind_inv_ok in H as (? & ? & ? & ?)
         | H : lift _ _ = (Ok _, _) |- _ => apply lift_inv in H as [? ->]
         | H : assign _ _ = (Ok _, _) |- _ => apply assign_inv in H; subst
         | H : read_rows _ _ = (Ok _, _) |- _ => apply read_rows_inv in H as [? ->]
         end.
  unfold complete. simpl. repeat split; eexists; reflexivity.
Qed.

Lemma completed_evaluation_attributes w w' :
  token_relevance_evaluation cfg w = (Ok tt, w') -> complete (self w').
Proof.
  intros Hrun. destruct (files w !! save_path cfg) as [rows|] eqn:Hfile.
  - pose proof (read_rows_decided _ _ _ Hfile) as Hread.
    unfold token_relevance_evaluation, try_except in Hrun.
    destruct (loadable rows).
    + destruct Hread as (w1 & Hread). rewrite Hread in *.
      injection Hrun as <-. now apply (read_from_csv_ok _ _ _ Hread).
    + destruct Hread as (e & w1 & Hread & He). rewrite Hread in Hrun.
      destruct (decide (e = FileNotFoundError)) as [-> | _];
        [destruct He |]; discriminate.
  - destruct (first_invocation cfg w w' Hfile Hrun) as (r & Hself & _).
    rewrite Hself. unfold complete. simpl. repeat split; eexists; reflexivity.
Qed.

(** X11. After a completed [token_relevance_evaluation] every attribute
    of the evaluator is set and the result file exists. When the file was
    missing the attributes hold a computed report; when it was there, the
    run changed no file and called no collaborator, and the assignment
    and both vote attributes hold text cells, not labels and (label,
    certainty) pairs. *)
Theorem completed_evaluation_sets_every_attribute w w' :
  token_relevance_evaluation cfg w = (Ok tt, w') ->
  complete (self w')
  /\ is_Some (files w' !! save_path cfg)
  /\ match files w !! save_path cfg with
     | None => exists r, self w' = attributes_of r
     | Some rows =>
         files w' = files w
         /\ trace w' = trace w
         /\ exists labels euc cos,
              model_per_token (self w') = Some (map LStr labels)
              /\ euc_nn_votes (self w') = Some (VoteCells euc)
              /\ cos_nn_votes (self w') = Some (VoteCells cos)
     end.
Proof.
  intros Hrun. split; [now apply (completed_evaluation_attributes w) |].
  destruct (files w !! save_path cfg) as [rows|] eqn:Hfile.
  - pose proof (read_rows_decided _ _ _ Hfile) as Hread.
    pose proof (read_from_csv_keeps_files (save_path cfg) w) as Hfiles.
    pose proof (read_from_csv_keeps_trace (save_path cfg) w) as Htrace.
    unfold token_relevance_evaluation, try_except in Hrun.
    destruct (loadable rows).
    + destruct Hread as (w1 & Hread). rewrite Hread in *.
      injection Hrun as <-. simpl in Hfiles, Htrace.
      split; [rewrite Hfiles, Hfile; now eexists |].
      split; [exact Hfiles |]. split; [exact Htrace |].
      clear Hfiles Htrace.
      unfold read_from_csv, read_losses, read_scalar in Hread.
      repeat match goal with
             | H : (_ ≫= _) _ = (Ok _, _) |- _ =>
                 apply bind_inv_ok in H as (? & ? & ? & ?)
             | H : lift _ _ = (Ok _, _) |- _ => apply lift_inv in H as [? ->]
             | H : assign _ _ = (Ok _, _) |- _ => apply assign_inv in H; subst
             | H : read_rows _ _ = (Ok _, _) |- _ => apply read_rows_inv in H as [? ->]
             end.
      simpl. eexists _, _, _. repeat split; reflexivity.
    + destruct Hread as (e & w1 & Hread & He). rewrite Hread in Hrun.
      destruct (decide (e = FileNotFoundError)) as [-> | _];
        [destruct He |]; discriminate.
  - destruct (first_invocation cfg w w' Hfile Hrun) as (r & Hself & Hfiles & _).
    split; [rewrite Hfiles, lookup_insert_eq; now eexists |].
    now exists r.
Qed.

(** X12. Loading is not atomic. When the rows 1 to 4 of the file exist
    and a cell of row 4 does not parse as a float, [read_from_csv] raises
    [ValueError] and leaves the evaluator with the assignment and both
    vote attributes taken from the file and with the raw text cells of
    row 4 in [model_loss_per_token]; the other attributes, the files and
    the trace are as before. *)
Theorem failed_load_keeps_what_it_read path w rows r1 r2 r3 r4 :
  files w !! path = Some rows ->
  rows !! 1%nat = Some r1 -> rows !! 2%nat = Some r2 ->
  rows !! 3%nat = Some r3 -> rows !! 4%nat = Some r4 ->
  Exists (fun cell => float_parse cell = None) (drop 1 r4) ->
  read_from_csv path w
  = (Raise ValueError,
     {| self := set_model_loss_per_token (NumCells (drop 1 r4))
                  (set_cos_nn_votes (VoteCells (drop 1 r3))
                     (set_euc_nn_votes (VoteCells (drop 1 r2))
                        (set_model_per_token (map LStr (drop 1 r1)) (self w))));
        files := files w;
        trace := trace w |}).
Proof.
  intros Hfile H1 H2 H3 H4 Hbad.
  assert (Hcells : result_map to_float (drop 1 r4) = Raise ValueError).
  { pose proof (to_floats_decided (drop 1 r4)) as Hd.
    destruct (forallb parses (drop 1 r4)) eqn:Hall; [| exact Hd].
    rewrite forallb_forall in Hall.
    apply Exists_exists in Hbad as (cell & Hin & Hnone).
    apply list_elem_of_In in Hin.
    specialize (Hall cell Hin). unfold parses in Hall. now rewrite Hnone in Hall. }
  destruct w as [s fs tr]. simpl in Hfile.
  unfold read_from_csv, read_rows, read_losses, read_scalar, mbind, M_bind,
    bind, lift, assign, with_self, index.
  cbn -[lookup to_float result_map drop]. rewrite Hfile.
  cbn -[lookup to_float result_map drop]. rewrite H1.
  cbn -[lookup to_float result_map drop]. rewrite H2.
  cbn -[lookup to_float result_map drop]. rewrite H3.
  cbn -[lookup to_float result_map drop]. rewrite H4.
  cbn -[lookup to_float result_map drop]. rewrite Hcells.
  reflexivity.
Qed.

End StoreEdges.

Lemma failed_save_witness :
  exists e w1,
    save_results_os (H := Demo.env) Demo.cfg None (save_path Demo.cfg) Demo.fresh
    = (Raise e, w1)
    /\ exists e' w3,
         token_relevance_evaluation_os (H := Demo.env) Demo.cfg None w1
         = (Raise e', w3)
         /\ (e' = IndexError \/ e' = ValueError).
Proof.
  eexists _, _.
  assert (Hsave : save_results_os (H := Demo.env) Demo.cfg None
                    (save_path Demo.cfg) Demo.fresh
                  = (Raise AttributeError,
                     (save_results_os (H := Demo.env) Demo.cfg None
                        (save_path Demo.cfg) Demo.fresh).2))
    by (vm_compute; reflexivity).
  split; [exact Hsave |].
  destruct (failed_save_blocks_later_runs (H := Demo.env) Demo.cfg None _ _ _
              Hsave None _ eq_refl) as (e' & w3 & Hrun & He & _).
  exists e', w3. exact (conj Hrun He).
Defined.

Lemma resaving_witness :
  let w := {| self := loaded_attributes (H := Demo.env) Demo.report;
              files := ∅; trace := [] |} in
  Exists (fun v => (String.length (str_of_label v.1) < 2)%nat)
    (r_euc_nn_votes Demo.report)
  /\ exists w',
       save_results (H := Demo.env) Demo.cfg "report.csv" w = (Raise IndexError, w').
Proof.
  intros w.
  assert (Hshort : Exists (fun v => (String.length (str_of_label v.1) < 2)%nat)
                     (r_euc_nn_votes Demo.report))
    by (apply Exists_cons_hd; vm_compute; lia).
  split; [exact Hshort |].
  destruct (resaving_a_loaded_report_raises (H := Demo.env) Demo.cfg
              Demo.report "report.csv" w eq_refl Hshort)
    as (w' & rows & Hrun & _).
  exists w'. exact Hrun.
Defined.

Lemma completed_evaluation_witness :
  let w' := (token_relevance_evaluation (H := Demo.env) Demo.cfg Demo.fresh).2 in
  token_relevance_evaluation (H := Demo.env) Demo.cfg Demo.fresh = (Ok tt, w')
  /\ complete (self w').
Proof.
  intros w'.
  assert (Hrun : token_relevance_evaluation (H := Demo.env) Demo.cfg Demo.fresh
                 = (Ok tt, w')) by (vm_compute; reflexivity).
  split; [exact Hrun |].
  exact (proj1 (completed_evaluation_sets_every_attribute (H := Demo.env)
                  Demo.cfg Demo.fresh w' Hrun)).
Defined.

Lemma failed_load_witness :
  let rows := [ ["token id"; "0"]; ["Loss assignment"; "1"];
                ["Euclidean assignment"; "1"]; ["Cosine assignment"; "2"];
                ["Loss"; "n/a"] ] in
  let w := {| self := unset; files := {[ "report.csv" := rows ]}; trace := [] |} in
  exists w',
    read_from_csv (H := Demo.env) "report.csv" w = (Raise ValueError, w')
    /\ model_per_token (self w') = Some [LStr "1"]
    /\ model_loss_per_token (self w') = Some (NumCells ["n/a"])
    /\ euc_accuracy (self w') = None.
Proof.
  intros rows w. eexists. split.
  - refine (failed_load_keeps_what_it_read (H := Demo.env) "report.csv" w rows
              _ _ _ _ _ _ _ _ _ _); try reflexivity.
    apply Exists_cons_hd. reflexivity.
  - repeat split; reflexivity.
Defined.

Lemma append_nil_l (s : string) : "" +:+ s = s.
Proof. reflexivity. Qed.

Lemma append_assoc (a b c : string) : (a +:+ b) +:+ c = a +:+ (b +:+ c).
Proof.
  induction a as [|x a IH]; [reflexivity |].
  rewrite !append_cons. now rewrite IH.
Qed.

Lemma numeral_split s1 : forall s2 t1 t2,
  numeral s1 = true -> numeral s2 = true ->
  stops t1 = true -> stops t2 = true ->
  s1 +:+ t1 = s2 +:+ t2 ->
  s1 = s2 /\ t1 = t2.
Proof.
  induction s1 as [|c s1 IH]; intros [|d s2] t1 t2 Hs1 Hs2 Ht1 Ht2 Heq.
  - now rewrite !append_nil_l in Heq.
  - rewrite append_nil_l, append_cons in Heq. subst t1. simpl in Ht1, Hs2.
    apply andb_true_iff in Hs2 as [Hd _]. now rewrite Hd in Ht1.
  - rewrite append_nil_l, append_cons in Heq. subst t2. simpl in Ht2, Hs1.
    apply andb_true_iff in Hs1 as [Hc _]. now rewrite Hc in Ht2.
  - rewrite !append_cons in Heq. injection Heq as <- Heq.
    simpl in Hs1, Hs2.
    apply andb_true_iff in Hs1 as [_ Hs1]. apply andb_true_iff in Hs2 as [_ Hs2].
    destruct (IH s2 t1 t2 Hs1 Hs2 Ht1 Ht2 Heq) as [-> ->]. auto.
Qed.

Lemma pretty_N_char_numeral x : numeral_char (pretty_N_char x) = true.
Proof. unfold pretty_N_char. repeat case_match; reflexivity. Qed.

Lemma pretty_N_go_numeral x : forall s,
  numeral s = true -> numeral (pretty_N_go x s) = true.
Proof.
  induction (N.lt_wf_0 x) as [x _ IH]. intros s Hs.
  assert (x = 0 \/ 0 < x)%N as [-> | Hpos] by lia.
  - now rewrite pretty_N_go_0.
  - rewrite pretty_N_go_step by exact Hpos. apply IH.
    + now apply N.div_lt.
    + simpl. now rewrite pretty_N_char_numeral.
Qed.

Lemma pretty_N_go_length x : forall s,
  (String.length s <= String.length (pretty_N_go x s))%nat.
Proof.
  induction (N.lt_wf_0 x) as [x _ IH]. intros s.
  assert (x = 0 \/ 0 < x)%N as [-> | Hpos] by lia.
  - now rewrite pretty_N_go_0.
  - rewrite pretty_N_go_step by exact Hpos.
    etransitivity; [| apply IH; now apply N.div_lt]. simpl. lia.
Qed.

Lemma pretty_positive_numeral (p : positive) :
  numeral (pretty p) = true /\ pretty p <> "".
Proof.
  unfold pretty, pretty_positive, pretty, pretty_N.
  destruct (decide (N.pos p = 0%N)) as [|_]; [discriminate |].
  split; [now apply pretty_N_go_numeral |].
  rewrite pretty_N_go_step by lia.
  pose proof (pretty_N_go_length (N.pos p `div` 10)
                (String (pretty_N_char (N.pos p `mod` 10)) "")) as Hlen.
  intros Hempty. rewrite Hempty in Hlen. simpl in Hlen. lia.
Qed.

Lemma str_of_int_numeral z : numeral (str_of_int z) = true /\ str_of_int z <> "".
Proof.
  unfold str_of_int, pretty, pretty_Z. destruct z as [|p|p].
  - split; [reflexivity | discriminate].
  - apply pretty_positive_numeral.
  - rewrite append_cons. split; [| discriminate].
    simpl. rewrite append_nil_l. apply pretty_positive_numeral.
Qed.

Lemma concat_cons sep s (ss : list string) :
  String.concat sep (s :: ss)
  = match ss with
    | [] => s
    | _ :: _ => s +:+ (sep +:+ String.concat sep ss)
    end.
Proof. now destruct ss. Qed.

Lemma after_numbers_stops t : after_numbers t -> stops t = true.
Proof. now intros (c & r & -> & _). Qed.

Lemma numeral_head_clash (s rest : string) c r :
  numeral s = true -> s <> "" -> numeral_char c = false ->
  String c r = s +:+ rest -> False.
Proof.
  intros Hs Hne Hc Heq. destruct s as [|d s]; [congruence |].
  rewrite append_cons in Heq. injection Heq as Hd _. subst d.
  simpl in Hs. apply andb_true_iff in Hs as [Hd _]. congruence.
Qed.

(** The text of a non-empty list of numerals joined by underscores,
    followed by [t]: the first numeral and a rest that starts with an
    underscore. *)
Lemma concat_head s (ss : list string) t :
  String.concat "_" (s :: ss) +:+ t
  = s +:+ match ss with
          | [] => t
          | _ :: _ => "_" +:+ (String.concat "_" ss +:+ t)
          end.
Proof.
  rewrite concat_cons. destruct ss; [reflexivity |]. now rewrite !append_assoc.
Qed.

Lemma concat_rest_stops (ss : list string) t :
  after_numbers t ->
  stops match ss with
        | [] => t
        | _ :: _ => "_" +:+ (String.concat "_" ss +:+ t)
        end = true.
Proof. intros Ht. destruct ss; [now apply after_numbers_stops | reflexivity]. Qed.

Lemma concat_numerals_inj (ss1 : list string) : forall ss2 t1 t2,
  Forall (fun s => numeral s = true /\ s <> "") ss1 ->
  Forall (fun s => numeral s = true /\ s <> "") ss2 ->
  after_numbers t1 -> after_numbers t2 ->
  String.concat "_" ss1 +:+ t1 = String.concat "_" ss2 +:+ t2 ->
  ss1 = ss2 /\ t1 = t2.
Proof.
  induction ss1 as [|s1 ss1 IH]; intros [|s2 ss2] t1 t2 H1 H2 Ht1 Ht2 Heq.
  - now rewrite !append_nil_l in Heq.
  - exfalso. apply Forall_cons in H2 as [[Hs2 Hne2] _].
    change (String.concat "_" [] +:+ t1) with t1 in Heq.
    destruct Ht1 as (c & r & -> & Hc). rewrite concat_head in Heq.
    now apply (numeral_head_clash s2 _ "_"%char _ Hs2 Hne2 eq_refl Heq).
  - exfalso. apply Forall_cons in H1 as [[Hs1 Hne1] _].
    change (String.concat "_" [] +:+ t2) with t2 in Heq.
    destruct Ht2 as (c & r & -> & Hc). rewrite concat_head in Heq.
    symmetry in Heq.
    now apply (numeral_head_clash s1 _ "_"%char _ Hs1 Hne1 eq_refl Heq).
  - apply Forall_cons in H1 as [[Hs1 Hne1] H1].
    apply Forall_cons in H2 as [[Hs2 Hne2] H2].
    rewrite !concat_head in Heq.
    destruct (numeral_split _ _ _ _ Hs1 Hs2
                (concat_rest_stops ss1 t1 Ht1) (concat_rest_stops ss2 t2 Ht2) Heq)
      as [-> Hrest].
    destruct ss1 as [|x1 ss1], ss2 as [|x2 ss2].
    + auto.
    + exfalso. apply Forall_cons in H2 as [[Hx Hxne] _].
      destruct Ht1 as (c & r & -> & Hc).
      rewrite append_cons, append_nil_l, concat_head in Hrest.
      injection Hrest as Hrest.
      now apply (numeral_head_clash _ _ _ _ Hx Hxne Hc Hrest).
    + exfalso. apply Forall_cons in H1 as [[Hx Hxne] _].
      destruct Ht2 as (c & r & -> & Hc).
      rewrite append_cons, append_nil_l, concat_head in Hrest.
      injection Hrest as Hrest. symmetry in Hrest.
      now apply (numeral_head_clash _ _ _ _ Hx Hxne Hc Hrest).
    + rewrite !(append_cons "_"), !append_nil_l in Hrest. injection Hrest as Hrest.
      destruct (IH (x2 :: ss2) t1 t2 H1 H2 Ht1 Ht2 Hrest) as [-> ->]. auto.
Qed.

Lemma int_labels_texts (ls : list label) :
  Forall is_int ls ->
  Forall (fun s => numeral s = true /\ s <> "") (map str_of_label ls).
Proof.
  induction 1 as [|l ls [z ->] _ IH]; simpl; constructor; [| exact IH].
  apply str_of_int_numeral.
Qed.

Lemma int_labels_inj (ls1 : list label) : forall ls2,
  Forall is_int ls1 -> Forall is_int ls2 ->
  map str_of_label ls1 = map str_of_label ls2 -> ls1 = ls2.
Proof.
  induction ls1 as [|l1 ls1 IH]; intros [|l2 ls2] H1 H2 Heq; try discriminate;
    [reflexivity |].
  apply Forall_cons in H1 as [[z1 ->] H1]. apply Forall_cons in H2 as [[z2 ->] H2].
  simpl in Heq. injection Heq as Hz Heq.
  apply (inj pretty) in Hz as ->. now rewrite (IH ls2 H1 H2 Heq).
Qed.

Section CacheKey.

Context `{Collaborators}.

(** X13. For one soft prompt and int model numbers the name of the result
    file determines the list of model numbers, [k] and the test-set flag:
    two settings that differ in one of them never share a file. *)
Theorem save_path_separates_int_settings (cfg1 cfg2 : settings) :
  soft_prompt_name cfg1 = soft_prompt_name cfg2 ->
  Forall is_int (model_numbers cfg1) ->
  Forall is_int (model_numbers cfg2) ->
  save_path cfg1 = save_path cfg2 ->
  model_numbers cfg1 = model_numbers cfg2
  /\ k cfg1 = k cfg2
  /\ use_test_set cfg1 = use_test_set cfg2.
Proof.
  intros Hname H1 H2 Hpath. unfold save_path in Hpath.
  rewrite Hname, !append_assoc in Hpath.
  do 3 apply String.app_inj in Hpath.
  assert (Hafter : forall k (b : bool),
            after_numbers ("_evaluation_with_k_"
                           +:+ (str_of_int k
                                +:+ (if b then "_test.csv" else ".csv")))).
  { intros k0 b. eexists "e"%char, _. split; reflexivity. }
  apply concat_numerals_inj in Hpath as [Hnumbers Hrest];
    [| now apply int_labels_texts | now apply int_labels_texts
     | apply Hafter | apply Hafter].
  split; [now apply int_labels_inj |].
  apply String.app_inj in Hrest.
  apply numeral_split in Hrest as [Hk Hsuffix];
    [| apply str_of_int_numeral | apply str_of_int_numeral
     | now destruct (use_test_set cfg1) | now destruct (use_test_set cfg2)].
  split; [now apply (inj pretty) in Hk |].
  destruct (use_test_set cfg1), (use_test_set cfg2); first [reflexivity | discriminate].
Qed.

Lemma same_cache_key_path (cfg1 cfg2 : settings) :
  same_cache_key cfg1 cfg2 -> save_path cfg2 = save_path cfg1.
Proof.
  intros (Hname & Hnumbers & Hk & Htest). unfold save_path.
  now rewrite Hname, Hnumbers, Hk, Htest.
Qed.

(** X14. The result file is keyed by the soft prompt name, the model
    numbers, [k] and the test-set flag only. After a completed run with
    [cfg1], a run with settings [cfg2] that agree with [cfg1] on those
    four and differ anywhere else (config file, accelerator, prompt
    length, embedding size, batch size, model names) loads the results of
    [cfg1], calls no collaborator and changes no file (given that
    [float(str(x))] gives [x] back). *)
Theorem cache_ignores_other_settings (cfg1 cfg2 : settings) w0 w1 :
  (forall x, float_parse (float_str x) = Some x) ->
  same_cache_key cfg1 cfg2 ->
  files w0 !! save_path cfg1 = None ->
  token_relevance_evaluation cfg1 w0 = (Ok tt, w1) ->
  exists r,
    self w1 = attributes_of r
    /\ token_relevance_evaluation cfg2 w1
       = (Ok tt, {| self := loaded_attributes r;
                    files := files w1;
                    trace := trace w1 |}).
Proof.
  intros float_roundtrip Hkey Hmiss Hrun.
  destruct (first_invocation cfg1 w0 w1 Hmiss Hrun) as (r & Hself & Hfiles & _).
  exists r. split; [exact Hself |].
  unfold token_relevance_evaluation, try_except.
  rewrite (same_cache_key_path cfg1 cfg2 Hkey).
  rewrite (read_saved_report cfg1 float_roundtrip r w1 (save_path cfg1));
    [reflexivity |].
  rewrite Hfiles. apply lookup_insert_eq.
Qed.

End CacheKey.

Lemma save_path_witness :
  let cfg2 :=
    {| soft_prompt_name := "sp"; model_numbers := [LInt 1; LInt 2];
       model_names := []; config := "other.yml"; accelerator := "cuda";
       prompt_length := 16; embedding_size := 768; k := 3; batch_size := 128;
       use_test_set := false |} in
  save_path Demo.cfg = save_path cfg2
  /\ model_numbers Demo.cfg = model_numbers cfg2
  /\ k Demo.cfg = k cfg2.
Proof.
  intros cfg2.
  assert (Hpath : save_path Demo.cfg = save_path cfg2) by (vm_compute; reflexivity).
  split; [exact Hpath |].
  destruct (save_path_separates_int_settings Demo.cfg cfg2 eq_refl) as (Hn & Hk & _);
    [ repeat constructor; eexists; reflexivity
    | repeat constructor; eexists; reflexivity
    | exact Hpath
    | exact (conj Hn Hk) ].
Defined.

Lemma cache_ignores_witness :
  let cfg2 :=
    {| soft_prompt_name := "sp"; model_numbers := [Demo.A; Demo.B];
       model_names := ["model-7"]; config := "other.yml"; accelerator := "cuda";
       prompt_length := 16; embedding_size := 768; k := 3; batch_size := 128;
       use_test_set := false |} in
  let w1 := (token_relevance_evaluation (H := Demo.env) Demo.cfg Demo.fresh).2 in
  same_cache_key Demo.cfg cfg2
  /\ token_relevance_evaluation (H := Demo.env) Demo.cfg Demo.fresh = (Ok tt, w1)
  /\ exists r,
       token_relevance_evaluation (H := Demo.env) cfg2 w1
       = (Ok tt, {| self := loaded_attributes (H := Demo.env) r;
                    files := files w1;
                    trace := trace w1 |}).
Proof.
  intros cfg2 w1.
  assert (Hkey : same_cache_key Demo.cfg cfg2) by (repeat split; reflexivity).
  assert (Hmiss : files Demo.fresh !! save_path Demo.cfg = None) by reflexivity.
  assert (Hrun : token_relevance_evaluation (H := Demo.env) Demo.cfg Demo.fresh
                 = (Ok tt, w1)) by (vm_compute; reflexivity).
  destruct (cache_ignores_other_settings (H := Demo.env) Demo.cfg cfg2
              Demo.fresh w1 demo_float_roundtrip Hkey Hmiss Hrun)
    as (r & _ & Hsecond).
  exact (conj Hkey (conj Hrun (ex_intro _ r Hsecond))).
Defined.

Lemma split_on_cons sep s : exists piece pieces, split_on sep s = piece :: pieces.
Proof.
  destruct s as [|c s]; simpl; [now eexists _, _ |].
  destruct (Ascii.eqb c sep); [now eexists _, _ |].
  destruct (split_on sep s); now eexists _, _.
Qed.

(** ['_'.join(s.split(','))] is [s.replace(',', '_')]. *)
Lemma join_split (s : string) :
  String.concat "_" (split_on "," s) = replace_char "," "_" s.
Proof.
  induction s as [|c s IH]; [reflexivity |].
  simpl. destruct (split_on_cons "," s) as (piece & pieces & Hsplit).
  rewrite Hsplit in *. destruct (Ascii.eqb c ",").
  - rewrite concat_cons, append_nil_l, append_cons, append_nil_l. now rewrite IH.
  - rewrite <- IH. rewrite !concat_cons. destruct pieces; [reflexivity |].
    now rewrite append_cons.
Qed.

Section MainProperties.

Context `{Collaborators}.
Variable get_model_names_from_numbers : list label -> result (list string).

(** X15. The result file of a run started from [main]: the model numbers
    argument with every comma replaced by an underscore (joining the
    pieces of [split(",")] with ["_"]), the [k] argument, and never the
    [_test] suffix, since [main] does not pass [use_test_set]. *)
Theorem main_cache_file (args : Args.t) (evaluator : settings) :
  Token_Relevance_Evaluation get_model_names_from_numbers
    (Args.soft_prompt_name args)
    (map LStr (split_on "," (Args.model_numbers args)))
    (Args.config args) (Args.accelerator args) (Args.prompt_length args)
    (Args.embedding_size args) (Args.k args) (Args.batch_size args) false
  = Ok evaluator ->
  save_path evaluator
  = "logs/explainable-soft-prompts/" +:+ Args.soft_prompt_name args
    +:+ "/checkpoints/" +:+ replace_char "," "_" (Args.model_numbers args)
    +:+ "_evaluation_with_k_" +:+ str_of_int (Args.k args) +:+ ".csv".
Proof.
  unfold Token_Relevance_Evaluation. intros Hinit.
  apply rbind_inv_ok in Hinit as (names & _ & [= <-]).
  unfold save_path. simpl.
  rewrite map_map. simpl. rewrite map_id, join_split.
  now rewrite !append_assoc.
Qed.

(** X16. [main] starts from a new evaluator and does what
    [token_relevance_evaluation] does: when the evaluation raises, [main]
    raises the same exception in the same state; when it completes,
    [main] completes and prints the Euclidean and the cosine accuracy of
    the evaluator, in this order. Reading the two attributes cannot
    fail. *)
Theorem main_prints_both_accuracies (args : Args.t) (evaluator : settings) w :
  Token_Relevance_Evaluation get_model_names_from_numbers
    (Args.soft_prompt_name args)
    (map LStr (split_on "," (Args.model_numbers args)))
    (Args.config args) (Args.accelerator args) (Args.prompt_length args)
    (Args.embedding_size args) (Args.k args) (Args.batch_size args) false
  = Ok evaluator ->
  match token_relevance_evaluation evaluator (with_self (fun _ => unset) w) with
  | (Ok _, w') =>
      exists euc cos,
        main get_model_names_from_numbers args w = (Ok [euc; cos], w')
        /\ euc_accuracy (self w') = Some euc
        /\ cos_accuracy (self w') = Some cos
  | (Raise e, w') => main get_model_names_from_numbers args w = (Raise e, w')
  end.
Proof.
  intros Hinit. unfold main. rewrite Hinit.
  rewrite (bind_ok (lift (Ok evaluator)) _ w evaluator w eq_refl).
  rewrite (bind_ok (assign (fun _ => unset)) _ w tt
             (with_self (fun _ => unset) w) eq_refl).
  destruct (token_relevance_evaluation evaluator (with_self (fun _ => unset) w))
    as [[[] | e] w'] eqn:Hrun.
  - destruct (completed_evaluation_attributes evaluator _ _ Hrun)
      as (_ & _ & _ & _ & _ & _ & _ & [euc Heuc] & [cos Hcos] & _).
    exists euc, cos. split; [| auto].
    rewrite (bind_ok _ _ _ _ _ Hrun).
    unfold mbind, M_bind, bind, get_attr, mret, M_ret, ret.
    now rewrite Heuc, Hcos.
  - now rewrite (bind_raise _ _ _ _ _ Hrun).
Qed.

End MainProperties.

Lemma main_cache_file_witness :
  let args := {| Args.soft_prompt_name := "sp"; Args.model_numbers := "1,2";
                 Args.config := "cfg.yml"; Args.accelerator := "cpu";
                 Args.prompt_length := 4; Args.embedding_size := 8;
                 Args.k := 3; Args.batch_size := 16 |} in
  exists evaluator,
    Token_Relevance_Evaluation (fun _ => Ok ["model-1"; "model-2"])
      "sp" [LStr "1"; LStr "2"] "cfg.yml" "cpu" 4 8 3 16 false
    = Ok evaluator
    /\ save_path evaluator
       = "logs/explainable-soft-prompts/sp/checkpoints/1_2_evaluation_with_k_3.csv".
Proof.
  intros args. eexists. split; [reflexivity |].
  exact (main_cache_file (fun _ => Ok ["model-1"; "model-2"]) args _ eq_refl).
Defined.

Lemma main_prints_witness :
  let args := {| Args.soft_prompt_name := "sp"; Args.model_numbers := "1,2";
                 Args.config := "cfg.yml"; Args.accelerator := "cpu";
                 Args.prompt_length := 4; Args.embedding_size := 8;
                 Args.k := 3; Args.batch_size := 16 |} in
  exists euc cos w',
    main (H := Demo.env) (fun _ => Ok ["model-1"; "model-2"]) args Demo.fresh
    = (Ok [euc; cos], w').
Proof.
  intros args.
  pose proof (main_prints_both_accuracies (H := Demo.env)
                (fun _ => Ok ["model-1"; "model-2"]) args _ Demo.fresh eq_refl)
    as Hmain.
  destruct (token_relevance_evaluation (H := Demo.env) _ _) as [[[] | e] w'] eqn:Hrun.
  - destruct Hmain as (euc & cos & Hmain & _). now exists euc, cos, w'.
  - exfalso. revert Hrun. vm_compute. discriminate.
Defined.

Lemma int_never_in_strs i numbers : MultiModelEval.int_in_strs i numbers = false.
Proof.
  unfold MultiModelEval.int_in_strs. induction numbers as [|s numbers IH];
    [reflexivity |].
  simpl. now rewrite IH.
Qed.

Section MultiModelEvalProperties.

Context `{Collaborators}.
Variable tokenizer : Type.
Variable get_model_names_from_numbers : list Z -> result (list string).
Variable from_pretrained : string -> result tokenizer.
Variable validate : MultiModelEval.Args.t -> tokenizer -> string -> result float.

Lemma write_rows_loop path numbers (model_names : list string) :
  forall (done : list string) (val_losses : list float) w rows,
  (length val_losses <= length model_names)%nat ->
  files w !! path = Some rows ->
  for_each (zip (seq (length done) (length val_losses)) val_losses)
    (fun '(i, val_loss) =>
       model_name ← lift (index (done ++ model_names) i);
       writerow path
         [model_name; float_str val_loss; MultiModelEval.trained_on i numbers]) w
  = (Ok tt,
     with_files
       (insert path
          (rows ++ zip_with
                     (fun name loss => [name; float_str loss; "No"])
                     model_names val_losses)) w).
Proof.
  induction model_names as [|name model_names IH];
    intros done val_losses w rows Hlen Hfile.
  - destruct val_losses; [| simpl in Hlen; lia]. simpl.
    unfold ret, with_files. rewrite app_nil_r, insert_id by exact Hfile.
    now destruct w.
  - destruct val_losses as [|loss val_losses].
    + simpl. unfold ret, with_files. rewrite app_nil_r, insert_id by exact Hfile.
      now destruct w.
    + simpl in Hlen.
      change (zip (seq (length done) (length (loss :: val_losses))) (loss :: val_losses))
        with ((length done, loss)
                :: zip (seq (S (length done)) (length val_losses)) val_losses).
      cbn [for_each].
      assert (Hstep :
        (model_name ← lift (index (done ++ name :: model_names) (length done));
         writerow path
           [model_name; float_str loss;
            MultiModelEval.trained_on (length done) numbers]) w
        = (Ok tt, with_files
                    (insert path
                       (rows ++ [[name; float_str loss; "No"]])) w)).
      { unfold mbind, M_bind, bind, lift, index, writerow.
        rewrite list_lookup_middle by reflexivity. cbn [fst snd].
        unfold MultiModelEval.trained_on. rewrite int_never_in_strs.
        unfold with_files. f_equal. f_equal.
        rewrite <- (insert_id (files w) path rows Hfile) at 1.
        now rewrite alter_insert_eq. }
      unfold bind. rewrite Hstep.
      replace (S (length done)) with (length (done ++ [name]))
        by (rewrite length_app; simpl; lia).
      replace (done ++ name :: model_names) with ((done ++ [name]) ++ model_names)
        by now rewrite <- app_assoc.
      rewrite (IH (done ++ [name]) val_losses _
                 (rows ++ [[name; float_str loss; "No"]]));
        [| lia | simpl; apply lookup_insert_eq].
      unfold with_files. simpl. rewrite insert_insert_eq, <- app_assoc. reflexivity.
Qed.

(** X17. When the model names resolve, the tokenizer loads and every
    validation returns, [multi_model_eval.main] replaces [val_losses.csv]
    of the soft prompt by the header row and one row per model, in the
    order of the model names: the name, the loss as text, and ["No"]. The
    [trained_on] column is ["No"] for every model, whatever the
    [model_numbers] argument is: the int index is looked up in a list of
    strs. *)
Theorem val_losses_file (args : MultiModelEval.Args.t) w
  model_names first_name tok val_losses :
  get_model_names_from_numbers (map Z.of_nat (seq 0 25)) = Ok model_names ->
  model_names !! 0%nat = Some first_name ->
  from_pretrained first_name = Ok tok ->
  result_map (validate args tok) model_names = Ok val_losses ->
  MultiModelEval.main tokenizer get_model_names_from_numbers from_pretrained
    validate args w
  = (Ok tt,
     with_files
       (insert (MultiModelEval.val_losses_path args)
          (["seed"; "val_loss"; "trained_on"]
           :: zip_with (fun name loss => [name; float_str loss; "No"])
                model_names val_losses)) w)
  /\ length val_losses = length model_names.
Proof.
  intros Hnames Hfirst Htok Hlosses.
  pose proof (result_map_length _ _ _ Hlosses) as Hlen. split; [| exact Hlen].
  unfold MultiModelEval.main. rewrite Hnames.
  rewrite (bind_ok (lift (Ok model_names)) _ w model_names w eq_refl). cbv beta.
  assert (Hidx : index model_names 0 = Ok first_name)
    by (unfold index; now rewrite Hfirst).
  rewrite Hidx.
  rewrite (bind_ok (lift (Ok first_name)) _ w first_name w eq_refl). cbv beta.
  rewrite Htok. rewrite (bind_ok (lift (Ok tok)) _ w tok w eq_refl). cbv beta.
  rewrite Hlosses.
  rewrite (bind_ok (lift (Ok val_losses)) _ w val_losses w eq_refl). cbv beta zeta.
  rewrite (bind_ok (open_w _) _ w tt
             (with_files (insert (MultiModelEval.val_losses_path args) []) w) eq_refl).
  cbv beta.
  rewrite (bind_ok (writerow _ _) _ _ tt
             (with_files (insert (MultiModelEval.val_losses_path args)
                            [["seed"; "val_loss"; "trained_on"]]) w)).
  - unfold MultiModelEval.enumerate.
    rewrite (write_rows_loop _ _ model_names [] val_losses _
               [["seed"; "val_loss"; "trained_on"]]);
      [| lia | simpl; apply lookup_insert_eq].
    unfold with_files. simpl. now rewrite insert_insert_eq.
  - unfold writerow, with_files. simpl. f_equal. f_equal.
    now rewrite alter_insert_eq.
Qed.

(** X18. When the list of model names is empty [multi_model_eval.main]
    raises [IndexError]; when loading the tokenizer or the validation of
    some model raises, it raises the same exception. In each of these
    cases no file is written or truncated: the losses of the models that
    were validated before the failure are lost. *)
Theorem failed_validation_writes_nothing (args : MultiModelEval.Args.t) w e :
  (exists model_names,
     get_model_names_from_numbers (map Z.of_nat (seq 0 25)) = Ok model_names
     /\ (model_names = [] /\ e = IndexError
         \/ exists first_name,
              model_names !! 0%nat = Some first_name
              /\ (from_pretrained first_name = Raise e
                  \/ exists tok,
                       from_pretrained first_name = Ok tok
                       /\ result_map (validate args tok) model_names = Raise e))) ->
  MultiModelEval.main tokenizer get_model_names_from_numbers from_pretrained
    validate args w
  = (Raise e, w).
Proof.
  intros (model_names & Hnames & Hcase).
  unfold MultiModelEval.main. rewrite Hnames.
  rewrite (bind_ok (lift (Ok model_names)) _ w model_names w eq_refl). cbv beta.
  destruct Hcase as [[-> ->] | (first_name & Hfirst & Hcase)]; [reflexivity |].
  assert (Hidx : index model_names 0 = Ok first_name)
    by (unfold index; now rewrite Hfirst).
  rewrite Hidx.
  rewrite (bind_ok (lift (Ok first_name)) _ w first_name w eq_refl). cbv beta.
  destruct Hcase as [Htok | (tok & Htok & Hlosses)]; rewrite Htok; [reflexivity |].
  rewrite (bind_ok (lift (Ok tok)) _ w tok w eq_refl). cbv beta.
  now rewrite Hlosses.
Qed.

End MultiModelEvalProperties.

Lemma val_losses_file_witness :
  let args := {| MultiModelEval.Args.soft_prompt_name := "sp";
                 MultiModelEval.Args.model_numbers := "0,1";
                 MultiModelEval.Args.config := "cfg.yml";
                 MultiModelEval.Args.accelerator := "cpu";
                 MultiModelEval.Args.prompt_length := 4 |} in
  exists w',
    MultiModelEval.main (H := Demo.env) unit
      (fun _ => Ok ["model-0"; "model-1"]) (fun _ => Ok tt)
      (fun _ _ _ => Ok Demo.half) args Demo.fresh
    = (Ok tt, w')
    /\ files w' !! "logs/explainable-soft-prompts/sp/checkpoints/val_losses.csv"
       = Some [ ["seed"; "val_loss"; "trained_on"];
                ["model-0"; Demo.float_text Demo.half; "No"];
                ["model-1"; Demo.float_text Demo.half; "No"] ].
Proof.
  intros args.
  destruct (val_losses_file (H := Demo.env) unit
              (fun _ => Ok ["model-0"; "model-1"]) (fun _ => Ok tt)
              (fun _ _ _ => Ok Demo.half) args Demo.fresh
              ["model-0"; "model-1"] "model-0" tt [Demo.half; Demo.half]
              eq_refl eq_refl eq_refl eq_refl) as [Hmain _].
  eexists. split; [exact Hmain |]. vm_compute. reflexivity.
Defined.

Lemma failed_validation_witness :
  let args := {| MultiModelEval.Args.soft_prompt_name := "sp";
                 MultiModelEval.Args.model_numbers := "0,1";
                 MultiModelEval.Args.config := "cfg.yml";
                 MultiModelEval.Args.accelerator := "cpu";
                 MultiModelEval.Args.prompt_length := 4 |} in
  let validate := fun (_ : MultiModelEval.Args.t) (_ : unit) (name : string) =>
                    if String.eqb name "model-1" then Raise (OtherError 3)
                    else Ok Demo.half in
  MultiModelEval.main (H := Demo.env) unit
    (fun _ => Ok ["model-0"; "model-1"]) (fun _ => Ok tt) validate args Demo.fresh
  = (Raise (OtherError 3), Demo.fresh).
Proof.
  intros args validate.
  apply (failed_validation_writes_nothing (H := Demo.env)).
  exists ["model-0"; "model-1"]. split; [reflexivity |].
  right. exists "model-0". split; [reflexivity |].
  right. exists tt. split; reflexivity.
Defined.

Lemma series_shift width a (text : string -> string) lb : forall rest j colors,
  zip_with
    (fun (i_name : nat * string) c =>
       {| Visualizer.lower_bound := lb + width + Z.of_nat i_name.1 * width;
          Visualizer.upper_bound := lb + width + (Z.of_nat i_name.1 + 1) * width;
          Visualizer.alpha := a;
          Visualizer.color := c;
          Visualizer.legend := text i_name.2 |})
    (zip (seq j (length rest)) rest) colors
  = zip_with
      (fun (i_name : nat * string) c =>
         {| Visualizer.lower_bound := lb + Z.of_nat i_name.1 * width;
            Visualizer.upper_bound := lb + (Z.of_nat i_name.1 + 1) * width;
            Visualizer.alpha := a;
            Visualizer.color := c;
            Visualizer.legend := text i_name.2 |})
      (zip (seq (S j) (length rest)) rest) colors.
Proof.
  induction rest as [|name rest IH]; intros j colors; [reflexivity |].
  destruct colors as [|c colors]; [reflexivity |].
  change (zip (seq j (length (name :: rest))) (name :: rest))
    with ((j, name) :: zip (seq (S j) (length rest)) rest).
  change (zip (seq (S j) (length (name :: rest))) (name :: rest))
    with ((S j, name) :: zip (seq (S (S j)) (length rest)) rest).
  cbn [zip_with fst snd]. rewrite IH. f_equal. f_equal; lia.
Qed.

Lemma series_cons width a text lb name rest c colors :
  Visualizer.series width a text lb (name :: rest) (c :: colors)
  = {| Visualizer.lower_bound := lb;
       Visualizer.upper_bound := lb + width;
       Visualizer.alpha := a;
       Visualizer.color := c;
       Visualizer.legend := text name |}
    :: Visualizer.series width a text (lb + width) rest colors.
Proof.
  unfold Visualizer.series.
  change (zip (seq 0 (length (name :: rest))) (name :: rest))
    with ((0%nat, name) :: zip (seq 1 (length rest)) rest).
  cbn [zip_with fst snd]. f_equal; [f_equal; lia |].
  symmetry. apply series_shift.
Qed.

Lemma series_length width a text start names colors :
  (length names <= length colors)%nat ->
  length (Visualizer.series width a text start names colors) = length names.
Proof.
  intros Hlen. unfold Visualizer.series.
  rewrite length_zip_with, length_zip_with, length_seq. lia.
Qed.

Lemma series_colors width a text start names : forall colors,
  (length names <= length colors)%nat ->
  map Visualizer.color (Visualizer.series width a text start names colors)
  = take (length names) colors.
Proof.
  unfold Visualizer.series. generalize 0%nat as j.
  induction names as [|name names IH]; intros j colors Hlen; [reflexivity |].
  destruct colors as [|c colors]; [simpl in Hlen; lia |].
  change (zip (seq j (length (name :: names))) (name :: names))
    with ((j, name) :: zip (seq (S j) (length names)) names).
  simpl. f_equal. apply IH. simpl in Hlen. lia.
Qed.

Section PlotFacts.

Context {lib : Visualizer.Libraries}.
Variable space : Visualizer.array.

(** A round that returns has found its colour and its name, and has
    added one scatter to the figure. *)
Lemma scatter_round_inv width a colors names offset text lb drawn i out :
  Visualizer.scatter_round space width a colors names offset text (lb, drawn) i
  = Ok out ->
  exists c name,
    colors !! (i + offset)%nat = Some c
    /\ names !! i = Some name
    /\ out = (lb + width,
              drawn ++ [ {| Visualizer.lower_bound := lb;
                            Visualizer.upper_bound := lb + width;
                            Visualizer.alpha := a;
                            Visualizer.color := c;
                            Visualizer.legend := text name |} ]).
Proof.
  unfold Visualizer.scatter_round, index, mbind, result_bind, rbind.
  destruct (Visualizer.getitem space lb (lb + width) 0) as [x | e];
    [| discriminate].
  destruct (Visualizer.getitem space lb (lb + width) 1) as [y | e];
    [| discriminate].
  destruct (colors !! (i + offset)%nat) as [c |]; [| discriminate].
  destruct (names !! i) as [name |]; [| discriminate].
  destruct (Visualizer.ax_scatter drawn x y a c (text name)) as [[] | e];
    [| discriminate].
  intros [= <-]. now exists c, name.
Qed.

Lemma scatter_round_ok path width a colors names offset text lb drawn i c name :
  Visualizer.cooperative space colors path ->
  colors !! (i + offset)%nat = Some c ->
  names !! i = Some name ->
  Visualizer.scatter_round space width a colors names offset text (lb, drawn) i
  = Ok (lb + width,
        drawn ++ [ {| Visualizer.lower_bound := lb;
                      Visualizer.upper_bound := lb + width;
                      Visualizer.alpha := a;
                      Visualizer.color := c;
                      Visualizer.legend := text name |} ]).
Proof.
  intros (_ & Hget & Hscatter & _) Hc Hname.
  unfold Visualizer.scatter_round, index, mbind, result_bind, rbind.
  destruct (Hget lb (lb + width) 0) as [x Hx]; [now left |].
  destruct (Hget lb (lb + width) 1) as [y Hy]; [now right |].
  rewrite Hx, Hy, Hc, Hname.
  rewrite (Hscatter drawn lb (lb + width) x y a c (text name) Hx Hy);
    [reflexivity |].
  now apply list_elem_of_lookup_2 in Hc.
Qed.

Lemma scatter_round_short path width a colors names offset text lb drawn i :
  Visualizer.cooperative space colors path ->
  colors !! (i + offset)%nat = None ->
  Visualizer.scatter_round space width a colors names offset text (lb, drawn) i
  = Raise IndexError.
Proof.
  intros (_ & Hget & _) Hc.
  unfold Visualizer.scatter_round, index, mbind, result_bind, rbind.
  destruct (Hget lb (lb + width) 0) as [x ->]; [now left |].
  destruct (Hget lb (lb + width) 1) as [y ->]; [now right |].
  now rewrite Hc.
Qed.

Lemma scatter_loop_inv width a colors offset text : forall rest pre lb drawn out,
  Visualizer.result_fold
    (Visualizer.scatter_round space width a colors (pre ++ rest) offset text)
    (seq (length pre) (length rest)) (lb, drawn)
  = Ok out ->
  (rest = [] \/ length pre + length rest + offset <= length colors)%nat
  /\ out = (lb + Z.of_nat (length rest) * width,
            drawn ++ Visualizer.series width a text lb rest
                       (drop (length pre + offset) colors)).
Proof.
  induction rest as [|name rest IH]; intros pre lb drawn out Hrun.
  - simpl in Hrun. injection Hrun as <-. split; [now left |].
    unfold Visualizer.series. simpl. rewrite app_nil_r. do 2 f_equal. lia.
  - change (seq (length pre) (length (name :: rest)))
      with (length pre :: seq (S (length pre)) (length rest)) in Hrun.
    cbn [Visualizer.result_fold] in Hrun.
    destruct (Visualizer.scatter_round space width a colors (pre ++ name :: rest)
                offset text (lb, drawn) (length pre)) as [mid | e] eqn:Hround;
      [| discriminate].
    apply scatter_round_inv in Hround as (c & name' & Hc & Hname & ->).
    rewrite list_lookup_middle in Hname by reflexivity. injection Hname as <-.
    change (Ok ?s ≫= ?f) with (f s) in Hrun. cbv beta in Hrun.
    replace (S (length pre)) with (length (pre ++ [name])) in Hrun
      by (rewrite length_app; simpl; lia).
    replace (pre ++ name :: rest) with ((pre ++ [name]) ++ rest) in Hrun
      by now rewrite <- app_assoc.
    apply IH in Hrun as [Hlen ->].
    apply lookup_lt_Some in Hc as Hlt.
    split.
    + right. destruct Hlen as [-> | Hlen]; [simpl; lia |].
      rewrite length_app in Hlen. simpl in *. lia.
    + f_equal; [simpl length; lia |].
      rewrite <- app_assoc. f_equal.
      rewrite (drop_S colors c (length pre + offset) Hc).
      rewrite series_cons. cbn [app]. do 2 f_equal.
      rewrite length_app. simpl length. f_equal. lia.
Qed.

Lemma scatter_loop_ok path width a colors offset text : forall rest pre lb drawn,
  Visualizer.cooperative space colors path ->
  (length pre + length rest + offset <= length colors)%nat ->
  Visualizer.result_fold
    (Visualizer.scatter_round space width a colors (pre ++ rest) offset text)
    (seq (length pre) (length rest)) (lb, drawn)
  = Ok (lb + Z.of_nat (length rest) * width,
        drawn ++ Visualizer.series width a text lb rest
                   (drop (length pre + offset) colors)).
Proof.
  induction rest as [|name rest IH]; intros pre lb drawn Hcoop Hlen.
  - simpl. unfold Visualizer.series. simpl. rewrite app_nil_r. do 2 f_equal. lia.
  - simpl in Hlen.
    change (seq (length pre) (length (name :: rest)))
      with (length pre :: seq (S (length pre)) (length rest)).
    cbn [Visualizer.result_fold].
    destruct (lookup_lt_is_Some_2 colors (length pre + offset) ltac:(lia)) as [c Hc].
    rewrite (scatter_round_ok path _ _ _ _ _ _ _ _ _ c name Hcoop Hc)
      by now rewrite list_lookup_middle.
    change (Ok ?s ≫= ?f) with (f s). cbv beta.
    replace (S (length pre)) with (length (pre ++ [name]))
      by (rewrite length_app; simpl; lia).
    replace (pre ++ name :: rest) with ((pre ++ [name]) ++ rest)
      by now rewrite <- app_assoc.
    rewrite IH by (try assumption; rewrite length_app; simpl; lia).
    f_equal. f_equal; [simpl length; lia |].
    rewrite <- app_assoc. f_equal.
    rewrite (drop_S colors c (length pre + offset) Hc).
    rewrite series_cons. cbn [app]. do 2 f_equal.
    rewrite length_app. simpl length. f_equal. lia.
Qed.

Lemma scatter_loop_raise path width a colors offset text : forall rest pre lb drawn,
  Visualizer.cooperative space colors path ->
  (length pre + offset <= length colors)%nat ->
  (length colors < length pre + length rest + offset)%nat ->
  Visualizer.result_fold
    (Visualizer.scatter_round space width a colors (pre ++ rest) offset text)
    (seq (length pre) (length rest)) (lb, drawn)
  = Raise IndexError.
Proof.
  induction rest as [|name rest IH]; intros pre lb drawn Hcoop Hle Hlt;
    [simpl in Hlt; lia |].
  simpl in Hlt.
  change (seq (length pre) (length (name :: rest)))
    with (length pre :: seq (S (length pre)) (length rest)).
  cbn [Visualizer.result_fold].
  destruct (colors !! (length pre + offset)%nat) as [c|] eqn:Hc.
  - apply lookup_lt_Some in Hc as Hin.
    rewrite (scatter_round_ok path _ _ _ _ _ _ _ _ _ c name Hcoop Hc)
      by now rewrite list_lookup_middle.
    change (Ok ?s ≫= ?f) with (f s). cbv beta.
    replace (S (length pre)) with (length (pre ++ [name]))
      by (rewrite length_app; simpl; lia).
    replace (pre ++ name :: rest) with ((pre ++ [name]) ++ rest)
      by now rewrite <- app_assoc.
    apply IH; [assumption | |]; rewrite length_app; simpl; lia.
  - now rewrite (scatter_round_short path _ _ _ _ _ _ _ _ _ Hcoop Hc).
Qed.

(** A plot that returns had a colour for every series, and its figure
    is [figure_of]. *)
Lemma plot_embedding_space_ok_inv output_path model_embedding_size prompt_length
  (prompts model_names colors : list string) out :
  Visualizer.plot_embedding_space space output_path model_embedding_size
    prompt_length prompts model_names colors = Ok out ->
  (length model_names + length prompts <= length colors)%nat
  /\ out = (Visualizer.join_visualizations output_path,
            Visualizer.figure_of model_embedding_size prompt_length
              prompts model_names colors).
Proof.
  unfold Visualizer.plot_embedding_space. intros Hrun.
  destruct Visualizer.plt_subplots as [[] | e]; [| discriminate].
  change (Ok ?s ≫= ?f) with (f s) in Hrun. cbv beta in Hrun.
  destruct (Visualizer.result_fold _ (seq 0 (length model_names)) _)
    as [state1 | e] eqn:Hmodels; [| discriminate].
  apply (scatter_loop_inv _ _ _ _ _ model_names [] 0 []) in Hmodels
    as [Hlen1 ->].
  change (Ok ?s ≫= ?f) with (f s) in Hrun. cbv beta in Hrun.
  destruct (Visualizer.result_fold _ (seq 0 (length prompts)) _)
    as [state2 | e] eqn:Hprompts; [| discriminate].
  apply (scatter_loop_inv _ _ _ _ _ prompts []) in Hprompts as [Hlen2 ->].
  change (Ok ?s ≫= ?f) with (f s) in Hrun. cbv beta in Hrun.
  cbn [snd] in Hrun.
  destruct (Visualizer.ax_legend _) as [[] | e]; [| discriminate].
  change (Ok ?s ≫= ?f) with (f s) in Hrun. cbv beta in Hrun.
  destruct (Visualizer.fig_savefig _ _) as [[] | e]; [| discriminate].
  change (Ok ?s ≫= ?f) with (f s) in Hrun. cbv beta in Hrun.
  injection Hrun as <-. split.
  - simpl in Hlen1, Hlen2.
    destruct Hlen2 as [-> | Hlen2]; [| lia].
    destruct Hlen1 as [-> | Hlen1]; simpl; lia.
  - unfold Visualizer.figure_of. simpl. do 3 f_equal; lia.
Qed.

Lemma plot_embedding_space_run output_path model_embedding_size prompt_length
  (prompts model_names colors : list string) :
  Visualizer.cooperative space colors
    (Visualizer.join_visualizations output_path) ->
  Visualizer.plot_embedding_space space output_path model_embedding_size
    prompt_length prompts model_names colors
  = if (length colors <? length model_names + length prompts)%nat
    then Raise IndexError
    else Ok (Visualizer.join_visualizations output_path,
             Visualizer.figure_of model_embedding_size prompt_length
               prompts model_names colors).
Proof.
  intros Hcoop. pose proof Hcoop as (Hsub & _ & _ & Hlegend & Hsave).
  unfold Visualizer.plot_embedding_space. rewrite Hsub.
  change (Ok ?s ≫= ?f) with (f s). cbv beta.
  destruct (Nat.ltb_spec (length colors) (length model_names + length prompts))
    as [Hlt | Hge].
  - destruct (Nat.lt_ge_cases (length colors) (length model_names)) as [Hm | Hm].
    + rewrite (scatter_loop_raise (Visualizer.join_visualizations output_path) _ _ _ _ _ model_names [] 0 []);
        [reflexivity | assumption | simpl; lia | simpl; lia].
    + rewrite (scatter_loop_ok (Visualizer.join_visualizations output_path) _ _ _ _ _ model_names [] 0 [])
        by (try assumption; simpl; lia).
      change (Ok ?s ≫= ?f) with (f s). cbv beta.
      rewrite (scatter_loop_raise (Visualizer.join_visualizations output_path) _ _ _ _ _ prompts []);
        [reflexivity | assumption | simpl; lia | simpl; lia].
  - rewrite (scatter_loop_ok (Visualizer.join_visualizations output_path) _ _ _ _ _ model_names [] 0 [])
      by (try assumption; simpl; lia).
    change (Ok ?s ≫= ?f) with (f s). cbv beta.
    rewrite (scatter_loop_ok (Visualizer.join_visualizations output_path) _ _ _ _ _ prompts [])
      by (try assumption; simpl; lia).
    change (Ok ?s ≫= ?f) with (f s). cbv beta. cbn [snd].
    rewrite Hlegend, Hsave.
    change (Ok ?s ≫= ?f) with (f s). cbv beta.
    unfold Visualizer.figure_of. simpl. do 4 f_equal; lia.
Qed.

(** X19. [plot_embedding_space] in every case. When it returns, there
    was a colour for every model name and prompt, and it has saved one
    figure, under [visualizations/] unless the output path is absolute,
    with one scatter per model followed by one per prompt: the row ranges
    follow one another without a gap, [model_embedding_size] rows for
    each model and then [prompt_length] rows for each prompt; the models
    are drawn with [alpha=0.1], the prompts with [alpha=1], and the
    series take the colours in order. When it raises although the
    libraries accept what it passes them (the array has its two columns,
    [ax.scatter] draws in every colour of the list, the legend can be
    drawn and the figure saved at the path), the exception is
    [IndexError] and there are fewer colours than model names plus
    prompts. *)
Theorem plot_embedding_space_cases output_path model_embedding_size prompt_length
  (prompts model_names colors : list string) :
  match Visualizer.plot_embedding_space space output_path model_embedding_size
          prompt_length prompts model_names colors with
  | Ok out =>
      (length model_names + length prompts <= length colors)%nat
      /\ out = (Visualizer.join_visualizations output_path,
                Visualizer.series model_embedding_size Visualizer.Alpha_0_1
                  (fun name => "Embeddings from " +:+ name) 0 model_names colors
                ++ Visualizer.series prompt_length Visualizer.Alpha_1
                     (fun name => name)
                     (Z.of_nat (length model_names) * model_embedding_size)
                     prompts (drop (length model_names) colors))
  | Raise e =>
      Visualizer.cooperative space colors
        (Visualizer.join_visualizations output_path) ->
      e = IndexError
      /\ (length colors < length model_names + length prompts)%nat
  end.
Proof.
  destruct (Visualizer.plot_embedding_space space output_path
              model_embedding_size prompt_length prompts model_names colors)
    as [out | e] eqn:Hrun.
  - now apply plot_embedding_space_ok_inv in Hrun.
  - intros Hcoop. rewrite (plot_embedding_space_run _ _ _ _ _ _ Hcoop) in Hrun.
    destruct (Nat.ltb_spec (length colors) (length model_names + length prompts))
      as [Hlt | Hge]; [| discriminate].
    injection Hrun as <-. now split.
Qed.

(** X20. With the default colours [plot_embedding_space] draws at most
    eleven series: whenever it returns, model names and prompts together
    are at most eleven, every series is on the figure and no two series
    share a colour; when it raises although the libraries accept what it
    passes them, they are more than eleven and the exception is
    [IndexError]. *)
Theorem default_colours_serve_eleven_series output_path model_embedding_size
  prompt_length (prompts model_names : list string) :
  match Visualizer.plot_embedding_space space output_path model_embedding_size
          prompt_length prompts model_names Visualizer.DEFAULT_COLORS with
  | Ok (path, drawn) =>
      (length model_names + length prompts <= 11)%nat
      /\ length drawn = (length model_names + length prompts)%nat
      /\ map Visualizer.color drawn
         = take (length model_names + length prompts) Visualizer.DEFAULT_COLORS
      /\ NoDup (map Visualizer.color drawn)
  | Raise e =>
      Visualizer.cooperative space Visualizer.DEFAULT_COLORS
        (Visualizer.join_visualizations output_path) ->
      e = IndexError /\ (11 < length model_names + length prompts)%nat
  end.
Proof.
  assert (Heleven : length Visualizer.DEFAULT_COLORS = 11%nat) by reflexivity.
  destruct (Visualizer.plot_embedding_space space output_path
              model_embedding_size prompt_length prompts model_names
              Visualizer.DEFAULT_COLORS) as [[path drawn] | e] eqn:Hrun.
  - apply plot_embedding_space_ok_inv in Hrun as [Hlen [= -> ->]].
    rewrite Heleven in Hlen.
    assert (Hcolors :
      map Visualizer.color
        (Visualizer.figure_of model_embedding_size prompt_length prompts
           model_names Visualizer.DEFAULT_COLORS)
      = take (length model_names + length prompts) Visualizer.DEFAULT_COLORS).
    { unfold Visualizer.figure_of.
      rewrite map_app, !series_colors; [apply take_take_drop | |];
        rewrite ?length_drop, ?Heleven; lia. }
    split; [exact Hlen |]. split; [| split; [exact Hcolors |]].
    + unfold Visualizer.figure_of.
      rewrite length_app, !series_length; [reflexivity | |];
        rewrite ?length_drop, ?Heleven; lia.
    + rewrite Hcolors. apply (sublist_NoDup _ Visualizer.DEFAULT_COLORS);
        [| apply sublist_take].
      apply (bool_decide_unpack _). vm_compute. reflexivity.
  - intros Hcoop. rewrite (plot_embedding_space_run _ _ _ _ _ _ Hcoop) in Hrun.
    rewrite Heleven in Hrun.
    destruct (Nat.ltb_spec 11 (length model_names + length prompts))
      as [Hlt | Hge]; [| discriminate].
    injection Hrun as <-. now split.
Qed.

End PlotFacts.

Lemma obliging_cooperative colors path :
  Visualizer.cooperative (lib := Visualizer.obliging) tt colors path.
Proof.
  unfold Visualizer.cooperative. simpl.
  repeat split; try reflexivity. intros. now exists tt.
Qed.

Lemma plot_embedding_space_witness :
  Visualizer.cooperative (lib := Visualizer.obliging) tt ["red"; "blue"]
    "visualizations/plot.png"
  /\ match Visualizer.plot_embedding_space (lib := Visualizer.obliging) tt
             "plot.png" 3 2 ["sp"] ["model-1"; "model-2"] ["red"; "blue"] with
     | Ok _ => False
     | Raise e => e = IndexError
     end.
Proof.
  split; [apply obliging_cooperative |].
  pose proof (plot_embedding_space_cases (lib := Visualizer.obliging) tt
                "plot.png" 3 2 ["sp"] ["model-1"; "model-2"] ["red"; "blue"])
    as Hcases.
  destruct (Visualizer.plot_embedding_space (lib := Visualizer.obliging) tt
              "plot.png" 3 2 ["sp"] ["model-1"; "model-2"] ["red"; "blue"])
    as [out | e].
  - destruct Hcases as [Hlen _]. simpl in Hlen. lia.
  - exact (proj1 (Hcases (obliging_cooperative _ _))).
Defined.

Lemma default_colours_witness :
  match Visualizer.plot_embedding_space (lib := Visualizer.obliging) tt
          "plot.png" 3 2 ["sp"] ["model-1"; "model-2"]
          Visualizer.DEFAULT_COLORS with
  | Ok (path, drawn) =>
      map Visualizer.color drawn = ["blue"; "orange"; "green"]
  | Raise _ => False
  end.
Proof.
  pose proof (default_colours_serve_eleven_series (lib := Visualizer.obliging) tt
                "plot.png" 3 2 ["sp"] ["model-1"; "model-2"]) as Hcases.
  destruct (Visualizer.plot_embedding_space (lib := Visualizer.obliging) tt
              "plot.png" 3 2 ["sp"] ["model-1"; "model-2"]
              Visualizer.DEFAULT_COLORS) as [[path drawn] | e].
  - exact (proj1 (proj2 (proj2 Hcases))).
  - destruct (Hcases (obliging_cooperative _ _)) as [_ Hlt]. simpl in Hlt. lia.
Defined.

Section LossRuns.

Context `{Collaborators}.
Variable cfg : settings.

Lemma for_each_app {A} (xs ys : list A) (body : A -> M unit) w w1 :
  for_each xs body w = (Ok tt, w1) ->
  for_each (xs ++ ys) body w = for_each ys body w1.
Proof.
  revert w. induction xs as [|x xs IH]; intros w Hrun; simpl in *.
  - now injection Hrun as <-.
  - unfold bind in *. destruct (body x w) as [[[] | e] w0]; [| discriminate].
    now apply IH.
Qed.

Lemma loss_step_run m w mpt a b x y :
  model_per_token (self w) = Some mpt ->
  masked_loss (self w) = Some (Nums a) ->
  compressed_loss (self w) = Some (Nums b) ->
  validate_prompt (masked_args cfg mpt m) = Ok x ->
  validate_prompt (compressed_args cfg mpt m) = Ok y ->
  loss_evaluation_step cfg m w
  = (Ok tt,
     {| self := set_compressed_loss (Nums (b ++ [y]))
                  (set_masked_loss (Nums (a ++ [x])) (self w));
        files := files w;
        trace := trace w ++ prescribed_calls cfg mpt m |}).
Proof.
  intros Hmpt Hma Hco Hx Hy.
  unfold compressed_args, masked_args in Hx, Hy.
  unfold loss_evaluation_step, append_loss, mbind, M_bind, bind, get_attr,
    invoke, assign, with_self, with_trace.
  rewrite Hmpt, Hx. cbn [fst snd self files trace]. rewrite Hma.
  cbn [fst snd self files trace]. rewrite Hy.
  cbn [fst snd self files trace compressed_loss set_masked_loss]. rewrite Hco.
  unfold prescribed_calls, compressed_args, masked_args.
  cbn [fst snd self files trace]. now rewrite <- app_assoc.
Qed.

Lemma loss_step_fails m w mpt a b e :
  model_per_token (self w) = Some mpt ->
  masked_loss (self w) = Some (Nums a) ->
  compressed_loss (self w) = Some (Nums b) ->
  validate_prompt (masked_args cfg mpt m) = Raise e
  \/ (exists x, validate_prompt (masked_args cfg mpt m) = Ok x
                /\ validate_prompt (compressed_args cfg mpt m) = Raise e) ->
  loss_evaluation_step cfg m w
  = (Raise e,
     {| self := set_masked_loss
                  (Nums (a ++ obtained (validate_prompt (masked_args cfg mpt m))))
                  (self w);
        files := files w;
        trace := trace w
                 ++ attempted_calls cfg mpt m
                      (validate_prompt (masked_args cfg mpt m)) |}).
Proof.
  intros Hmpt Hma Hco Hfail.
  unfold attempted_calls, obtained.
  unfold compressed_args, masked_args in *.
  unfold loss_evaluation_step, append_loss, mbind, M_bind, bind, get_attr,
    invoke, assign, with_self, with_trace.
  rewrite Hmpt. destruct Hfail as [Hx | (x & Hx & Hy)]; rewrite Hx.
  - cbn [fst snd self files trace]. rewrite app_nil_r.
    f_equal. f_equal. destruct w as [r fs tr]. simpl in *.
    destruct r; simpl in *. unfold set_masked_loss. simpl. congruence.
  - cbn [fst snd self files trace]. rewrite Hma.
    cbn [fst snd self files trace]. rewrite Hy.
    cbn [fst snd self files trace]. now rewrite <- app_assoc.
Qed.

Lemma loss_loop_run mpt : forall ms xs ys w a b,
  model_per_token (self w) = Some mpt ->
  masked_loss (self w) = Some (Nums a) ->
  compressed_loss (self w) = Some (Nums b) ->
  Forall2 (fun m x => validate_prompt (masked_args cfg mpt m) = Ok x) ms xs ->
  Forall2 (fun m y => validate_prompt (compressed_args cfg mpt m) = Ok y) ms ys ->
  for_each ms (loss_evaluation_step cfg) w
  = (Ok tt,
     {| self := set_compressed_loss (Nums (b ++ ys))
                  (set_masked_loss (Nums (a ++ xs)) (self w));
        files := files w;
        trace := trace w ++ flat_map (prescribed_calls cfg mpt) ms |}).
Proof.
  induction ms as [|m ms IH]; intros xs ys w a b Hmpt Hma Hco Hxs Hys.
  - apply Forall2_nil_inv_l in Hxs as ->. apply Forall2_nil_inv_l in Hys as ->.
    simpl. rewrite !app_nil_r. unfold ret. f_equal.
    destruct w as [r fs tr]. simpl in *. destruct r; simpl in *.
    unfold set_compressed_loss, set_masked_loss. simpl. congruence.
  - apply Forall2_cons_inv_l in Hxs as (x & xs' & Hx & Hxs & ->).
    apply Forall2_cons_inv_l in Hys as (y & ys' & Hy & Hys & ->).
    simpl. unfold bind.
    rewrite (loss_step_run m w mpt a b x y Hmpt Hma Hco Hx Hy).
    rewrite (IH xs' ys' _ (a ++ [x]) (b ++ [y]));
      [| exact Hmpt | reflexivity | reflexivity | exact Hxs | exact Hys].
    cbn [self files trace]. rewrite set_losses_twice, <- !app_assoc.
    reflexivity.
Qed.

Lemma loss_evaluation_start w mpt mlpt iml :
  prompt_token_drop_out (soft_prompt_name cfg) (model_numbers cfg)
    (config cfg) (accelerator cfg) (prompt_length cfg)
    (embedding_size cfg) (batch_size cfg) (use_test_set cfg)
  = Ok (mpt, mlpt) ->
  validate_soft_prompt_on_multiple_models (model_numbers cfg)
    (config cfg) (accelerator cfg) (prompt_length cfg)
    (batch_size cfg) (use_test_set cfg) (soft_prompt_name cfg)
  = Ok iml ->
  loss_evaluation cfg w
  = for_each (model_numbers cfg) (loss_evaluation_step cfg)
      {| self := set_compressed_loss (Nums [])
                   (set_masked_loss (Nums [])
                      (set_individual_model_loss (Nums iml)
                         (set_model_loss_per_token (Nums mlpt)
                            (set_model_per_token mpt (self w)))));
         files := files w;
         trace := trace w ++ [Call_prompt_token_drop_out;
                              Call_validate_soft_prompt_on_multiple_models] |}.
Proof.
  intros Hdrop Hmulti.
  unfold loss_evaluation, mbind, M_bind, bind, invoke, assign, with_self,
    with_trace.
  rewrite Hdrop. cbn [fst snd self files trace]. rewrite Hmulti.
  cbn [fst snd self files trace]. now rewrite <- app_assoc.
Qed.

(** X21. [loss_evaluation] stops at the first [validate_prompt] that
    raises and keeps what it had. When the two collaborators before the
    loop return, the models before the failing one succeed and the masked
    or the compressed evaluation of a model raises, [loss_evaluation]
    raises that exception; no later call is made (after a failed masked
    call not even the compressed call of the same model); the assignment
    and the individual losses stay assigned, and the loss lists hold the
    losses of the earlier models, the masked list one more when only the
    compressed call failed. No file is touched. *)
Theorem loss_evaluation_stops_at_first_failure w mpt mlpt iml pre m post xs ys e :
  prompt_token_drop_out (soft_prompt_name cfg) (model_numbers cfg)
    (config cfg) (accelerator cfg) (prompt_length cfg)
    (embedding_size cfg) (batch_size cfg) (use_test_set cfg)
  = Ok (mpt, mlpt) ->
  validate_soft_prompt_on_multiple_models (model_numbers cfg)
    (config cfg) (accelerator cfg) (prompt_length cfg)
    (batch_size cfg) (use_test_set cfg) (soft_prompt_name cfg)
  = Ok iml ->
  model_numbers cfg = pre ++ m :: post ->
  Forall2 (fun m x => validate_prompt (masked_args cfg mpt m) = Ok x) pre xs ->
  Forall2 (fun m y => validate_prompt (compressed_args cfg mpt m) = Ok y) pre ys ->
  validate_prompt (masked_args cfg mpt m) = Raise e
  \/ (exists x, validate_prompt (masked_args cfg mpt m) = Ok x
                /\ validate_prompt (compressed_args cfg mpt m) = Raise e) ->
  exists w',
    loss_evaluation cfg w = (Raise e, w')
    /\ files w' = files w
    /\ trace w' = trace w
                  ++ [Call_prompt_token_drop_out;
                      Call_validate_soft_prompt_on_multiple_models]
                  ++ flat_map (prescribed_calls cfg mpt) pre
                  ++ attempted_calls cfg mpt m
                       (validate_prompt (masked_args cfg mpt m))
    /\ model_per_token (self w') = Some mpt
    /\ individual_model_loss (self w') = Some (Nums iml)
    /\ masked_loss (self w')
       = Some (Nums (xs ++ obtained (validate_prompt (masked_args cfg mpt m))))
    /\ compressed_loss (self w') = Some (Nums ys).
Proof.
  intros Hdrop Hmulti Hsplit Hxs Hys Hfail.
  rewrite (loss_evaluation_start w mpt mlpt iml Hdrop Hmulti), Hsplit.
  erewrite for_each_app;
    [| apply (loss_loop_run mpt pre xs ys _ [] []);
       [reflexivity | reflexivity | reflexivity | exact Hxs | exact Hys]].
  simpl for_each. unfold bind.
  rewrite (loss_step_fails m _ mpt xs ys e);
    [| reflexivity | reflexivity | reflexivity | exact Hfail].
  eexists. split; [reflexivity |]. cbn [self files trace].
  split; [reflexivity |]. split; [now rewrite <- !app_assoc |].
  repeat split; reflexivity.
Qed.

Lemma set_all_losses_twice mpt mlpt iml xs ys r :
  set_compressed_loss (Nums ys)
    (set_masked_loss (Nums xs)
       (set_individual_model_loss (Nums iml)
          (set_model_loss_per_token (Nums mlpt)
             (set_model_per_token mpt
                (set_compressed_loss (Nums ys)
                   (set_masked_loss (Nums xs)
                      (set_individual_model_loss (Nums iml)
                         (set_model_loss_per_token (Nums mlpt)
                            (set_model_per_token mpt r)))))))))
  = set_compressed_loss (Nums ys)
      (set_masked_loss (Nums xs)
         (set_individual_model_loss (Nums iml)
            (set_model_loss_per_token (Nums mlpt)
               (set_model_per_token mpt r)))).
Proof. reflexivity. Qed.

(** X22. Running [loss_evaluation] again after it completed repeats every
    collaborator call and leaves the attributes exactly as they were:
    the two loss lists are reset before the loop, not extended. *)
Theorem loss_evaluation_resets_the_loss_lists w w1 :
  loss_evaluation cfg w = (Ok tt, w1) ->
  exists mpt,
    model_per_token (self w1) = Some mpt
    /\ loss_evaluation cfg w1
       = (Ok tt,
          {| self := self w1;
             files := files w1;
             trace := trace w1
                      ++ [Call_prompt_token_drop_out;
                          Call_validate_soft_prompt_on_multiple_models]
                      ++ flat_map (prescribed_calls cfg mpt) (model_numbers cfg) |}).
Proof.
  intros Hrun.
  destruct (loss_evaluation_ok cfg w w1 Hrun)
    as (mpt & mlpt & iml & xs & ys & Hdrop & Hmulti & Hxs & Hys & Hself & _).
  exists mpt. split; [now rewrite Hself |].
  rewrite (loss_evaluation_start w1 mpt mlpt iml Hdrop Hmulti).
  rewrite (loss_loop_run mpt (model_numbers cfg) xs ys _ [] []);
    [| reflexivity | reflexivity | reflexivity | exact Hxs | exact Hys].
  cbn [self files trace]. rewrite set_losses_twice, !app_nil_l, Hself.
  rewrite set_all_losses_twice, <- app_assoc. reflexivity.
Qed.

End LossRuns.

Lemma loss_failure_witness :
  exists w',
    loss_evaluation (H := Demo.failing_env) Demo.cfg Demo.fresh
    = (Raise (OtherError 7), w')
    /\ masked_loss (self w') = Some (Nums [Demo.half; Demo.half])
    /\ compressed_loss (self w') = Some (Nums [Demo.half]).
Proof.
  destruct (loss_evaluation_stops_at_first_failure (H := Demo.failing_env)
              Demo.cfg Demo.fresh [Demo.A; Demo.A; Demo.B; Demo.B]
              [Demo.half; Demo.half; Demo.half; Demo.half]
              [Demo.half; Demo.half] [Demo.A] Demo.B [] [Demo.half] [Demo.half]
              (OtherError 7) eq_refl eq_refl eq_refl)
    as (w' & Hrun & _ & _ & _ & _ & Hmasked & Hcompressed).
  - repeat constructor.
  - repeat constructor.
  - right. exists Demo.half. split; reflexivity.
  - exists w'. exact (conj Hrun (conj Hmasked Hcompressed)).
Defined.

Lemma loss_reset_witness :
  let w1 := (loss_evaluation (H := Demo.env) Demo.cfg Demo.fresh).2 in
  loss_evaluation (H := Demo.env) Demo.cfg Demo.fresh = (Ok tt, w1)
  /\ exists mpt,
       loss_evaluation (H := Demo.env) Demo.cfg w1
       = (Ok tt,
          {| self := self w1;
             files := files w1;
             trace := trace w1
                      ++ [Call_prompt_token_drop_out;
                          Call_validate_soft_prompt_on_multiple_models]
                      ++ flat_map (prescribed_calls Demo.cfg mpt)
                           (model_numbers Demo.cfg) |}).
Proof.
  intros w1.
  assert (Hrun : loss_evaluation (H := Demo.env) Demo.cfg Demo.fresh = (Ok tt, w1))
    by (vm_compute; reflexivity).
  split; [exact Hrun |].
  destruct (loss_evaluation_resets_the_loss_lists (H := Demo.env)
              Demo.cfg Demo.fresh w1 Hrun) as (mpt & _ & Hsecond).
  exact (ex_intro _ mpt Hsecond).
Defined.

Section Addressed.

Context `{Collaborators}.

Lemma bind_ext {A B} (m m' : M A) (f f' : A -> M B) :
  (forall w, m' w = m w) -> (forall a w, f' a w = f a w) ->
  forall w, (m' ≫= f') w = (m ≫= f) w.
Proof.
  intros Hm Hf w. unfold mbind, M_bind, bind. rewrite Hm.
  destruct (m w) as [[a | e] w1]; [apply Hf | reflexivity].
Qed.

Lemma row_step_ext rows rows' i (set : list string -> report -> report)
  (rest rest' : M unit) :
  drop 1 <$> rows' !! i = drop 1 <$> rows !! i ->
  (forall w, rest' w = rest w) ->
  forall w,
    (row ← lift (index rows' i); assign (set (drop 1 row));; rest') w
    = (row ← lift (index rows i); assign (set (drop 1 row));; rest) w.
Proof.
  intros Hrow Hrest w. unfold mbind, M_bind, bind, lift, index, assign.
  destruct (rows' !! i) as [row'|], (rows !! i) as [row|]; simpl in Hrow;
    try discriminate; [| reflexivity].
  injection Hrow as ->. apply Hrest.
Qed.

Lemma read_losses_ext rows rows' i set :
  drop 1 <$> rows' !! i = drop 1 <$> rows !! i ->
  forall w, read_losses rows' i set w = read_losses rows i set w.
Proof.
  intros Hrow w. unfold read_losses, mbind, M_bind, bind, lift, index, assign.
  destruct (rows' !! i) as [row'|], (rows !! i) as [row|]; simpl in Hrow;
    try discriminate; [| reflexivity].
  injection Hrow as ->. reflexivity.
Qed.

Lemma read_scalar_ext rows rows' i set :
  (fun row : list string => row !! 1%nat) <$> rows' !! i
  = (fun row : list string => row !! 1%nat) <$> rows !! i ->
  forall w, read_scalar rows' i set w = read_scalar rows i set w.
Proof.
  intros Hrow w. unfold read_scalar, mbind, M_bind, bind, lift, index, assign.
  destruct (rows' !! i) as [row'|], (rows !! i) as [row|]; simpl in Hrow;
    try discriminate; [| reflexivity].
  injection Hrow as ->. reflexivity.
Qed.

Lemma oblivious_lift {A} (r : result A) : oblivious (lift r).
Proof. intros w f. reflexivity. Qed.

Lemma oblivious_assign set : oblivious (assign set).
Proof. intros w f. reflexivity. Qed.

Lemma oblivious_bind {A B} (m : M A) (k : A -> M B) :
  oblivious m -> (forall a, oblivious (k a)) -> oblivious (m ≫= k).
Proof.
  intros Hm Hk w f. unfold mbind, M_bind, bind. rewrite Hm.
  destruct (m w) as [[a | e] w1]; simpl; [apply Hk | reflexivity].
Qed.

Lemma oblivious_read_losses rows i set : oblivious (read_losses rows i set).
Proof.
  unfold read_losses.
  repeat first [ apply oblivious_bind; [| intros ?]
               | apply oblivious_lift | apply oblivious_assign ].
Qed.

Lemma oblivious_read_scalar rows i set : oblivious (read_scalar rows i set).
Proof.
  unfold read_scalar.
  repeat first [ apply oblivious_bind; [| intros ?]
               | apply oblivious_lift | apply oblivious_assign ].
Qed.

(** X23. [read_from_csv] looks at nothing but the cells after the first
    of the rows 1 to 4 and 15 to 17 and the second cell of the rows 8 to
    12: replacing the file by any other file that agrees on these cells
    (other row names, other header, other certainty rows, other blank
    rows, other names row, more rows) gives the same outcome and the same
    attributes. *)
Theorem load_reads_only_the_addressed_cells path w rows rows' :
  files w !! path = Some rows ->
  same_addressed_cells rows rows' ->
  (read_from_csv path (with_files (insert path rows') w)).1
  = (read_from_csv path w).1
  /\ self (read_from_csv path (with_files (insert path rows') w)).2
     = self (read_from_csv path w).2.
Proof.
  intros Hfile [Hlists Hscalars].
  set (body := fun rows : list (list string) =>
    (row ← lift (index rows 1);
     assign (set_model_per_token (map LStr (drop 1 row)));;
     row ← lift (index rows 2);
     assign (set_euc_nn_votes (VoteCells (drop 1 row)));;
     row ← lift (index rows 3);
     assign (set_cos_nn_votes (VoteCells (drop 1 row)));;
     read_losses rows 4 set_model_loss_per_token;;
     read_scalar rows 8 set_euc_accuracy;;
     read_scalar rows 9 set_cos_accuracy;;
     read_scalar rows 10 set_euc_waccuracy;;
     read_scalar rows 11 set_cos_waccuracy;;
     read_scalar rows 12 set_euc_to_cos_accuracy;;
     read_losses rows 15 set_masked_loss;;
     read_losses rows 16 set_compressed_loss;;
     read_losses rows 17 set_individual_model_loss) : M unit).
  assert (Hread : forall v rs, files v !! path = Some rs ->
                    read_from_csv path v = body rs v).
  { intros v rs Hv. unfold read_from_csv.
    apply (bind_ok (read_rows path)). unfold read_rows. now rewrite Hv. }
  assert (Hext : forall v, body rows' v = body rows v).
  { unfold body.
    apply (row_step_ext rows rows' 1 (fun cells => set_model_per_token (map LStr cells)));
      [apply Hlists; set_solver |].
    apply (row_step_ext rows rows' 2 (fun cells => set_euc_nn_votes (VoteCells cells)));
      [apply Hlists; set_solver |].
    apply (row_step_ext rows rows' 3 (fun cells => set_cos_nn_votes (VoteCells cells)));
      [apply Hlists; set_solver |].
    repeat (apply bind_ext;
            [ first [ apply read_losses_ext; apply Hlists; set_solver
                    | apply read_scalar_ext; apply Hscalars; set_solver ]
            | intros _ ]).
    apply read_losses_ext. apply Hlists. set_solver. }
  assert (Hobl : oblivious (body rows)).
  { unfold body.
    repeat first [ apply oblivious_bind; [| intros ?]
                 | apply oblivious_read_losses | apply oblivious_read_scalar
                 | apply oblivious_lift | apply oblivious_assign ]. }
  rewrite (Hread w rows Hfile).
  rewrite (Hread (with_files (insert path rows') w) rows')
    by (simpl; apply lookup_insert_eq).
  rewrite Hext, Hobl. split; reflexivity.
Qed.

End Addressed.

Lemma load_reads_witness :
  let rows := report_rows (H := Demo.env) Demo.cfg Demo.report in
  let rows' := map (fun row => "?" :: drop 1 row) (take 5 rows)
               ++ [[]; ["x"; "y"]; ["z"]] ++ drop 8 rows ++ [["more"]] in
  let w := {| self := unset; files := {[ "report.csv" := rows ]}; trace := [] |} in
  rows' <> rows
  /\ (read_from_csv (H := Demo.env) "report.csv"
        (with_files (insert "report.csv" rows') w)).1
     = (read_from_csv (H := Demo.env) "report.csv" w).1.
Proof.
  intros rows rows' w. split; [vm_compute; discriminate |].
  refine (proj1 (load_reads_only_the_addressed_cells (H := Demo.env)
                   "report.csv" w rows rows' _ _)).
  - reflexivity.
  - split; intros i Hi;
      repeat (apply elem_of_cons in Hi as [-> | Hi]; [vm_compute; reflexivity |]);
      now apply elem_of_nil in Hi.
Defined.

Section Footprint.

Context `{Collaborators}.
Variable cfg : settings.

(** X24. Whatever its outcome, [token_relevance_evaluation] leaves every
    file other than its result file as it is. When the result file is
    there already, the run changes no file at all and calls no
    collaborator, whether loading completes or raises: an existing result
    file is never rewritten. *)
Theorem evaluation_touches_only_its_file w :
  (forall p, p <> save_path cfg ->
     files (token_relevance_evaluation cfg w).2 !! p = files w !! p)
  /\ (is_Some (files w !! save_path cfg) ->
      files (token_relevance_evaluation cfg w).2 = files w
      /\ trace (token_relevance_evaluation cfg w).2 = trace w).
Proof.
  assert (Hhit : is_Some (files w !! save_path cfg) ->
                 files (token_relevance_evaluation cfg w).2 = files w
                 /\ trace (token_relevance_evaluation cfg w).2 = trace w).
  { intros [rows Hfile].
    pose proof (read_rows_decided _ _ _ Hfile) as Hread.
    pose proof (read_from_csv_keeps_files (save_path cfg) w) as Hfiles.
    pose proof (read_from_csv_keeps_trace (save_path cfg) w) as Htrace.
    unfold token_relevance_evaluation, try_except.
    destruct (loadable rows).
    - destruct Hread as (w1 & Hread). rewrite Hread in *. auto.
    - destruct Hread as (e & w1 & Hread & He). rewrite Hread in *.
      destruct (decide (e = FileNotFoundError)) as [-> | _];
        [destruct He; discriminate | auto]. }
  split; [| exact Hhit].
  intros p Hp. destruct (files w !! save_path cfg) as [rows|] eqn:Hfile.
  - destruct Hhit as [Hfiles _]; [now eexists | now rewrite Hfiles].
  - rewrite (token_relevance_evaluation_miss cfg w Hfile).
    pose proof (loss_evaluation_keeps_files cfg w) as Hloss.
    unfold mbind, M_bind, bind.
    destruct (loss_evaluation cfg w) as [[[] | e] w1]; simpl in Hloss;
      [| simpl; now rewrite Hloss].
    pose proof (nn_evaluation_keeps_files cfg w1) as Hnn.
    destruct (nn_evaluation cfg w1) as [[[] | e] w2]; simpl in Hnn;
      [| simpl; now rewrite Hnn, Hloss].
    destruct (save_results_writes cfg (save_path cfg) w2)
      as (rows & Hfiles & _).
    rewrite Hfiles, lookup_insert_ne by congruence.
    now rewrite Hnn, Hloss.
Qed.

End Footprint.
